(** * Sequence-to-sequence models: decoder loop, attention, latent variable,
      bucketed assembly and loss

    A shallow embedding of [tensorflow/python/ops/seq2seq.py].

    Conventions.
    - A float tensor holds real numbers ([R]); a 1-D batch-sized tensor is a
      [list R], a 2-D tensor a list of rows.  Where the code only compares
      and selects values (scheduled sampling, argmax) rationals ([Q]) are used
      so that the definitions evaluate.
    - Python exceptions are values of [exn]; a function that can raise returns
      a [result].  A [ValueError] carries the format string of the source and
      the numbers substituted into it.
    - Operations of other modules (the RNN cell, [linear], the cross-entropy
      op, the seq2seq model handed to the bucketing function) are section
      variables. *)

From Stdlib Require Import String.
From Stdlib Require Import List Arith Bool Lia.
From Stdlib Require Import ZArith QArith Reals Lra.
From Stdlib Require OrderedTypeEx Permutation Sorted.
Import ListNotations.
Open Scope string_scope.
Open Scope list_scope.
Open Scope nat_scope.

Set Implicit Arguments.

(** * Exceptions and results *)

Inductive exn : Type :=
| ValueError (msg : string) (args : list nat)
| NotImplementedError (msg : string)
| IndexError
| TypeError
| UnboundLocalError
| AssertionError.

Inductive result (A : Type) : Type :=
| Ok (a : A)
| Raise (e : exn).

Arguments Ok {A} a.
Arguments Raise {A} e.

Definition bind {A B : Type} (m : result A) (k : A -> result B) : result B :=
  match m with
  | Ok a => k a
  | Raise e => Raise e
  end.

Notation "x <- m ;; k" := (bind m (fun x => k))
  (at level 61, m at next level, right associativity).

Definition is_ok {A : Type} (m : result A) : bool :=
  match m with Ok _ => true | Raise _ => false end.

(** [for x in xs: ys.append(f x)] with a body that can raise. *)
Fixpoint mapM {A B : Type} (f : A -> result B) (xs : list A) : result (list B) :=
  match xs with
  | [] => Ok []
  | x :: xs' => y <- f x ;; ys <- mapM f xs' ;; Ok (y :: ys)
  end.

(** [zip(a, b, c)]: stops at the shortest argument. *)
Fixpoint zip3 {A B C : Type} (a : list A) (b : list B) (c : list C)
  : list (A * B * C) :=
  match a, b, c with
  | x :: a', y :: b', z :: c' => (x, y, z) :: zip3 a' b' c'
  | _, _, _ => []
  end.

(** [control_flow_ops.cond(pred, fn1, fn2)]: both branch functions are called
    when the graph is built, so an exception of either one is raised; the
    value is that of [fn1] when [pred] holds and of [fn2] otherwise. *)
Definition cond {A : Type} (pred : bool) (fn1 fn2 : unit -> result A) : result A :=
  a <- fn1 tt ;; b <- fn2 tt ;; Ok (if pred then a else b).

(** [xs[-1]] *)
Definition last_item {A : Type} (xs : list A) : result A :=
  match rev xs with
  | [] => Raise IndexError
  | x :: _ => Ok x
  end.

(** * Tensors of reals *)

Module Tensor.
Open Scope R_scope.

Definition vec := list R.
Definition matrix := list (list R).

Fixpoint sum_R (xs : list R) : R :=
  match xs with
  | [] => 0
  | x :: xs' => x + sum_R xs'
  end.

Fixpoint map2 {A B C : Type} (f : A -> B -> C) (a : list A) (b : list B) : list C :=
  match a, b with
  | x :: a', y :: b' => f x y :: map2 f a' b'
  | _, _ => []
  end.

(** The [ValueError]s that TensorFlow raises when the graph is built: for
    tensors whose shapes do not agree, and for [add_n] of an empty list. *)
Definition incompatible_msg : string :=
  "Dimensions %d and %d are not compatible".
Definition add_n_msg : string :=
  "inputs must be a list of at least one Tensor with the same dtype and shape".

(** Element-wise binary op on two 1-D tensors: the shapes have to agree. *)
Definition elementwise (f : R -> R -> R) (a b : vec) : result vec :=
  if Nat.eqb (length a) (length b) then Ok (map2 f a b)
  else Raise (ValueError incompatible_msg [length a; length b]).

Definition mul := elementwise Rmult.
Definition add := elementwise Rplus.
Definition div := elementwise Rdiv.

(** [tensor + c] for a Python float [c]. *)
Definition add_scalar (a : vec) (c : R) : vec := map (fun x => x + c) a.

(** [math_ops.add_n]: sum of a non-empty list of tensors of equal shape. *)
Fixpoint add_all (acc : vec) (ts : list vec) : result vec :=
  match ts with
  | [] => Ok acc
  | t :: ts' => acc' <- add acc t ;; add_all acc' ts'
  end.

Definition add_n (inputs : list vec) : result vec :=
  match inputs with
  | [] => Raise (ValueError add_n_msg [])
  | t :: ts => add_all t ts
  end.

(** [math_ops.reduce_sum] over all elements of a 1-D tensor. *)
Definition reduce_sum (a : vec) : R := sum_R a.

(** [tf.reduce_mean] over all elements of a 1-D tensor. *)
Definition reduce_mean (a : vec) : R := sum_R a / INR (length a).

(** The values at batch position [b] of a list of 1-D tensors. *)
Definition column (b : nat) (ts : list vec) : list R :=
  map (fun t => nth b t 0) ts.

End Tensor.

(** * Sequence loss *)

Module SequenceLoss.
Import Tensor.
Open Scope R_scope.

Section Loss.

(** [Logit]: a 2-D tensor [batch_size x num_decoder_symbols]; the loss
    functions are the only code that looks inside it. *)
Variable Logit : Type.

(** A target is a 1-D batch-sized int32 tensor. *)
Definition target := list Z.

(** [nn_ops.sparse_softmax_cross_entropy_with_logits] *)
Variable sparse_softmax_cross_entropy_with_logits : Logit -> target -> result vec.

Definition loss_function := Logit -> target -> result vec.

(** [array_ops.reshape(target, [-1])] of a 1-D tensor. *)
Definition reshape_flat (t : target) : target := t.

(** [array_ops.shape(t)[0]] *)
Definition shape0 (t : target) : nat := length t.

Definition crossent_of (softmax_loss_function : option loss_function)
    (logit : Logit) (tgt : target) : result vec :=
  match softmax_loss_function with
  | None => sparse_softmax_cross_entropy_with_logits logit (reshape_flat tgt)
  | Some f => f logit tgt
  end.

(** The body of the loop over [zip(logits, targets, weights)]. *)
Definition log_perp_step (softmax_loss_function : option loss_function)
    (ltw : Logit * target * vec) : result vec :=
  let '(logit, tgt, weight) := ltw in
  crossent <- crossent_of softmax_loss_function logit tgt ;;
  mul crossent weight.

Definition lengths_msg : string :=
  "Lengths of logits, weights, and targets must be the same %d, %d, %d.".

Definition sequence_loss_by_example (logits : list Logit) (targets : list target)
    (weights : list vec) (average_across_timesteps : bool)
    (softmax_loss_function : option loss_function) : result vec :=
  if negb (Nat.eqb (length targets) (length logits))
     || negb (Nat.eqb (length weights) (length logits))
  then Raise (ValueError lengths_msg
                [length logits; length weights; length targets])
  else
    log_perp_list <- mapM (log_perp_step softmax_loss_function)
                          (zip3 logits targets weights) ;;
    log_perps <- add_n log_perp_list ;;
    if average_across_timesteps then
      total_size <- add_n weights ;;
      let total_size := add_scalar total_size 1e-12 in
      div log_perps total_size
    else Ok log_perps.

Definition sequence_loss (logits : list Logit) (targets : list target)
    (weights : list vec) (average_across_timesteps average_across_batch : bool)
    (softmax_loss_function : option loss_function) : result R :=
  per_example <- sequence_loss_by_example logits targets weights
                   average_across_timesteps softmax_loss_function ;;
  let cost := reduce_sum per_example in
  if average_across_batch then
    match targets with
    | [] => Raise IndexError
    | t0 :: _ => let batch_size := shape0 t0 in Ok (cost / INR batch_size)
    end
  else Ok cost.

(** [crossents] holds the cross-entropy of every step, each a tensor of
    batch size [B]. *)
Definition crossents_are (softmax_loss_function : option loss_function) (B : nat)
    (logits : list Logit) (targets : list target) (crossents : list vec) : Prop :=
  Forall2 (fun lt c =>
             crossent_of softmax_loss_function (fst lt) (snd lt) = Ok c
             /\ length c = B)
          (combine logits targets) crossents.

(** The loss of batch element [b] written out: the sum over the steps of
    cross-entropy times weight, divided by the total weight plus epsilon
    when averaging over the steps.  [crossents] and [weights] hold one
    batch-sized tensor per step. *)
Definition weighted_sum_at (b : nat) (crossents weights : list vec) : R :=
  sum_R (map2 Rmult (column b crossents) (column b weights)).

Definition total_weight_at (b : nat) (weights : list vec) : R :=
  sum_R (column b weights).

Definition example_loss_at (average_across_timesteps : bool) (b : nat)
    (crossents weights : list vec) : R :=
  if average_across_timesteps
  then weighted_sum_at b crossents weights / (total_weight_at b weights + 1e-12)
  else weighted_sum_at b crossents weights.

End Loss.

(** A sample run: two steps, batch size two, a loss function that returns
    the targets as reals. *)
Definition sample_loss : unit -> target -> result vec :=
  fun _ tgt => Ok (map IZR tgt).
Definition sample_logits : list unit := [tt; tt].
Definition sample_targets : list target := [[0; 1]; [1; 0]]%Z.
Definition sample_weights : list vec := [[1; 0]; [1; 0]].
Definition sample_crossents : list vec := [[0; 1]; [1; 0]].

End SequenceLoss.

(** * Bucketed assembly *)

Module Buckets.
Import Tensor SequenceLoss.
Open Scope R_scope.

(** A bucket is a pair [(input size, output size)]. *)
Definition bucket := (nat * nat)%type.

Inductive loss_value : Type :=
| PerExample (v : vec)      (* [per_example_loss]: a batch-sized tensor *)
| Scalar (c : R).

(** An entry of [losses]: the loss, or the pair [(loss, kl)] when the model
    returned a KL term. *)
Inductive bucket_loss : Type :=
| Loss (l : loss_value)
| LossKL (l : loss_value) (kl : R).

Section Model.

Variables EncInp DecInp Logit State EncStates Prob : Type.

Variable sparse_softmax_cross_entropy_with_logits : Logit -> target -> result vec.

(** What [seq2seq] returns: [(outputs, state)] or [(outputs, state, kl_obj)]. *)
Record seq2seq_out : Type := Seq2seqOut {
  out_outputs : list Logit;
  out_state : State;
  out_kl : option R
}.

Definition seq2seq_fn :=
  list EncInp -> list DecInp -> nat -> option EncStates -> option Prob
  -> result seq2seq_out.

Definition encoder_inputs_msg : string :=
  "Length of encoder_inputs (%d) must be at least that of last bucket (%d).".
Definition targets_msg : string :=
  "Length of targets (%d) must be at least that of lastbucket (%d).".
Definition weights_msg : string :=
  "Length of weights (%d) must be at least that of lastbucket (%d).".

(** The body of the loop over [buckets]: what is appended to [outputs],
    [losses] and [states]. *)
Definition run_bucket (encoder_inputs : list EncInp) (decoder_inputs : list DecInp)
    (targets : list target) (weights : list vec) (seq2seq : seq2seq_fn)
    (softmax_loss_function : option (loss_function Logit))
    (per_example_loss : bool) (encoder_states : option EncStates)
    (feed_prev_p : option Prob) (b : bucket)
  : result (list Logit * bucket_loss * State) :=
  seq2seq_out <- seq2seq (firstn (fst b) encoder_inputs)
                         (firstn (snd b) decoder_inputs)
                         (fst b) encoder_states feed_prev_p ;;
  let outputs := out_outputs seq2seq_out in
  loss <- (if per_example_loss then
             l <- sequence_loss_by_example sparse_softmax_cross_entropy_with_logits
                    outputs (firstn (snd b) targets) (firstn (snd b) weights)
                    true softmax_loss_function ;;
             Ok (PerExample l)
           else
             l <- sequence_loss sparse_softmax_cross_entropy_with_logits
                    outputs (firstn (snd b) targets) (firstn (snd b) weights)
                    true true softmax_loss_function ;;
             Ok (Scalar l)) ;;
  match out_kl seq2seq_out with
  | Some kl_obj =>
      s <- add_n (firstn (snd b) weights) ;;
      let total_size := add_scalar s 1e-12 in
      Ok (outputs,
          LossKL loss (reduce_mean (map (fun t => kl_obj / t) total_size)),
          out_state seq2seq_out)
  | None => Ok (outputs, Loss loss, out_state seq2seq_out)
  end.

Definition model_with_buckets_states (encoder_inputs : list EncInp)
    (decoder_inputs : list DecInp) (targets : list target) (weights : list vec)
    (buckets : list bucket) (seq2seq : seq2seq_fn)
    (softmax_loss_function : option (loss_function Logit))
    (per_example_loss : bool) (encoder_states : option EncStates)
    (feed_prev_p : option Prob)
  : result (list (list Logit) * list bucket_loss * list State) :=
  last_bucket <- last_item buckets ;;
  if length encoder_inputs <? fst last_bucket then
    Raise (ValueError encoder_inputs_msg [length encoder_inputs; fst last_bucket])
  else if length targets <? snd last_bucket then
    Raise (ValueError targets_msg [length targets; snd last_bucket])
  else if length weights <? snd last_bucket then
    Raise (ValueError weights_msg [length weights; snd last_bucket])
  else
    per_bucket <- mapM (run_bucket encoder_inputs decoder_inputs targets weights
                          seq2seq softmax_loss_function per_example_loss
                          encoder_states feed_prev_p) buckets ;;
    Ok (map (fun t => fst (fst t)) per_bucket,
        map (fun t => snd (fst t)) per_bucket,
        map snd per_bucket).

Definition model_with_buckets (encoder_inputs : list EncInp)
    (decoder_inputs : list DecInp) (targets : list target) (weights : list vec)
    (buckets : list bucket) (seq2seq : seq2seq_fn)
    (softmax_loss_function : option (loss_function Logit))
    (per_example_loss : bool)
  : result (list (list Logit) * list bucket_loss) :=
  r <- model_with_buckets_states encoder_inputs decoder_inputs targets weights
         buckets seq2seq softmax_loss_function per_example_loss None None ;;
  let '(outputs, losses, _) := r in
  Ok (outputs, losses).

End Model.

End Buckets.

(** * The decoder loop with scheduled sampling *)

Module RnnDecoder.
Open Scope Q_scope.

Definition qvec := list Q.
Definition qmatrix := list (list Q).

(** [tf.less(a, b)] on scalars. *)
Definition less (a b : Q) : bool :=
  match a ?= b with
  | Lt => true
  | _ => false
  end.

(** [math_ops.argmax(prev, 1)]: for each row the index of its largest entry,
    the first one when several are equal. *)
Fixpoint argmax_from (best_i : nat) (best : Q) (i : nat) (row : qvec) : nat :=
  match row with
  | [] => best_i
  | x :: row' =>
      if less best x then argmax_from i x (S i) row'
      else argmax_from best_i best (S i) row'
  end.

Definition argmax_row (row : qvec) : nat :=
  match row with
  | [] => 0%nat
  | x :: row' => argmax_from 0 x 1 row'
  end.

Definition argmax (m : qmatrix) : list nat := map argmax_row m.

(** [nn_ops.xw_plus_b(x, W, B)]: each row [x] becomes [B + sum_k x[k] * W[k]]. *)
Definition xw_plus_b (x w : qmatrix) (b : qvec) : qmatrix :=
  map (fun row =>
         fold_left (fun acc xw => Tensor.map2 Qplus acc (map (Qmult (fst xw)) (snd xw)))
                   (combine row w) b) x.

(** [embedding_ops.embedding_lookup(embedding, ids)] *)
Definition embedding_lookup (embedding : qmatrix) (ids : list nat) : qmatrix :=
  map (fun i => nth i embedding []) ids.

(** [array_ops.stop_gradient]: the identity on values. *)
Definition stop_gradient (x : qmatrix) : qmatrix := x.

(** The loop function built by [_extract_argmax_and_embed]. *)
Definition _extract_argmax_and_embed (embedding : qmatrix)
    (output_projection : option (qmatrix * qvec)) (update_embedding : bool)
  : qmatrix -> nat -> qmatrix :=
  fun prev _ =>
    let prev := match output_projection with
                | Some (w, b) => xw_plus_b prev w b
                | None => prev
                end in
    let prev_symbol := argmax prev in
    let emb_prev := embedding_lookup embedding prev_symbol in
    if negb update_embedding then stop_gradient emb_prev else emb_prev.

Section Decoder.

Variables Inp Out State : Type.
Variable cell : Inp -> State -> Out * State.

Definition loop_fn := Out -> nat -> Inp.

Definition inner_loop (loop_function : option loop_fn) (prev : option Out)
    (inp : Inp) (i : nat) (feed_prev : bool) : result Inp :=
  match feed_prev, prev with
  | true, Some p =>
      match loop_function with
      | Some f => Ok (f p i)
      | None => Raise TypeError
      end
  | _, _ => Ok inp
  end.

(** The input handed to the cell at step [i]; [rv] is the value drawn by
    [tf.random_uniform] at this step. *)
Definition step_input (loop_function : option loop_fn) (feed_prev_p : option Q)
    (rv : Q) (prev : option Out) (inp : Inp) (i : nat) : result Inp :=
  match feed_prev_p with
  | Some p =>
      let feed_prev := match loop_function with
                       | Some _ => less rv p
                       | None => false
                       end in
      cond feed_prev
           (fun _ => inner_loop loop_function prev inp i false)
           (fun _ => inner_loop loop_function prev inp i true)
  | None =>
      let feed_prev := match loop_function with
                       | Some _ => true
                       | None => false
                       end in
      inner_loop loop_function prev inp i feed_prev
  end.

(** What one run of the loop leaves behind: the inputs handed to the cell,
    the outputs and the final state. *)
Record run : Type := Run {
  fed : list Inp;
  outputs : list Out;
  state : State
}.

(** The loop [for i, inp in enumerate(decoder_inputs)], from step [i] on.
    [rvs i] is the uniform draw of step [i]. *)
Fixpoint decode (loop_function : option loop_fn) (feed_prev_p : option Q)
    (rvs : nat -> Q) (i : nat) (inputs : list Inp) (st : State)
    (prev : option Out) : result run :=
  match inputs with
  | [] => Ok (Run [] [] st)
  | inp :: rest =>
      inp' <- step_input loop_function feed_prev_p (rvs i) prev inp i ;;
      let (output, st') := cell inp' st in
      r <- decode loop_function feed_prev_p rvs (S i) rest st' (Some output) ;;
      Ok (Run (inp' :: fed r) (output :: outputs r) (state r))
  end.

Definition rnn_decoder_run (decoder_inputs : list Inp) (initial_state : State)
    (loop_function : option loop_fn) (feed_prev_p : option Q) (rvs : nat -> Q)
  : result run :=
  decode loop_function feed_prev_p rvs 0 decoder_inputs initial_state None.

Definition rnn_decoder (decoder_inputs : list Inp) (initial_state : State)
    (loop_function : option loop_fn) (feed_prev_p : option Q) (rvs : nat -> Q)
  : result (list Out * State) :=
  r <- rnn_decoder_run decoder_inputs initial_state loop_function feed_prev_p rvs ;;
  Ok (outputs r, state r).

End Decoder.

Section Embedding.

Variable State : Type.
Variable cell : qmatrix -> State -> qmatrix * State.

(** [embedding] stands for the variable that [get_variable] returns. *)
Definition embedding_rnn_decoder_run (embedding : qmatrix)
    (decoder_inputs : list (list nat)) (initial_state : State)
    (output_projection : option (qmatrix * qvec)) (feed_previous : bool)
    (update_embedding_for_previous : bool) (feed_prev_p : option Q)
    (rvs : nat -> Q) : result (run qmatrix qmatrix State) :=
  let schedule := match feed_prev_p with Some _ => true | None => false end in
  let loop_function :=
    if feed_previous || schedule
    then Some (_extract_argmax_and_embed embedding output_projection
                 update_embedding_for_previous)
    else None in
  let emb_inp := map (embedding_lookup embedding) decoder_inputs in
  rnn_decoder_run cell emb_inp initial_state loop_function feed_prev_p rvs.

End Embedding.

End RnnDecoder.

(** * The attention mechanism of [attention_decoder] *)

Module Attention.
Import Tensor.
Open Scope R_scope.

(** [nn_ops.softmax] of one row. *)
Definition softmax_row (s : vec) : vec :=
  let z := sum_R (map exp s) in
  map (fun x => exp x / z) s.

(** [nn_ops.softmax] of a 2-D tensor: along the last axis. *)
Definition softmax (s : matrix) : matrix := map softmax_row s.

(** A query is a state tensor or a tuple of them. *)
Inductive query : Type :=
| QTensor (m : matrix)
| QTuple (parts : list matrix).

(** [array_ops.concat(1, parts)] *)
Fixpoint concat1 (parts : list matrix) : matrix :=
  match parts with
  | [] => []
  | [m] => m
  | m :: rest => map2 (@app R) m (concat1 rest)
  end.

Definition flatten_query (q : query) : matrix :=
  match q with
  | QTensor m => m
  | QTuple parts => concat1 parts
  end.

Section Heads.

(** [hidden]: [attention_states] as [batch x attn_length x attn_size]. *)
Variable hidden : list (list vec).
(** [hidden_features[i]]: [batch x attn_length x attention_vec_size]. *)
Variable hidden_features : list (list (list vec)).
(** [v[i]]: the vector [AttnV_i]. *)
Variable v : list vec.
(** [linear(query, attention_vec_size, True)] in scope [Attention_i]:
    a tensor [batch x attention_vec_size]. *)
Variable linear : nat -> matrix -> matrix.
Variable src_mask : option matrix.
Variable num_heads : nat.
Variable attn_size : nat.

(** [reduce_sum(v[i] * tanh(hidden_features[i] + y), [2, 3])] *)
Definition scores (v_i : vec) (features : list (list vec)) (y : matrix) : matrix :=
  map2 (fun features_b y_b =>
          map (fun h => sum_R (map2 Rmult v_i (map tanh (map2 Rplus h y_b))))
              features_b)
       features y.

(** [s * src_mask] *)
Definition masked (s : matrix) : matrix :=
  match src_mask with
  | Some m => map2 (map2 Rmult) s m
  | None => s
  end.

(** The attention mask [a] of head [i]: [batch x attn_length]. *)
Definition attention_mask (i : nat) (q : query) : matrix :=
  let y := linear i (flatten_query q) in
  let s := scores (nth i v []) (nth i hidden_features []) y in
  softmax (masked s).

(** [reduce_sum(reshape(a, [-1, attn_length, 1, 1]) * hidden, [1, 2])] *)
Definition weighted (a : matrix) : matrix :=
  map2 (fun a_b hidden_b =>
          fold_right (fun ah acc => map2 Rplus (map (Rmult (fst ah)) (snd ah)) acc)
                     (repeat 0 attn_size) (combine a_b hidden_b))
       a hidden.

Definition attention (q : query) : list matrix :=
  map (fun i => weighted (attention_mask i q)) (seq 0 num_heads).

End Heads.

(** One row of [weighted]: the sum over the source positions of weight times
    attention state. *)
Definition context_row (attn_size : nat) (a_b : vec) (hidden_b : list vec) : vec :=
  fold_right (fun ah acc => map2 Rplus (map (Rmult (fst ah)) (snd ah)) acc)
             (repeat 0 attn_size) (combine a_b hidden_b).

End Attention.

(** * The latent variable of [embedding_rnn_vae_seq2seq] *)

Module Vae.
Import Tensor.
Open Scope R_scope.

Definition mmap (f : R -> R) (m : matrix) : matrix := map (map f) m.
Definition mmap2 (f : R -> R -> R) (a b : matrix) : matrix := map2 (map2 f) a b.

(** [tf.matmul(x, w)]: row [x] becomes [sum_k x[k] * w[k]]. *)
Definition matmul (x w : matrix) : matrix :=
  map (fun row =>
         fold_right (fun xw acc => map2 Rplus (map (Rmult (fst xw)) (snd xw)) acc)
                    (repeat 0 (length (hd [] w))) (combine row w))
      x.

(** [tf.add(m, b)] with the bias [b] added to every row. *)
Definition bias_add (m : matrix) (b : vec) : matrix :=
  map (fun row => map2 Rplus row b) m.

(** [tf.concat(concat_dim=1, values=[a, b])] *)
Definition concat_cols (a b : matrix) : matrix := map2 (@app R) a b.

(** [tf.split(1, 2, m)] *)
Definition split2 (m : matrix) : list matrix :=
  let h := Nat.div (length (hd [] m)) 2 in
  [map (firstn h) m; map (skipn h) m].

(** One entry of [kl_loss]. *)
Definition kl_unit (mean log_var : R) : R :=
  -0.5 * (1.0 + log_var - Rsqr mean - exp log_var).

Definition kl_loss_of (z_mean z_log_var : matrix) : matrix :=
  mmap2 kl_unit z_mean z_log_var.

Definition col (j : nat) (m : matrix) : vec := map (fun row => nth j row 0) m.

(** [tf.reduce_mean(m, [0])]: the mean over the rows (the batch), one value
    per column: the rows are added up and the sum is divided by their number. *)
Definition reduce_mean_0 (m : matrix) : vec :=
  match m with
  | [] => []
  | row :: rows =>
      map (fun x => x / INR (length m)) (fold_left (map2 Rplus) rows row)
  end.

(** [tf.reduce_mean(m, [1])]: the mean over the columns, one value per row. *)
Definition reduce_mean_1 (m : matrix) : vec :=
  map (fun row => sum_R row / INR (length row)) m.

(** [tf.maximum(a, c)] for a Python float [c]. *)
Definition maximum (a : vec) (c : R) : vec := map (fun x => Rmax x c) a.

(** Lines 565-571: [kl_obj] from [kl_loss], a tensor [batch x latent_size]. *)
Definition kl_obj_of (kl_loss : matrix) (kl_min : R) (anneal_scale : option R) : R :=
  let kl_step_av := reduce_mean_0 kl_loss in
  let kl_obj := if Rlt_dec 0 kl_min
                then reduce_sum (maximum kl_step_av kl_min)
                else reduce_sum kl_step_av in
  match anneal_scale with
  | Some a => a * kl_obj
  | None => kl_obj
  end.

(** The aggregation in the words of the specification: the mean across the
    latent dimension, each batch element floored at [kl_min], the sum across
    the batch, scaled by the annealing coefficient. *)
Definition kl_obj_as_specified (kl_loss : matrix) (kl_min : R)
    (anneal_scale : option R) : R :=
  let per_example := reduce_mean_1 kl_loss in
  let floored := if Rlt_dec 0 kl_min then maximum per_example kl_min
                 else per_example in
  let total := reduce_sum floored in
  match anneal_scale with
  | Some a => a * total
  | None => total
  end.

Record variables : Type := Variables {
  z_mean_w : matrix;
  z_mean_b : vec;
  z_logvar_w : matrix;
  z_logvar_b : vec;
  dec_in_w : matrix;
  dec_in_b : vec
}.

(** [feed_previous] is a Python bool or a boolean tensor (its value in the
    run is kept). *)
Inductive feed_previous_arg : Type :=
| PyBool (b : bool)
| BoolTensor (b : bool).

Inductive decoder_state : Type :=
| StateTensor (m : matrix)
| StateTuple (parts : list matrix).

(** The third component returned. *)
Inductive kl_term : Type :=
| KlObj (kl_obj : R)
| KlLoss (kl_loss : matrix).

Section Seq2seq.

Variables DecInputs Out Prob : Type.
Variable transfer_func : matrix -> matrix.

(** [embedding_rnn_decoder(decoder_inputs, initial_state, dec_cell, ...,
    feed_previous, update_embedding_for_previous, feed_prev_p)], its
    outputs only. *)
Variable embedding_rnn_decoder :
  DecInputs -> decoder_state -> bool -> bool -> option Prob -> result (list Out).

Definition z_mean_of (vars : variables) (encoder_out_state : matrix) : matrix :=
  transfer_func (bias_add (matmul encoder_out_state (z_mean_w vars)) (z_mean_b vars)).

Definition z_log_var_of (vars : variables) (encoder_out_state : matrix) : matrix :=
  transfer_func (bias_add (matmul encoder_out_state (z_logvar_w vars)) (z_logvar_b vars)).

(** Lines 581-595: the initial state of the decoder from [z]. *)
Definition initial_state_of (vars : variables) (encoder_out_state : matrix)
    (state_is_tuple concat_encoded : bool) (z : matrix) : result decoder_state :=
  if concat_encoded then
    if state_is_tuple then
      let enc_state_tuple := split2 encoder_out_state in
      Ok (StateTuple (map (fun st => concat_cols st z) enc_state_tuple))
    else Raise UnboundLocalError
  else
    let initial_state :=
      transfer_func (bias_add (matmul z (dec_in_w vars)) (dec_in_b vars)) in
    if state_is_tuple then Ok (StateTuple (split2 initial_state))
    else Ok (StateTensor initial_state).

(** From the latent state on (line 553); [encoder_out_state] is the state
    the encoder returned, [eps] the draw of [tf.random_normal]. *)
Definition embedding_rnn_vae_seq2seq (encoder_out_state : matrix)
    (state_is_tuple : bool) (vars : variables) (eps : matrix)
    (decoder_inputs : DecInputs) (feed_previous : feed_previous_arg)
    (latent_state : option matrix) (feed_prev_p : option Prob) (kl_min : R)
    (anneal_scale : option R) (sample_mean concat_encoded : bool)
  : result (list Out * matrix * kl_term) :=
  let z_mean := z_mean_of vars encoder_out_state in
  let z_log_var := z_log_var_of vars encoder_out_state in
  let z := mmap2 Rplus z_mean
             (mmap2 Rmult (mmap (fun x => sqrt (exp x)) z_log_var) eps) in
  let kl_loss := kl_loss_of z_mean z_log_var in
  let kl_obj := kl_obj_of kl_loss kl_min anneal_scale in
  use_mean <- (if sample_mean then
                 match feed_previous with
                 | PyBool b => Ok b
                 | BoolTensor _ => Raise TypeError
                 end
               else Ok false) ;;
  let z := if use_mean then z_mean else z in
  let '(z, feed_prev_p) := match latent_state with
                           | Some l => (l, None)
                           | None => (z, feed_prev_p)
                           end in
  initial_state <- initial_state_of vars encoder_out_state state_is_tuple
                     concat_encoded z ;;
  match feed_previous with
  | PyBool b =>
      outs <- embedding_rnn_decoder decoder_inputs initial_state b true feed_prev_p ;;
      Ok (outs, z, KlObj kl_obj)
  | BoolTensor b =>
      let decoder := fun feed_previous_bool (_ : unit) =>
        outs <- embedding_rnn_decoder decoder_inputs initial_state
                  feed_previous_bool false feed_prev_p ;;
        Ok (outs, z) in
      outputs_and_state <- cond b (decoder true) (decoder false) ;;
      Ok (fst outputs_and_state, snd outputs_and_state, KlLoss kl_loss)
  end.

(** The third component a call returns, written from the encoder state
    alone: [kl_obj] for a Python bool, [kl_loss] for a tensor. *)
Definition kl_term_of (vars : variables) (encoder_out_state : matrix)
    (feed_previous : feed_previous_arg) (kl_min : R) (anneal_scale : option R)
  : kl_term :=
  let kl_loss := kl_loss_of (z_mean_of vars encoder_out_state)
                            (z_log_var_of vars encoder_out_state) in
  match feed_previous with
  | PyBool _ => KlObj (kl_obj_of kl_loss kl_min anneal_scale)
  | BoolTensor _ => KlLoss kl_loss
  end.

(** The arguments [feed_previous] and [update_embedding_for_previous] of the
    decoder call whose outputs are returned. *)
Definition decoder_flags (feed_previous : feed_previous_arg) : bool * bool :=
  match feed_previous with
  | PyBool b => (b, true)
  | BoolTensor b => (b, false)
  end.

End Seq2seq.

End Vae.

(** * The transfer function handed to [embedding_rnn_vae_seq2seq] *)

Module VaeCall.
Import Tensor Vae.

Section Call.

Variables DecInputs Out Prob : Type.
Variable embedding_rnn_decoder :
  DecInputs -> decoder_state -> bool -> bool -> option Prob -> result (list Out).


End Call.

End VaeCall.

(** * The control flow of [attention_decoder] *)

Module AttentionDecoder.

(** The cell classes that the initialization for the bag-of-words encoder
    tells apart with [isinstance]. *)
Inductive cell_kind : Type :=
| LSTMCell
| BasicLSTMCell
| OtherCell
| DropoutWrapper (wrapped : cell_kind)
| MultiRNNCell (first : cell_kind) (num_layers : nat)
| BOWCell (wrapped : cell_kind).

Definition is_LSTM_cell (c : cell_kind) : bool :=
  match c with
  | LSTMCell | BasicLSTMCell => true
  | _ => false
  end.

Definition is_LSTM_cell_with_dropout (c : cell_kind) : bool :=
  match c with
  | DropoutWrapper c' => is_LSTM_cell c'
  | _ => false
  end.

(** The condition of the [if] in [init_state]. *)
Definition bow_init_supported (c : cell_kind) : bool :=
  match c with
  | BOWCell w =>
      is_LSTM_cell w || is_LSTM_cell_with_dropout w
      || match w with
         | MultiRNNCell c0 _ => is_LSTM_cell c0 || is_LSTM_cell_with_dropout c0
         | _ => false
         end
  | _ => false
  end.

Definition no_inputs_msg : string :=
  "Must provide at least 1 input to attention decoder.".
Definition heads_msg : string :=
  "With less than 1 heads, use a non-attention decoder.".
Definition attn_shape_msg : string :=
  "Shape[2] of attention_states must be known: %s".
Definition input_size_msg : string :=
  "Could not infer input size from input: %s".
Definition bow_init_msg : string :=
  "Need to implement decoder state initialization for non-LSTM cells".

(** How a call ends.  [steps_entered] counts the iterations of the loop over
    [decoder_inputs] that were begun before the call returned or raised: it
    is [0] for an exception raised before the loop. *)
Record ending (A : Type) : Type := Ending {
  steps_entered : nat;
  outcome : result A
}.

Section Decoder.

Variables Inp X CellOut State Attn Out BowMask : Type.

(** [inp.get_shape().with_rank(2)[1].value] *)
Variable static_width : Inp -> option nat.
(** [linear([inp] + attns, input_size, True)] *)
Variable linear_merge : Inp -> list Attn -> nat -> X.
Variable cell : X -> State -> CellOut * State.
(** The ranks [q.get_shape().ndims] of the tensors of a query that is a
    sequence, in the order of [nest.flatten(query)]; [None] for a query that
    is one tensor. *)
Variable query_ndims : State -> option (list (option nat)).
(** The attention reads [ds] of the closure [attention]. *)
Variable attention_reads : State -> list Attn.
(** The output layer: with [maxout_layer] the chain merge, bias, maxout and
    two linear maps of [cell_output], [inp] and [attns], otherwise
    [linear([cell_output] + attns, output_size, True)]. *)
Variable maxout_output : CellOut -> Inp -> list Attn -> Out.
Variable linear_output : CellOut -> list Attn -> Out.
(** [output * bow_mask] *)
Variable mask_output : Out -> BowMask -> Out.
(** [array_ops.zeros(batch_attn_size)] *)
Variable zero_attn : Attn.
(** The state [init_state] computes for a supported cell, and the variable
    [DecInit]. *)
Variable bow_state : cell_kind -> State.
Variable dec_init : State.

Record arguments : Type := Arguments {
  decoder_inputs : list Inp;
  initial_state : State;
  attn_size : option nat;   (* [attention_states.get_shape()[2].value] *)
  attn_length : option nat; (* [attention_states.get_shape()[1].value] *)
  cell_class : cell_kind;
  num_heads : Z;
  loop_function : option (Out -> nat -> Inp);
  initial_state_attention : bool;
  maxout_layer : bool;
  encoder : string;
  init_const : bool;
  bow_mask : option BowMask
}.

(** The same call with other decoder inputs. *)
Definition with_inputs (a : arguments) (inputs : list Inp) : arguments :=
  Arguments inputs (initial_state a) (attn_size a) (attn_length a) (cell_class a)
    (num_heads a) (loop_function a) (initial_state_attention a) (maxout_layer a)
    (encoder a) (init_const a) (bow_mask a).

(** The bag-of-words initialization meets a cell it has no case for. *)
Definition bow_init_fails (a : arguments) : Prop :=
  encoder a = "bow" /\ init_const a = false
  /\ bow_init_supported (cell_class a) = false.

(** [init_state()]; it is called with [num_heads >= 1]. *)
Definition init_state (a : arguments) : result State :=
  if bow_init_supported (cell_class a) then Ok (bow_state (cell_class a))
  else Raise (NotImplementedError bow_init_msg).

(** [if ndims: assert ndims == 2] *)
Definition ndims_ok (ndims : option nat) : bool :=
  match ndims with
  | None => true
  | Some 0 => true
  | Some n => Nat.eqb n 2
  end.

(** The closure [attention]: the rank check of a query that is a sequence,
    then the attention reads. *)
Definition attention (query : State) : result (list Attn) :=
  match query_ndims query with
  | Some ndims =>
      if forallb ndims_ok ndims then Ok (attention_reads query)
      else Raise AssertionError
  | None => Ok (attention_reads query)
  end.

(** The rank check of [attention(initial_state)] fails. *)
Definition initial_attention_fails (a : arguments) : Prop :=
  initial_state_attention a = true
  /\ exists ndims, query_ndims (initial_state a) = Some ndims
                   /\ forallb ndims_ok ndims = false.

(** The loop [for i, inp in enumerate(decoder_inputs)], from step [i] on. *)
Fixpoint steps (a : arguments) (i : nat) (inputs : list Inp) (st : State)
    (attns : list Attn) (prev : option Out) : ending (list Out * State) :=
  match inputs with
  | [] => Ending i (Ok ([], st))
  | inp :: rest =>
      let inp := match loop_function a, prev with
                 | Some f, Some p => f p i
                 | _, _ => inp
                 end in
      match static_width inp with
      | None => Ending (S i) (Raise (ValueError input_size_msg []))
      | Some input_size =>
          let x := linear_merge inp attns input_size in
          let (cell_output, st') := cell x st in
          match attention st' with
          | Raise e => Ending (S i) (Raise e)
          | Ok attns' =>
              let output := if maxout_layer a
                            then maxout_output cell_output inp attns'
                            else linear_output cell_output attns' in
              let output := match bow_mask a with
                            | Some m => mask_output output m
                            | None => output
                            end in
              let prev' := match loop_function a with
                           | Some _ => Some output
                           | None => prev
                           end in
              let e := steps a (S i) rest st' attns' prev' in
              Ending (steps_entered e)
                     (r <- outcome e ;; Ok (output :: fst r, snd r))
          end
      end
  end.

Definition attention_decoder (a : arguments) : ending (list Out * State) :=
  match decoder_inputs a with
  | [] => Ending 0 (Raise (ValueError no_inputs_msg []))
  | _ :: _ =>
      if (num_heads a <? 1)%Z then Ending 0 (Raise (ValueError heads_msg []))
      else
        match attn_size a with
        | None => Ending 0 (Raise (ValueError attn_shape_msg []))
        | Some _ =>
            (* ["Attn_length=%d attn_size=%d" % (attn_length, attn_size)]
               with a tensor for [attn_length] *)
            match attn_length a with
            | None => Ending 0 (Raise TypeError)
            | Some _ =>
                match (if String.eqb (encoder a) "bow" then
                         if init_const a then Ok dec_init else init_state a
                       else Ok (initial_state a)) with
                | Raise e => Ending 0 (Raise e)
                | Ok st =>
                    match (if initial_state_attention a
                           then attention (initial_state a)
                           else Ok (repeat zero_attn (Z.to_nat (num_heads a)))) with
                    | Raise e => Ending 0 (Raise e)
                    | Ok attns => steps a 0 (decoder_inputs a) st attns None
                    end
                end
            end
        end
  end.

End Decoder.

End AttentionDecoder.

(** * The decoder state for the bag-of-words encoder: [init_state] *)

Module BowInit.
Import Tensor Attention AttentionDecoder.
Open Scope R_scope.

(** The weights [a]: the softmax of a matrix of ones times the source
    mask. *)
Definition init_weights (batch_size attn_length : nat) (src_mask : option matrix)
  : matrix :=
  let s := repeat (repeat 1 attn_length) batch_size in
  softmax (masked src_mask s).

(** [C = reduce_sum(a * hidden, [1, 2])] and [h = tanh(C)]. *)
Definition init_memory (hidden : list (list vec)) (attn_size batch_size attn_length : nat)
    (src_mask : option matrix) : matrix * matrix :=
  let a := init_weights batch_size attn_length src_mask in
  let C := weighted hidden attn_size a in
  (C, map (map tanh) C).

(** The value of [init_state()]: [C] and [h] side by side, once for a single
    LSTM cell, and for a [MultiRNNCell] repeated while [count < num_layers]. *)
Definition init_state_value (cell : cell_kind) (hidden : list (list vec))
    (attn_size batch_size attn_length : nat) (src_mask : option matrix)
  : result matrix :=
  if bow_init_supported cell then
    let (C, h) := init_memory hidden attn_size batch_size attn_length src_mask in
    let unit := concat1 [C; h] in
    match cell with
    | BOWCell (MultiRNNCell _ num_layers) =>
        Ok (Nat.iter (num_layers - 1) (fun state => concat1 [state; unit]) unit)
    | _ => Ok unit
    end
  else Raise (NotImplementedError bow_init_msg).

End BowInit.

(** * The entries of [losses] in [model_with_buckets_states] *)

Module BucketEntries.
Import Tensor SequenceLoss Buckets.
Open Scope R_scope.


End BucketEntries.

(** * The segments of the maxout layer of [attention_decoder] *)

Module Maxout.

(** [maxout_size = cell.output_size // 2] *)
Definition maxout_size (output_size : nat) : nat := output_size / 2.

(** The pairs [[i, i] for i in xrange(maxout_size)], chained into one list. *)
Definition segment_id_list (output_size : nat) : list nat :=
  concat (map (fun i => [i; i]) (seq 0 (maxout_size output_size))).

End Maxout.

(** * Reading token files: [models/rnn/ptb/reader.py] *)

Module Reader.
Import OrderedTypeEx.

(** The exceptions of this file. *)
Inductive error : Type :=
| ZeroDivisionError
| KeyError (key : string)
| ValueError (msg : string)
| OverflowError.

(** A value or an exception. *)
Definition res (A : Type) : Type := (error + A)%type.

Definition and_then {A B : Type} (m : res A) (k : A -> res B) : res B :=
  match m with
  | inr a => k a
  | inl e => inl e
  end.

Fixpoint for_each {A B : Type} (f : A -> res B) (xs : list A) : res (list B) :=
  match xs with
  | [] => inr []
  | x :: xs' =>
      and_then (f x) (fun y => and_then (for_each f xs') (fun ys => inr (y :: ys)))
  end.

(** [xs[a:b]] for [0 <= a <= b]. *)
Definition slice {A : Type} (xs : list A) (a b : nat) : list A :=
  firstn (b - a) (skipn a xs).

(** ** [_build_vocab] and [_file_to_word_ids]

    [data] is the list of words [_read_words] returns. *)

(** One step of [collections.Counter(data)]: the count of [w] goes up by
    one; a new word is entered with count 1, after the words seen before. *)
Fixpoint count_word (w : string) (counts : list (string * nat)) : list (string * nat) :=
  match counts with
  | [] => [(w, 1)]
  | (w', c) :: rest =>
      if String.eqb w w' then (w', S c) :: rest
      else (w', c) :: count_word w rest
  end.

Definition counter (data : list string) : list (string * nat) :=
  fold_left (fun counts w => count_word w counts) data [].

(** The order of the sort key [(-x[1], x[0])]: higher count first, then the
    smaller word. *)
Definition key_lt (p q : string * nat) : bool :=
  (snd q <? snd p)
  || ((snd p =? snd q)
      && match String_as_OT.cmp (fst p) (fst q) with Lt => true | _ => false end).

(** [p] does not come after [q] in that order. *)
Definition key_le (p q : string * nat) : Prop := key_lt q p = false.

(** [sorted(items, key=...)]: a stable sort. *)
Fixpoint insert_pair (x : string * nat) (l : list (string * nat)) : list (string * nat) :=
  match l with
  | [] => [x]
  | y :: l' => if key_lt y x then y :: insert_pair x l' else x :: y :: l'
  end.

Definition sorted_pairs (items : list (string * nat)) : list (string * nat) :=
  fold_right insert_pair [] items.

(** [d[key]] for a dict given as the list of its items. *)
Fixpoint lookup (key : string) (d : list (string * nat)) : res nat :=
  match d with
  | [] => inl (KeyError key)
  | (k, v) :: rest => if String.eqb key k then inr v else lookup key rest
  end.

(** [counts[w]] of a [Counter]: 0 for a word that was not counted. *)
Definition count_of (w : string) (counts : list (string * nat)) : nat :=
  match lookup w counts with
  | inr c => c
  | inl _ => 0
  end.

Definition _build_vocab (data : list string) : res (list (string * nat)) :=
  let count_pairs := sorted_pairs (counter data) in
  match count_pairs with
  | [] => inl (ValueError "not enough values to unpack")
  | _ :: _ =>
      let words := map fst count_pairs in
      inr (combine words (seq 0 (length words)))
  end.

Definition _file_to_word_ids (data : list string) (word_to_id : list (string * nat))
  : res (list nat) :=
  for_each (fun word => lookup word word_to_id) data.

(** [ptb_raw_data] on the words of the three files. *)
Definition ptb_raw_data (train valid test : list string)
  : res (list nat * list nat * list nat * nat) :=
  and_then (_build_vocab train) (fun word_to_id =>
  and_then (_file_to_word_ids train word_to_id) (fun train_data =>
  and_then (_file_to_word_ids valid word_to_id) (fun valid_data =>
  and_then (_file_to_word_ids test word_to_id) (fun test_data =>
  inr (train_data, valid_data, test_data, length word_to_id))))).

(** ** [read_indexed_data]

    A file is the list of its lines, a line the list of its tokens
    ([line.split()]); [int] is Python's conversion of a token, which raises
    [ValueError] on a token that is no integer literal. *)

Section IndexedData.

Variable int : string -> res Z.

(** [[tok if tok < vocab_size else 0 for tok in tok_ids]] under
    [if vocab_size:]. *)
Definition clip (vocab_size : option Z) (tok_ids : list Z) : list Z :=
  match vocab_size with
  | None => tok_ids
  | Some v =>
      if (v =? 0)%Z then tok_ids
      else map (fun tok => if (tok <? v)%Z then tok else 0%Z) tok_ids
  end.

(** The loop over the lines, with [data] and [line_nr] as they are before
    the line. *)
Fixpoint read_lines (lines : list (list string)) (max_train_data_size : Z)
    (vocab_size : option Z) (line_nr : Z) (data : list Z) : res (list Z) :=
  match lines with
  | [] => inr data
  | line :: rest =>
      and_then (for_each int line) (fun tok_ids =>
        let tok_ids := clip vocab_size tok_ids ++ [2%Z] in
        let data := data ++ tok_ids in
        let line_nr := (line_nr + 1)%Z in
        if (0 <? max_train_data_size)%Z && (max_train_data_size <=? line_nr)%Z
        then inr data
        else read_lines rest max_train_data_size vocab_size line_nr data)
  end.

Definition read_indexed_data (lines : list (list string))
    (max_train_data_size : Z) (vocab_size : option Z) : res (list Z) :=
  read_lines lines max_train_data_size vocab_size 0%Z [].

(** The lines that are read: the first [max_train_data_size] ones when that
    is positive, all of them otherwise. *)
Definition lines_read {A : Type} (lines : list A) (max_train_data_size : Z) : list A :=
  if (0 <? max_train_data_size)%Z then firstn (Z.to_nat max_train_data_size) lines
  else lines.

End IndexedData.

(** ** [ptb_iterator]

    The sizes are natural numbers; the generator is given by the list of the
    pairs it yields, or by the exception its first step raises. *)

Definition epoch_size_msg : string :=
  "epoch_size == 0, decrease batch_size or num_steps".

(** The ids that [np.int32] holds. *)
Definition fits_int32 (z : Z) : Prop := (- 2 ^ 31 <= z < 2 ^ 31)%Z.

Section Iterator.

(** The conversion of one Python int by [np.array(..., dtype=np.int32)]: an
    id that fits 32 bits is kept; for the others NumPy, whose code is not
    part of this repository, wraps or raises. *)
Variable int32 : Z -> res Z.

Definition ptb_iterator (raw_data : list Z) (batch_size num_steps start_idx : nat)
  : res (list (list (list Z) * list (list Z))) :=
  and_then (for_each int32 raw_data) (fun raw_data =>
  let data_len := length raw_data in
  if batch_size =? 0 then inl ZeroDivisionError
  else
    let batch_len := data_len / batch_size in
    let data := map (fun i => slice raw_data (batch_len * i) (batch_len * (i + 1)))
                    (seq 0 batch_size) in
    if num_steps =? 0 then inl ZeroDivisionError
    else
      let epoch_size := ((Z.of_nat batch_len - 1) / Z.of_nat num_steps)%Z in
      if (epoch_size =? 0)%Z then inl (ValueError epoch_size_msg)
      else
        inr (map (fun i =>
                    (map (fun row => slice row (i * num_steps) ((i + 1) * num_steps)) data,
                     map (fun row => slice row (i * num_steps + 1)
                                           ((i + 1) * num_steps + 1)) data))
                 (seq start_idx (Z.to_nat epoch_size - start_idx)))).

End Iterator.

(** A conversion that raises for every id that does not fit 32 bits. *)
Definition int32_checked (z : Z) : res Z :=
  if ((- 2 ^ 31 <=? z) && (z <? 2 ^ 31))%Z then inr z else inl OverflowError.

(** A sample for [int]: decimal literals without a sign. *)
Fixpoint decimal_from (s : string) (acc : Z) : res Z :=
  match s with
  | EmptyString => inr acc
  | String c s' =>
      let n := Ascii.nat_of_ascii c in
      if (48 <=? n) && (n <=? 57)
      then decimal_from s' (10 * acc + Z.of_nat (n - 48))%Z
      else inl (ValueError "invalid literal for int() with base 10")
  end.

Definition decimal (s : string) : res Z :=
  match s with
  | EmptyString => inl (ValueError "invalid literal for int() with base 10")
  | _ => decimal_from s 0%Z
  end.

End Reader.

(** * Sample inputs *)

Module Samples.
Import Tensor SequenceLoss Buckets.

(** A decoder run: batch size one, three symbols with embeddings [1], [2]
    and [3]; the cell always scores symbol 2 highest. *)
Definition embedding : RnnDecoder.qmatrix := [[1]; [2]; [3]]%Q.
Definition scoring_cell (inp : RnnDecoder.qmatrix) (st : nat)
  : RnnDecoder.qmatrix * nat :=
  (map (fun _ => [0; 0; 1]%Q) inp, S st).
Definition decoder_inputs : list (list nat) := [[0]; [1]; [1]]%nat.
Definition half : nat -> Q := fun _ => (1 # 2)%Q.

(** A seq2seq model made of [rnn_decoder]; the encoder is left out. *)
Definition counting_cell (inp : unit) (st : nat) : unit * nat := (tt, S st).
Definition seq2seq : seq2seq_fn unit unit unit nat unit Q :=
  fun encoder_inputs decoder_inputs _ _ feed_prev_p =>
    r <- RnnDecoder.rnn_decoder counting_cell decoder_inputs
           (length encoder_inputs) None feed_prev_p half ;;
    Ok (Seq2seqOut (fst r) (snd r) None).
Definition buckets : list bucket := [(1, 1); (2, 2)]%nat.
Definition encoder_inputs : list unit := [tt; tt].
Definition bucket_outputs : list (list unit) := [[tt]; [tt; tt]].

(** Attention with one head over a source of length two whose second
    position is masked; all features and the projected query are zero. *)
Definition hidden_features : list (list (list vec)) := [[[[0]; [0]]]]%R.
Definition attn_v : list vec := [[1]]%R.
Definition attn_linear : nat -> matrix -> matrix := fun _ _ => [[0]]%R.
Definition src_mask : option matrix := Some [[1; 0]]%R.
Definition attn_query : Attention.query := Attention.QTensor [[0]]%R.
Definition hidden : list (list vec) := [[[3]; [5]]]%R.

(** A latent module with one batch element and two latent units, mean 2 and
    log-variance 0 in both. *)
Definition z_mean : matrix := [[2; 2]]%R.
Definition z_log_var : matrix := [[0; 0]]%R.

(** A call with a latent state handed in; the decoder returns one output. *)
Definition vae_variables : Vae.variables :=
  Vae.Variables [[1; 1]] [0; 0] [[0; 0]] [0; 0] [[1]; [1]] [0]%R.
Definition vae_decoder : unit -> Vae.decoder_state -> bool -> bool -> option Q
                         -> result (list unit) :=
  fun _ _ _ _ _ => Ok [tt].
Definition latent_state : matrix := [[5; 7]]%R.

(** Calls of the attention decoder.  An input is given by its static width,
    if known; the tensors themselves are left out. *)
Definition width_of (inp : option nat) : option nat := inp.
(** The state [7] stands for a tuple with a tensor of rank 3; every other
    state is one tensor. *)
Definition state_ndims (st : nat) : option (list (option nat)) :=
  if Nat.eqb st 7 then Some [Some 2%nat; Some 3%nat] else None.
Definition unit_cell (x : unit) (st : nat) : unit * nat := (tt, S st).
Definition attention_arguments (inputs : list (option nat)) (cell : AttentionDecoder.cell_kind)
    (encoder : string) : AttentionDecoder.arguments (option nat) nat unit unit :=
  AttentionDecoder.Arguments inputs 0%nat (Some 4%nat) (Some 2%nat) cell 1%Z None
    false false encoder false None.
Definition feeding_arguments : AttentionDecoder.arguments (option nat) nat unit unit :=
  AttentionDecoder.Arguments [] 0%nat (Some 4%nat) (Some 2%nat)
    AttentionDecoder.OtherCell 1%Z
    (Some (fun _ _ => Some 3%nat)) false false "reverse" false None.
Definition run_attention_decoder (a : AttentionDecoder.arguments (option nat) nat unit unit)
  : AttentionDecoder.ending (list unit * nat) :=
  AttentionDecoder.attention_decoder width_of (fun _ _ _ => tt) unit_cell
    state_ndims (fun _ => [tt]) (fun _ _ _ => tt) (fun _ _ => tt) (fun o _ => o) tt
    (fun _ => 0%nat) 0%nat a.

End Samples.

(** * Properties *)

(** ** The result monad *)

Lemma bind_ok_inv (A B : Type) (m : result A) (k : A -> result B) (b : B) :
  bind m k = Ok b -> exists a, m = Ok a /\ k a = Ok b.
Proof.
  destruct m as [a|e]; simpl; intros H.
  - exists a; split; [reflexivity | exact H].
  - discriminate.
Qed.

Lemma bind_raise_inv (A B : Type) (m : result A) (k : A -> result B) (e : exn) :
  bind m k = Raise e -> m = Raise e \/ exists a, m = Ok a /\ k a = Raise e.
Proof.
  destruct m as [a|e']; simpl; intros H.
  - right; exists a; split; [reflexivity | exact H].
  - left; congruence.
Qed.

Lemma cond_ok_inv (A : Type) (pred : bool) (fn1 fn2 : unit -> result A) (r : A) :
  cond pred fn1 fn2 = Ok r ->
  exists a b, fn1 tt = Ok a /\ fn2 tt = Ok b /\ r = if pred then a else b.
Proof.
  unfold cond; intros H.
  apply bind_ok_inv in H; destruct H as (a & Ha & H).
  apply bind_ok_inv in H; destruct H as (b & Hb & H).
  inversion H; eauto.
Qed.

Lemma mapM_length (A B : Type) (f : A -> result B) (xs : list A) (ys : list B) :
  mapM f xs = Ok ys -> length ys = length xs.
Proof.
  revert ys; induction xs as [|x xs IH]; simpl; intros ys H.
  - inversion H; reflexivity.
  - destruct (f x) as [y|]; simpl in H; [|discriminate].
    destruct (mapM f xs) as [ys'|]; simpl in H; [|discriminate].
    inversion H; subst; simpl; f_equal; auto.
Qed.

Lemma mapM_raise_inv (A B : Type) (f : A -> result B) (xs : list A) (e : exn) :
  mapM f xs = Raise e -> exists x, In x xs /\ f x = Raise e.
Proof.
  induction xs as [|x xs IH]; simpl; intros H; [discriminate|].
  destruct (f x) as [y|e'] eqn:Hx; simpl in H.
  - destruct (mapM f xs) as [ys|e'']; simpl in H; [discriminate|].
    destruct IH as (x' & Hin & Hx'); [assumption|]. exists x'; auto.
  - exists x; split; [auto | congruence].
Qed.


Lemma mapM_Forall2 (A B : Type) (f : A -> result B) (xs : list A) (ys : list B) :
  mapM f xs = Ok ys -> Forall2 (fun x y => f x = Ok y) xs ys.
Proof.
  revert ys; induction xs as [|x xs IH]; simpl; intros ys H.
  - inversion H; constructor.
  - destruct (f x) as [y|] eqn:Hx; simpl in H; [|discriminate].
    destruct (mapM f xs) as [ys'|]; simpl in H; [|discriminate].
    inversion H; subst; constructor; auto.
Qed.

Lemma Forall2_nth_map (A B C : Type) (P : A -> C -> Prop) (g : B -> C)
    (xs : list A) (ys : list B) (dx : A) (dc : C) :
  Forall2 (fun x y => P x (g y)) xs ys ->
  forall j, j < length xs -> P (nth j xs dx) (nth j (map g ys) dc).
Proof.
  induction 1 as [|x y xs ys Hxy _ IH]; simpl; intros j Hj; [lia|].
  destruct j; [assumption | apply IH; lia].
Qed.

Lemma mapM_ok_all (A B : Type) (f : A -> result B) (xs : list A) :
  (forall x, In x xs -> exists y, f x = Ok y) -> exists ys, mapM f xs = Ok ys.
Proof.
  induction xs as [|x xs IH]; simpl; intros H.
  - eexists; reflexivity.
  - destruct (H x (or_introl eq_refl)) as (y & Hy).
    destruct IH as (ys & Hys); [intros x' Hx'; apply H; auto|].
    rewrite Hy, Hys; simpl; eexists; reflexivity.
Qed.

Lemma Forall2_exists (A B : Type) (P : A -> B -> Prop) (xs : list A) :
  (forall x, exists y, P x y) -> exists ys, Forall2 P xs ys.
Proof.
  intros H; induction xs as [|x xs (ys & IH)].
  - exists []; constructor.
  - destruct (H x) as (y & Hy); exists (y :: ys); constructor; assumption.
Qed.

Lemma Forall_firstn (A : Type) (P : A -> Prop) (n : nat) (xs : list A) :
  Forall P xs -> Forall P (firstn n xs).
Proof.
  intros H; revert n; induction H as [|x xs Hx _ IH]; intros [|n]; simpl;
    constructor; auto.
Qed.

Lemma last_item_last (A : Type) (xs : list A) (x : A) :
  last_item (xs ++ [x]) = Ok x.
Proof. unfold last_item; rewrite rev_app_distr; reflexivity. Qed.

Lemma last_item_ok_inv (A : Type) (xs : list A) (x : A) :
  last_item xs = Ok x -> exists front, xs = front ++ [x].
Proof.
  unfold last_item; intros H.
  destruct (rev xs) as [|y ys] eqn:Hr; [discriminate|].
  inversion H; subst.
  exists (rev ys). rewrite <- (rev_involutive xs), Hr; reflexivity.
Qed.

(** ** Tensors *)

Module TensorFacts.
Import Tensor.
Open Scope R_scope.

Lemma map2_length (A B C : Type) (f : A -> B -> C) (a : list A) (b : list B) :
  length a = length b -> length (map2 f a b) = length a.
Proof.
  revert b; induction a as [|x a IH]; intros [|y b] H; simpl in *; try lia.
  f_equal; apply IH; lia.
Qed.

Lemma map2_nth (f : R -> R -> R) (a b : vec) (j : nat) :
  length a = length b -> (j < length a)%nat ->
  nth j (map2 f a b) 0 = f (nth j a 0) (nth j b 0).
Proof.
  revert b j; induction a as [|x a IH]; intros [|y b] j H Hj; simpl in *; try lia.
  destruct j; [reflexivity | apply IH; lia].
Qed.

Lemma elementwise_ok (f : R -> R -> R) (a b : vec) :
  length a = length b -> elementwise f a b = Ok (map2 f a b).
Proof.
  intros H; unfold elementwise; rewrite H, Nat.eqb_refl; reflexivity.
Qed.

Lemma elementwise_raise (f : R -> R -> R) (a b : vec) (e : exn) :
  elementwise f a b = Raise e -> exists args, e = ValueError incompatible_msg args.
Proof.
  unfold elementwise; destruct (Nat.eqb _ _); intros H; inversion H; eauto.
Qed.

Lemma add_all_ok (B : nat) (ts : list vec) :
  Forall (fun t => length t = B) ts ->
  forall acc, length acc = B ->
  exists r, add_all acc ts = Ok r /\ length r = B /\
            forall b, (b < B)%nat -> nth b r 0 = nth b acc 0 + sum_R (column b ts).
Proof.
  induction 1 as [|t ts Ht Hts IH]; intros acc Hacc; simpl.
  - exists acc; repeat split; auto; intros; lra.
  - unfold add at 1; rewrite elementwise_ok by congruence; simpl.
    destruct (IH (map2 Rplus acc t)) as (r & Hr & Hlen & Hnth).
    { rewrite map2_length; congruence. }
    exists r; repeat split; auto.
    intros b Hb; rewrite (Hnth b Hb), map2_nth by congruence; lra.
Qed.

Lemma add_n_ok (B : nat) (ts : list vec) :
  ts <> [] -> Forall (fun t => length t = B) ts ->
  exists r, add_n ts = Ok r /\ length r = B /\
            forall b, (b < B)%nat -> nth b r 0 = sum_R (column b ts).
Proof.
  destruct ts as [|t ts]; [congruence|]; intros _ H.
  inversion H as [|? ? Ht Hts]; subst.
  destruct (add_all_ok Hts t eq_refl) as (r & Hr & Hlen & Hnth).
  exists r; repeat split; auto.
Qed.

Lemma add_all_raise (ts : list vec) (acc : vec) (e : exn) :
  add_all acc ts = Raise e -> exists args, e = ValueError incompatible_msg args.
Proof.
  revert acc; induction ts as [|t ts IH]; simpl; intros acc H; [discriminate|].
  apply bind_raise_inv in H; destruct H as [H | (a & _ & H)].
  - apply elementwise_raise in H; exact H.
  - eauto.
Qed.

Lemma add_n_raise (ts : list vec) (e : exn) :
  add_n ts = Raise e ->
  e = ValueError add_n_msg [] \/ exists args, e = ValueError incompatible_msg args.
Proof.
  destruct ts as [|t ts]; simpl; intros H.
  - inversion H; auto.
  - right; eapply add_all_raise; eauto.
Qed.

Lemma tensor_messages_differ (msg : string) :
  msg = add_n_msg \/ msg = incompatible_msg ->
  msg <> "Lengths of logits, weights, and targets must be the same %d, %d, %d.".
Proof. intros [H | H]; subst msg; discriminate. Qed.

Lemma tabulate (r : vec) (g : nat -> R) :
  (forall b, (b < length r)%nat -> nth b r 0 = g b) ->
  r = map g (seq 0 (length r)).
Proof.
  intros H; apply nth_ext with (d := 0) (d' := g 0%nat).
  - rewrite length_map, length_seq; reflexivity.
  - intros n Hn; rewrite map_nth, seq_nth by assumption; simpl; auto.
Qed.

End TensorFacts.

(** ** Sequence loss *)

Module SequenceLossFacts.
Import Tensor TensorFacts SequenceLoss.
Open Scope R_scope.

Section Facts.

Variable Logit : Type.
Variable xent : Logit -> target -> result vec.
Variable slf : option (loss_function Logit).

Lemma log_perp_list_ok (B : nat) (logits : list Logit) :
  forall (targets : list target) (weights crossents : list vec),
  length targets = length logits -> length weights = length logits ->
  Forall (fun w => length w = B) weights ->
  crossents_are xent slf B logits targets crossents ->
  mapM (log_perp_step xent slf) (zip3 logits targets weights)
  = Ok (map2 (map2 Rmult) crossents weights).
Proof.
  unfold crossents_are.
  induction logits as [|l ls IH]; intros [|t ts] [|w ws] cs Ht Hw HW HF;
    simpl in *; try discriminate.
  - inversion HF; reflexivity.
  - inversion HF as [|? c ? cs' [Hc Hlc] HF']; subst.
    inversion HW as [|? ? Hlw HW']; subst.
    simpl in Hc; rewrite Hc; simpl.
    unfold mul; rewrite elementwise_ok by congruence; simpl.
    rewrite (IH ts ws cs'); auto.
Qed.

Lemma crossents_length (B : nat) (logits : list Logit) (targets : list target)
    (crossents : list vec) :
  length targets = length logits ->
  crossents_are xent slf B logits targets crossents ->
  length crossents = length logits /\ Forall (fun c => length c = B) crossents.
Proof.
  unfold crossents_are; intros Ht HF; split.
  - apply Forall2_length in HF. rewrite length_combine in HF. lia.
  - clear Ht; induction HF as [|? ? ? ? [_ H]]; constructor; auto.
Qed.

Lemma products_shape (B : nat) (cs : list vec) :
  forall ws : list vec,
  length ws = length cs ->
  Forall (fun c => length c = B) cs -> Forall (fun w => length w = B) ws ->
  Forall (fun p => length p = B) (map2 (map2 Rmult) cs ws)
  /\ forall b, (b < B)%nat ->
       column b (map2 (map2 Rmult) cs ws)
       = map2 Rmult (column b cs) (column b ws).
Proof.
  induction cs as [|c cs IH]; intros [|w ws] Hl Hc Hw; simpl in *; try discriminate.
  - split; [constructor | reflexivity].
  - inversion Hc; inversion Hw; subst.
    destruct (IH ws) as [IH1 IH2]; auto.
    split.
    + constructor; [rewrite map2_length; congruence | assumption].
    + intros b Hb; rewrite IH2 by assumption.
      rewrite map2_nth by congruence; reflexivity.
Qed.

(** After the length check no step raises the error of the length check,
    unless the loss function does. *)
Lemma no_length_error_after_check (logits : list Logit) (targets : list target)
    (weights : list vec) (avg : bool) (args : list nat) :
  (forall logit tgt a, crossent_of xent slf logit tgt <> Raise (ValueError lengths_msg a)) ->
  length targets = length logits -> length weights = length logits ->
  sequence_loss_by_example xent logits targets weights avg slf
  <> Raise (ValueError lengths_msg args).
Proof.
  intros Hloss Ht Hw H; unfold sequence_loss_by_example in H.
  rewrite Ht, Hw, Nat.eqb_refl in H; simpl in H.
  assert (Hmsg : forall m a, ValueError lengths_msg args = ValueError m a ->
                             lengths_msg = m).
  { intros m a E.
    exact (f_equal (fun e => match e with ValueError m' _ => m' | _ => m end) E). }
  assert (Hshape : forall a, ValueError lengths_msg args
                             <> ValueError incompatible_msg a).
  { intros a E; apply Hmsg in E; symmetry in E.
    revert E; apply tensor_messages_differ; auto. }
  assert (Hadd : ValueError lengths_msg args <> ValueError add_n_msg []).
  { intros E; apply Hmsg in E; symmetry in E.
    revert E; apply tensor_messages_differ; auto. }
  apply bind_raise_inv in H; destruct H as [H | (lps & _ & H)].
  { apply mapM_raise_inv in H; destruct H as ([[l t] w] & _ & H).
    simpl in H; apply bind_raise_inv in H; destruct H as [H | (c & _ & H)].
    - exact (Hloss _ _ _ H).
    - apply elementwise_raise in H; destruct H as (a & H); exact (Hshape a H). }
  apply bind_raise_inv in H; destruct H as [H | (lp & _ & H)].
  { apply add_n_raise in H; destruct H as [H | (a & H)];
      [exact (Hadd H) | exact (Hshape a H)]. }
  destruct avg; [|discriminate].
  apply bind_raise_inv in H; destruct H as [H | (ts & _ & H)].
  { apply add_n_raise in H; destruct H as [H | (a & H)];
      [exact (Hadd H) | exact (Hshape a H)]. }
  apply elementwise_raise in H; destruct H as (a & H); exact (Hshape a H).
Qed.

Lemma add_scalar_nth (t : vec) (c : R) (b : nat) :
  (b < length t)%nat -> nth b (add_scalar t c) 0 = nth b t 0 + c.
Proof.
  intros Hb; unfold add_scalar.
  rewrite (nth_indep _ 0 (0 + c)) by (rewrite length_map; assumption).
  apply (map_nth (fun x => x + c)).
Qed.

Lemma sequence_loss_by_example_ok (B : nat) (logits : list Logit)
    (targets : list target) (weights crossents : list vec) (avg : bool) :
  logits <> [] ->
  length targets = length logits -> length weights = length logits ->
  Forall (fun w => length w = B) weights ->
  crossents_are xent slf B logits targets crossents ->
  sequence_loss_by_example xent logits targets weights avg slf
  = Ok (map (fun b => example_loss_at avg b crossents weights) (seq 0 B)).
Proof.
  intros Hne Ht Hw HW HC.
  destruct (crossents_length Ht HC) as [Hlc HFc].
  pose proof (log_perp_list_ok Ht Hw HW HC) as Hlps.
  destruct (@products_shape B crossents weights) as [Hshape Hcol]; auto; [congruence|].
  assert (Hwne : weights <> []).
  { destruct weights; [destruct logits; simpl in *; congruence | discriminate]. }
  assert (Hpne : map2 (map2 Rmult) crossents weights <> []).
  { destruct crossents, weights, logits; simpl in *; congruence. }
  destruct (add_n_ok Hpne Hshape) as (lp & Hlp & Hlplen & Hlpnth).
  destruct (add_n_ok Hwne HW) as (ts & Hts & Htslen & Htsnth).
  unfold sequence_loss_by_example.
  rewrite Ht, Hw, Nat.eqb_refl; simpl.
  rewrite Hlps; simpl. rewrite Hlp; simpl.
  destruct avg.
  - rewrite Hts; simpl.
    assert (Hlen : length lp = length (add_scalar ts 1e-12)).
    { unfold add_scalar; rewrite length_map; congruence. }
    unfold div; rewrite elementwise_ok by assumption. f_equal.
    replace B with (length (map2 Rdiv lp (add_scalar ts 1e-12)))
      by (rewrite map2_length; assumption).
    apply tabulate; intros b Hb.
    rewrite map2_length in Hb by assumption.
    rewrite map2_nth by assumption.
    rewrite add_scalar_nth by lia.
    rewrite Hlpnth, Htsnth, Hcol by lia. reflexivity.
  - f_equal. rewrite <- Hlplen. apply tabulate; intros b Hb.
    rewrite Hlpnth, Hcol by lia. reflexivity.
Qed.

Lemma total_weight_nonneg (b : nat) (weights : list vec) :
  Forall (fun w => 0 <= nth b w 0) weights -> 0 <= total_weight_at b weights.
Proof.
  unfold total_weight_at, column.
  induction 1 as [|w ws Hw _ IH]; simpl; lra.
Qed.

Lemma sequence_loss_ok (B : nat) (logits : list Logit)
    (targets : list target) (weights crossents : list vec) (avg_t avg_b : bool) :
  logits <> [] ->
  length targets = length logits -> length weights = length logits ->
  Forall (fun w => length w = B) weights ->
  Forall (fun t => shape0 t = B) targets ->
  crossents_are xent slf B logits targets crossents ->
  sequence_loss xent logits targets weights avg_t avg_b slf
  = Ok (let total := sum_R (map (fun b => example_loss_at avg_t b crossents weights)
                                (seq 0 B)) in
        if avg_b then total / INR B else total).
Proof.
  intros Hne Ht Hw HW HT HC.
  unfold sequence_loss.
  rewrite (@sequence_loss_by_example_ok B logits targets weights crossents
             avg_t Hne Ht Hw HW HC); simpl.
  destruct avg_b; [|reflexivity].
  destruct targets as [|t0 ts]; [destruct logits; simpl in *; congruence|].
  inversion HT as [|? ? Ht0 _]; simpl; rewrite Ht0; reflexivity.
Qed.

(** C5: [sequence_loss_by_example] raises the [ValueError] of its length
    check whenever [len(logits) != len(targets)] or
    [len(weights) != len(logits)], before anything else is done, and that
    error is raised in no other case unless the loss function raises it.
    Lists of equal lengths do not rule out a [ValueError]: three empty lists
    pass the check and [add_n] of the empty list raises one.  Lists of equal
    lengths that are not empty return when the loss function gives a
    batch-sized tensor at every step and the weights are batch-sized. *)
Theorem sequence_loss_by_example_raises (B : nat) (logits : list Logit)
    (targets : list target) (weights crossents : list vec) (avg : bool) :
  let called := sequence_loss_by_example xent logits targets weights avg slf in
  let mismatch := length logits <> length targets
                  \/ length weights <> length logits in
  (mismatch ->
   called = Raise (ValueError lengths_msg
                     [length logits; length weights; length targets]))
  /\ ((forall logit tgt a,
         crossent_of xent slf logit tgt <> Raise (ValueError lengths_msg a)) ->
      ((exists args, called = Raise (ValueError lengths_msg args)) <-> mismatch))
  /\ (logits = [] -> targets = [] -> weights = [] ->
      called = Raise (ValueError add_n_msg []))
  /\ (~ mismatch -> logits <> [] ->
      Forall (fun w => length w = B) weights ->
      crossents_are xent slf B logits targets crossents ->
      exists per_example, called = Ok per_example /\ length per_example = B).
Proof.
  intros called mismatch; subst called mismatch.
  assert (Hraise : length logits <> length targets \/ length weights <> length logits ->
          sequence_loss_by_example xent logits targets weights avg slf
          = Raise (ValueError lengths_msg
                     [length logits; length weights; length targets])).
  { intros Hm; unfold sequence_loss_by_example.
    destruct (Nat.eqb_spec (length targets) (length logits)) as [E1|N1]; simpl;
      [|reflexivity].
    destruct (Nat.eqb_spec (length weights) (length logits)) as [E2|N2]; simpl;
      [|reflexivity].
    destruct Hm; congruence. }
  split; [exact Hraise|]. split; [|split].
  - intros Hloss; split.
    + intros (args & H).
      destruct (Nat.eq_dec (length logits) (length targets)) as [E1|N1]; [|auto].
      destruct (Nat.eq_dec (length weights) (length logits)) as [E2|N2]; [|auto].
      exfalso; revert H; apply no_length_error_after_check; auto.
    + intros Hm; rewrite (Hraise Hm); eauto.
  - intros Hl Ht Hw; subst; destruct avg; reflexivity.
  - intros Hm Hne HW HC.
    assert (Ht : length targets = length logits).
    { destruct (Nat.eq_dec (length targets) (length logits)); [assumption|].
      exfalso; apply Hm; left; congruence. }
    assert (Hw : length weights = length logits).
    { destruct (Nat.eq_dec (length weights) (length logits)); [assumption|].
      exfalso; apply Hm; right; assumption. }
    rewrite (@sequence_loss_by_example_ok B logits targets weights crossents
               avg Hne Ht Hw HW HC).
    eexists; split; [reflexivity|].
    rewrite length_map, length_seq; reflexivity.
Qed.

(** C4: with one batch-sized cross-entropy tensor per step,
    [sequence_loss_by_example] returns for batch element [b] the sum over the
    steps of cross-entropy times weight, divided by the sum of the weights plus
    [1e-12] when [average_across_timesteps] is set; that divisor is positive
    for weights that are not negative, all-zero weights included;
    [sequence_loss] sums the per-example losses over the batch and divides by
    the batch size when [average_across_batch] is set. *)
Theorem sequence_loss_formula (B : nat) (logits : list Logit)
    (targets : list target) (weights crossents : list vec)
    (average_across_timesteps average_across_batch : bool) :
  logits <> [] ->
  length targets = length logits -> length weights = length logits ->
  Forall (fun w => length w = B) weights ->
  Forall (fun t => shape0 t = B) targets ->
  crossents_are xent slf B logits targets crossents ->
  let per_example :=
    map (fun b => example_loss_at average_across_timesteps b crossents weights)
        (seq 0 B) in
  sequence_loss_by_example xent logits targets weights average_across_timesteps slf
  = Ok per_example
  /\ (forall b, Forall (fun w => 0 <= nth b w 0) weights ->
                0 < total_weight_at b weights + 1e-12)
  /\ sequence_loss xent logits targets weights average_across_timesteps
       average_across_batch slf
     = Ok (if average_across_batch then sum_R per_example / INR B
           else sum_R per_example).
Proof.
  intros Hne Ht Hw HW HT HC per_example.
  pose proof (@sequence_loss_by_example_ok B logits targets weights crossents
                average_across_timesteps Hne Ht Hw HW HC) as Hex.
  fold per_example in Hex.
  split; [exact Hex | split].
  - intros b Hb; pose proof (total_weight_nonneg b Hb); lra.
  - apply sequence_loss_ok; assumption.
Qed.

End Facts.

Lemma sequence_loss_by_example_raises_witness :
  sequence_loss_by_example sample_loss sample_logits [] sample_weights true None
  = Raise (ValueError lengths_msg [2; 2; 0]%nat)
  /\ exists per_example,
       sequence_loss_by_example sample_loss sample_logits sample_targets
         sample_weights true None = Ok per_example
       /\ length per_example = 2%nat.
Proof.
  split.
  - apply (@sequence_loss_by_example_raises unit sample_loss None 2 sample_logits
             [] sample_weights sample_crossents true).
    simpl; left; discriminate.
  - apply (@sequence_loss_by_example_raises unit sample_loss None 2 sample_logits
             sample_targets sample_weights sample_crossents true).
    + simpl; intros [H | H]; apply H; reflexivity.
    + discriminate.
    + repeat constructor.
    + repeat constructor.
Defined.

(** Three empty lists have equal lengths, and the call raises a
    [ValueError]: the one of [add_n] of the empty list of log-perplexities. *)
Lemma equal_lengths_still_raise_value_error :
  sequence_loss_by_example sample_loss [] [] [] true None
  = Raise (ValueError add_n_msg [])
  /\ ~ ((exists msg args,
           sequence_loss_by_example sample_loss [] [] [] true None
           = Raise (ValueError msg args))
        <-> (length (@nil unit) <> length (@nil target)
             \/ length (@nil vec) <> length (@nil unit))).
Proof.
  split; [reflexivity|].
  intros [H _].
  destruct H as [H | H]; [| apply H; reflexivity | apply H; reflexivity].
  exists add_n_msg, []; reflexivity.
Qed.

Lemma sequence_loss_formula_witness :
  let per_example :=
    map (fun b => example_loss_at true b sample_crossents sample_weights)
        (seq 0 2) in
  sequence_loss_by_example sample_loss sample_logits sample_targets
    sample_weights true None = Ok per_example
  /\ (forall b, Forall (fun w => 0 <= nth b w 0) sample_weights ->
                0 < total_weight_at b sample_weights + 1e-12)
  /\ sequence_loss sample_loss sample_logits sample_targets sample_weights
       true true None
     = Ok (sum_R per_example / INR 2).
Proof.
  apply (@sequence_loss_formula unit sample_loss None 2 sample_logits
           sample_targets sample_weights sample_crossents true true).
  - discriminate.
  - reflexivity.
  - reflexivity.
  - repeat constructor.
  - repeat constructor.
  - repeat constructor.
Defined.

End SequenceLossFacts.

(** ** Bucketed assembly *)

Module BucketsFacts.
Import Tensor TensorFacts SequenceLoss SequenceLossFacts Buckets.
Open Scope R_scope.

Section Facts.

Variables EncInp DecInp Logit State EncStates Prob : Type.
Variable xent : Logit -> target -> result vec.

Lemma sequence_loss_by_example_ok_lengths (logits : list Logit)
    (targets : list target) (weights : list vec) (avg : bool)
    (slf : option (loss_function Logit)) (r : vec) :
  sequence_loss_by_example xent logits targets weights avg slf = Ok r ->
  length targets = length logits /\ length weights = length logits.
Proof.
  unfold sequence_loss_by_example.
  destruct (Nat.eqb_spec (length targets) (length logits)); simpl; [|discriminate].
  destruct (Nat.eqb_spec (length weights) (length logits)); simpl; [|discriminate].
  auto.
Qed.

Lemma sequence_loss_ok_lengths (logits : list Logit)
    (targets : list target) (weights : list vec) (avg_t avg_b : bool)
    (slf : option (loss_function Logit)) (c : R) :
  sequence_loss xent logits targets weights avg_t avg_b slf = Ok c ->
  length targets = length logits /\ length weights = length logits.
Proof.
  unfold sequence_loss; intros H.
  apply bind_ok_inv in H; destruct H as (r & H & _).
  eapply sequence_loss_by_example_ok_lengths; eauto.
Qed.

(** A bucket that was run without an exception: the model's outputs are as
    many as the targets kept for the bucket. *)
Lemma run_bucket_ok_length (encoder_inputs : list EncInp)
    (decoder_inputs : list DecInp) (targets : list target) (weights : list vec)
    (seq2seq : seq2seq_fn EncInp DecInp Logit State EncStates Prob)
    (slf : option (loss_function Logit)) (per_example_loss : bool)
    (encoder_states : option EncStates) (feed_prev_p : option Prob) (b : bucket)
    (outs : list Logit) (l : bucket_loss) (st : State) :
  run_bucket xent encoder_inputs decoder_inputs targets weights seq2seq slf
    per_example_loss encoder_states feed_prev_p b = Ok (outs, l, st) ->
  length outs = Nat.min (snd b) (length targets)
  /\ exists out, seq2seq (firstn (fst b) encoder_inputs) (firstn (snd b) decoder_inputs)
                   (fst b) encoder_states feed_prev_p = Ok out
                 /\ outs = out_outputs out.
Proof.
  unfold run_bucket; intros H.
  apply bind_ok_inv in H; destruct H as (out & Hout & H).
  apply bind_ok_inv in H; destruct H as (loss & Hloss & H).
  assert (Hlen : length (firstn (snd b) targets) = length (out_outputs out)).
  { destruct per_example_loss.
    - apply bind_ok_inv in Hloss; destruct Hloss as (r & Hr & _).
      apply sequence_loss_by_example_ok_lengths in Hr; tauto.
    - apply bind_ok_inv in Hloss; destruct Hloss as (r & Hr & _).
      apply sequence_loss_ok_lengths in Hr; tauto. }
  rewrite length_firstn in Hlen.
  assert (Houts : outs = out_outputs out).
  { destruct (out_kl out).
    - apply bind_ok_inv in H; destruct H as (s & _ & H); inversion H; reflexivity.
    - inversion H; reflexivity. }
  split; [congruence | exists out; auto].
Qed.


(** A bucket within the lengths of the inputs runs without an exception
    for a model that returns one output per decoder input, batch-sized
    weights and targets, and a loss function that returns a batch-sized
    tensor. *)
Lemma run_bucket_returns (B : nat) (encoder_inputs : list EncInp)
    (decoder_inputs : list DecInp) (targets : list target) (weights : list vec)
    (seq2seq : seq2seq_fn EncInp DecInp Logit State EncStates Prob)
    (slf : option (loss_function Logit)) (per_example_loss : bool)
    (encoder_states : option EncStates) (feed_prev_p : option Prob) (b : bucket) :
  (forall e d n s p, exists out,
      seq2seq e d n s p = Ok out /\ length (out_outputs out) = length d) ->
  (forall logit tgt, exists c,
      crossent_of xent slf logit tgt = Ok c /\ length c = B) ->
  Forall (fun w => length w = B) weights ->
  Forall (fun t => shape0 t = B) targets ->
  (1 <= snd b)%nat -> (snd b <= length decoder_inputs)%nat ->
  (snd b <= length targets)%nat -> (snd b <= length weights)%nat ->
  exists r, run_bucket xent encoder_inputs decoder_inputs targets weights seq2seq
              slf per_example_loss encoder_states feed_prev_p b = Ok r.
Proof.
  intros Hmodel Hloss HW HT H1 Hd Ht Hw.
  unfold run_bucket.
  destruct (Hmodel (firstn (fst b) encoder_inputs) (firstn (snd b) decoder_inputs)
              (fst b) encoder_states feed_prev_p) as (out & Hout & Hlen).
  rewrite Hout; simpl.
  rewrite length_firstn in Hlen.
  assert (Hne : out_outputs out <> []).
  { destruct (out_outputs out); simpl in *; [lia | discriminate]. }
  assert (Hlt : length (firstn (snd b) targets) = length (out_outputs out)).
  { rewrite length_firstn; lia. }
  assert (Hlw : length (firstn (snd b) weights) = length (out_outputs out)).
  { rewrite length_firstn; lia. }
  destruct (@Forall2_exists _ _
              (fun lt c => crossent_of xent slf (fst lt) (snd lt) = Ok c
                           /\ length c = B)
              (combine (out_outputs out) (firstn (snd b) targets)))
    as (cs & Hcs); [intros [l t]; apply Hloss|].
  pose proof (@sequence_loss_by_example_ok Logit xent slf B (out_outputs out)
                (firstn (snd b) targets) (firstn (snd b) weights) cs true
                Hne Hlt Hlw (Forall_firstn _ HW) Hcs) as Hex.
  pose proof (@sequence_loss_ok Logit xent slf B (out_outputs out)
                (firstn (snd b) targets) (firstn (snd b) weights) cs true true
                Hne Hlt Hlw (Forall_firstn _ HW) (Forall_firstn _ HT) Hcs) as Hsl.
  assert (Hwne : firstn (snd b) weights <> []).
  { destruct (firstn (snd b) weights); simpl in *; [lia | discriminate]. }
  destruct (add_n_ok Hwne (Forall_firstn (snd b) HW)) as (s & Hs & _).
  destruct per_example_loss.
  - rewrite Hex; simpl.
    destruct (out_kl out); [rewrite Hs; simpl|]; eexists; reflexivity.
  - rewrite Hsl; simpl.
    destruct (out_kl out); [rewrite Hs; simpl|]; eexists; reflexivity.
Qed.

(** [model_with_buckets] returns when the inputs are at least as long as
    every bucket asks for. *)
Lemma model_with_buckets_returns (B : nat) (encoder_inputs : list EncInp)
    (decoder_inputs : list DecInp) (targets : list target) (weights : list vec)
    (front : list bucket) (last_bucket : bucket)
    (seq2seq : seq2seq_fn EncInp DecInp Logit State EncStates Prob)
    (slf : option (loss_function Logit)) (per_example_loss : bool) :
  (forall e d n s p, exists out,
      seq2seq e d n s p = Ok out /\ length (out_outputs out) = length d) ->
  (forall logit tgt, exists c,
      crossent_of xent slf logit tgt = Ok c /\ length c = B) ->
  Forall (fun w => length w = B) weights ->
  Forall (fun t => shape0 t = B) targets ->
  Forall (fun b => (1 <= snd b <= snd last_bucket)%nat) (front ++ [last_bucket]) ->
  (fst last_bucket <= length encoder_inputs)%nat ->
  (snd last_bucket <= length decoder_inputs)%nat ->
  (snd last_bucket <= length targets)%nat ->
  (snd last_bucket <= length weights)%nat ->
  exists outputs losses,
    model_with_buckets xent encoder_inputs decoder_inputs targets weights
      (front ++ [last_bucket]) seq2seq slf per_example_loss
    = Ok (outputs, losses).
Proof.
  intros Hmodel Hloss HW HT Hb He Hd Ht Hw.
  unfold model_with_buckets, model_with_buckets_states.
  rewrite last_item_last; simpl.
  destruct (Nat.ltb_spec (length encoder_inputs) (fst last_bucket)); [lia|].
  destruct (Nat.ltb_spec (length targets) (snd last_bucket)); [lia|].
  destruct (Nat.ltb_spec (length weights) (snd last_bucket)); [lia|].
  destruct (@mapM_ok_all _ _
              (run_bucket xent encoder_inputs decoder_inputs targets weights
                 seq2seq slf per_example_loss None None)
              (front ++ [last_bucket])) as (per_bucket & Hrun).
  { intros b Hin. rewrite Forall_forall in Hb. specialize (Hb b Hin).
    eapply run_bucket_returns; eauto; lia. }
  rewrite Hrun; simpl. do 2 eexists; reflexivity.
Qed.

(** C10: the checks at entry compare [len(encoder_inputs)], [len(targets)]
    and [len(weights)] with the last bucket and raise [ValueError]; when the
    three hold the call goes on to the loop over the buckets, whatever the
    length of [decoder_inputs]. *)
Theorem model_with_buckets_states_entry_checks (encoder_inputs : list EncInp)
    (decoder_inputs : list DecInp) (targets : list target) (weights : list vec)
    (front : list bucket) (last_bucket : bucket)
    (seq2seq : seq2seq_fn EncInp DecInp Logit State EncStates Prob)
    (slf : option (loss_function Logit)) (per_example_loss : bool)
    (encoder_states : option EncStates) (feed_prev_p : option Prob) :
  let buckets := front ++ [last_bucket] in
  let called := model_with_buckets_states xent encoder_inputs decoder_inputs
                  targets weights buckets seq2seq slf per_example_loss
                  encoder_states feed_prev_p in
  ((length encoder_inputs < fst last_bucket)%nat ->
   called = Raise (ValueError encoder_inputs_msg
                     [length encoder_inputs; fst last_bucket]))
  /\ ((fst last_bucket <= length encoder_inputs)%nat ->
      (length targets < snd last_bucket)%nat ->
      called = Raise (ValueError targets_msg [length targets; snd last_bucket]))
  /\ ((fst last_bucket <= length encoder_inputs)%nat ->
      (snd last_bucket <= length targets)%nat ->
      (length weights < snd last_bucket)%nat ->
      called = Raise (ValueError weights_msg [length weights; snd last_bucket]))
  /\ ((fst last_bucket <= length encoder_inputs)%nat ->
      (snd last_bucket <= length targets)%nat ->
      (snd last_bucket <= length weights)%nat ->
      called =
      (per_bucket <- mapM (run_bucket xent encoder_inputs decoder_inputs targets
                             weights seq2seq slf per_example_loss encoder_states
                             feed_prev_p) buckets ;;
       Ok (map (fun t => fst (fst t)) per_bucket,
           map (fun t => snd (fst t)) per_bucket,
           map snd per_bucket))).
Proof.
  intros buckets called; unfold called, model_with_buckets_states, buckets.
  rewrite last_item_last; simpl.
  repeat split; intros;
    repeat match goal with
           | |- context [(?a <? ?b)%nat] => destruct (Nat.ltb_spec a b); try lia
           end; reflexivity.
Qed.

(** C7: when [model_with_buckets] returns, it returns one output sequence per
    bucket and the sequence of bucket [j] has length [buckets[j][1]]; the
    model produces one output per decoder input and the last bucket is the
    largest one. *)
Theorem model_with_buckets_output_lengths (encoder_inputs : list EncInp)
    (decoder_inputs : list DecInp) (targets : list target) (weights : list vec)
    (buckets : list bucket)
    (seq2seq : seq2seq_fn EncInp DecInp Logit State EncStates Prob)
    (slf : option (loss_function Logit)) (per_example_loss : bool)
    (outputs : list (list Logit)) (losses : list bucket_loss) :
  (forall e d n s p out, seq2seq e d n s p = Ok out ->
                         length (out_outputs out) = length d) ->
  (forall b, In b buckets -> (snd b <= snd (last buckets (0, 0)))%nat) ->
  model_with_buckets xent encoder_inputs decoder_inputs targets weights buckets
    seq2seq slf per_example_loss = Ok (outputs, losses) ->
  length outputs = length buckets
  /\ forall j, (j < length buckets)%nat ->
       length (nth j outputs []) = snd (nth j buckets (0, 0)%nat)
       /\ (snd (nth j buckets (0, 0)%nat) <= length decoder_inputs)%nat.
Proof.
  intros Hone Hlargest H.
  unfold model_with_buckets in H.
  apply bind_ok_inv in H; destruct H as ([[outs ls] sts] & H & Hret).
  inversion Hret; subst outs ls; clear Hret.
  unfold model_with_buckets_states in H.
  apply bind_ok_inv in H; destruct H as (lastb & Hlast & H).
  destruct (Nat.ltb_spec (length encoder_inputs) (fst lastb)); [discriminate|].
  destruct (Nat.ltb_spec (length targets) (snd lastb)); [discriminate|].
  destruct (Nat.ltb_spec (length weights) (snd lastb)); [discriminate|].
  apply bind_ok_inv in H; destruct H as (per_bucket & Hmap & Hret).
  inversion Hret; subst; clear Hret.
  pose proof (mapM_length _ _ Hmap) as Hlen.
  split; [rewrite length_map; exact Hlen|].
  destruct (last_item_ok_inv _ Hlast) as (front & Hfront).
  assert (Hall : Forall (fun b => (snd b <= length targets)%nat) buckets).
  { apply Forall_forall; intros b Hb; specialize (Hlargest b Hb).
    rewrite Hfront, last_last in Hlargest; lia. }
  apply mapM_Forall2 in Hmap.
  intros j Hj.
  apply (@Forall2_nth_map _ _ _
           (fun (b : bucket) (outs : list Logit) =>
              length outs = snd b /\ (snd b <= length decoder_inputs)%nat)
           (fun t => fst (fst t)) buckets per_bucket); [|exact Hj].
  clear j Hj Hlen Hfront Hlargest Hlast.
  induction Hmap as [|b [[outs l] st] bs ts Hrun _ IH]; constructor.
  - inversion Hall as [|? ? Hb _]; subst; simpl.
    apply run_bucket_ok_length in Hrun.
    destruct Hrun as (Hlen & out & Hout & Houts).
    apply Hone in Hout. rewrite length_firstn in Hout. subst outs. lia.
  - apply IH; inversion Hall; assumption.
Qed.

End Facts.

End BucketsFacts.

(** ** The decoder loop *)

Module RnnDecoderFacts.
Import RnnDecoder.
Open Scope Q_scope.

Section Facts.

Variables Inp Out State : Type.
Variable cell : Inp -> State -> Out * State.

Lemma inner_loop_some (f : loop_fn Inp Out) (prev : option Out) (inp : Inp)
    (i : nat) (feed_prev : bool) :
  inner_loop (Some f) prev inp i feed_prev
  = Ok (match feed_prev, prev with
        | true, Some p => f p i
        | _, _ => inp
        end).
Proof. destruct feed_prev, prev; reflexivity. Qed.

(** Step 0 has no previous output: the input is the one supplied. *)
Lemma step_input_first (f : loop_fn Inp Out) (feed_prev_p : option Q) (rv : Q)
    (inp : Inp) (i : nat) :
  step_input (Some f) feed_prev_p rv None inp i = Ok inp.
Proof.
  destruct feed_prev_p as [p|]; simpl; [|reflexivity].
  unfold cond; simpl; destruct (less rv p); reflexivity.
Qed.

(** Without scheduled sampling a loop function is applied at every step that
    has a previous output. *)
Lemma step_input_feed_previous (f : loop_fn Inp Out) (rv : Q) (prev : Out)
    (inp : Inp) (i : nat) :
  step_input (Some f) None rv (Some prev) inp i = Ok (f prev i).
Proof. reflexivity. Qed.

(** With scheduled sampling and a previous output, the input of the step is
    the supplied input when the draw is below [feed_prev_p], and the loop
    function of the previous output otherwise. *)
Lemma step_input_sampled (f : loop_fn Inp Out) (p rv : Q)
    (prev : Out) (inp : Inp) (i : nat) :
  step_input (Some f) (Some p) rv (Some prev) inp i
  = Ok (if less rv p then inp else f prev i).
Proof.
  unfold step_input, cond; simpl; destruct (less rv p); reflexivity.
Qed.

Lemma decode_lengths (loop_function : option (loop_fn Inp Out))
    (feed_prev_p : option Q) (rvs : nat -> Q) (inputs : list Inp) :
  forall (i : nat) (st : State) (prev : option Out) (r : run Inp Out State),
  decode cell loop_function feed_prev_p rvs i inputs st prev = Ok r ->
  length (outputs r) = length inputs /\ length (fed r) = length inputs.
Proof.
  induction inputs as [|inp rest IH]; simpl; intros i st prev r H.
  - inversion H; subst; auto.
  - apply bind_ok_inv in H; destruct H as (inp' & _ & H).
    destruct (cell inp' st) as [output st'].
    apply bind_ok_inv in H; destruct H as (r' & Hr' & H).
    inversion H; subst; simpl.
    destruct (IH _ _ _ _ Hr'); split; f_equal; assumption.
Qed.

(** [rnn_decoder] returns one output per decoder input. *)
Lemma rnn_decoder_outputs_length (decoder_inputs : list Inp) (initial_state : State)
    (loop_function : option (loop_fn Inp Out)) (feed_prev_p : option Q)
    (rvs : nat -> Q) (outs : list Out) (st : State) :
  rnn_decoder cell decoder_inputs initial_state loop_function feed_prev_p rvs
  = Ok (outs, st) ->
  length outs = length decoder_inputs.
Proof.
  unfold rnn_decoder, rnn_decoder_run; intros H.
  apply bind_ok_inv in H; destruct H as (r & Hr & H).
  inversion H; subst. apply (decode_lengths _ _ _ _ _ _ _ Hr).
Qed.

(** With every draw below [feed_prev_p] the decoder is fed the supplied
    inputs only: plain teacher forcing. *)
Lemma decode_draws_below (f : loop_fn Inp Out) (p : Q) (rvs : nat -> Q)
    (inputs : list Inp) :
  (forall i, less (rvs i) p = true) ->
  forall (i : nat) (st : State) (prev : option Out),
  exists r, decode cell (Some f) (Some p) rvs i inputs st prev = Ok r
            /\ fed r = inputs.
Proof.
  intros Hrv; induction inputs as [|inp rest IH]; intros i st prev;
    cbn -[step_input].
  - eexists; split; reflexivity.
  - assert (Hin : step_input (Some f) (Some p) (rvs i) prev inp i = Ok inp).
    { destruct prev as [o|].
      - rewrite step_input_sampled, Hrv; reflexivity.
      - apply step_input_first. }
    rewrite Hin; simpl.
    destruct (cell inp st) as [output st'].
    destruct (IH (S i) st' (Some output)) as (r & Hr & Hfed).
    rewrite Hr; simpl. eexists; split; [reflexivity|]. simpl; congruence.
Qed.

End Facts.

(** The sample run with [feed_prev_p = 1] and every draw [1/2]: the decoder
    is fed the embeddings of the supplied tokens 0, 1, 1, although the
    previous output always has its maximum at symbol 2, whose embedding is
    [3]. *)
Example feed_prev_p_one_feeds_ground_truth :
  exists r,
    embedding_rnn_decoder_run Samples.scoring_cell Samples.embedding
      Samples.decoder_inputs 0%nat None false true (Some 1) Samples.half = Ok r
    /\ fed r = map (embedding_lookup Samples.embedding) Samples.decoder_inputs
    /\ fed r = [[[1]]; [[2]]; [[2]]]
    /\ map (fun prev => _extract_argmax_and_embed Samples.embedding None true prev 0)
           (outputs r)
       = [[[3]]; [[3]]; [[3]]].
Proof. eexists; repeat split. Qed.

(** C1: in a step with scheduled sampling and a previous output, the code
    feeds the supplied ground-truth input when the draw is below
    [feed_prev_p] and the embedding of the previous argmax otherwise, the
    other way round than stated; with [feed_prev_p = 1] the sample run is fed
    the supplied tokens at every step. *)
Theorem step_input_scheduled_sampling :
  (forall (Inp Out : Type) (f : loop_fn Inp Out) (p rv : Q) (prev : Out)
          (inp : Inp) (i : nat),
      step_input (Some f) (Some p) rv (Some prev) inp i
      = Ok (if less rv p then inp else f prev i))
  /\ exists r,
       embedding_rnn_decoder_run Samples.scoring_cell Samples.embedding
         Samples.decoder_inputs 0%nat None false true (Some 1) Samples.half = Ok r
       /\ fed r = map (embedding_lookup Samples.embedding) Samples.decoder_inputs
       /\ fed r = [[[1]]; [[2]]; [[2]]]
       /\ map (fun prev => _extract_argmax_and_embed Samples.embedding None true prev 0)
              (outputs r)
          = [[[3]]; [[3]]; [[3]]].
Proof.
  split; [intros; apply step_input_sampled | exact feed_prev_p_one_feeds_ground_truth].
Qed.

(** The same run with [feed_prev_p = 0]: every step after the first is fed
    the embedding of the previous argmax. *)
Example feed_prev_p_zero_feeds_previous :
  exists r,
    embedding_rnn_decoder_run Samples.scoring_cell Samples.embedding
      Samples.decoder_inputs 0%nat None false true (Some 0) Samples.half = Ok r
    /\ fed r = [[[1]]; [[3]]; [[3]]].
Proof. eexists; repeat split. Qed.

End RnnDecoderFacts.

(** ** Bucketed assembly: sample runs *)

Module BucketsRuns.
Import Tensor SequenceLoss Buckets BucketsFacts.
Open Scope R_scope.

Lemma sample_seq2seq_one_output_per_input
    (e d : list unit) (n : nat) (s : option unit) (p : option Q)
    (out : seq2seq_out unit nat) :
  Samples.seq2seq e d n s p = Ok out -> length (out_outputs out) = length d.
Proof.
  unfold Samples.seq2seq; intros H.
  apply bind_ok_inv in H; destruct H as ([outs st] & Hr & H).
  inversion H; subst; simpl.
  eapply RnnDecoderFacts.rnn_decoder_outputs_length; eauto.
Qed.

(** Decoder inputs shorter than the last bucket pass the entry checks; the
    exception comes later, from the length check of the loss. *)
Lemma model_with_buckets_states_entry_checks_witness :
  model_with_buckets_states sample_loss Samples.encoder_inputs [] sample_targets
    sample_weights ([] ++ [(2, 2)%nat]) Samples.seq2seq None false None None
  = Raise (ValueError lengths_msg [0; 2; 2]%nat).
Proof.
  pose proof (@model_with_buckets_states_entry_checks unit unit unit nat unit Q
                sample_loss Samples.encoder_inputs [] sample_targets sample_weights
                [] (2, 2)%nat Samples.seq2seq None false None None) as H.
  cbv zeta in H; destruct H as (_ & _ & _ & H).
  etransitivity; [apply H; simpl; lia | reflexivity].
Defined.

Lemma model_with_buckets_output_lengths_witness :
  length Samples.bucket_outputs = length Samples.buckets
  /\ forall j, (j < length Samples.buckets)%nat ->
       length (nth j Samples.bucket_outputs []) = snd (nth j Samples.buckets (0, 0)%nat)
       /\ (snd (nth j Samples.buckets (0, 0)%nat) <= length Samples.encoder_inputs)%nat.
Proof.
  eapply (@model_with_buckets_output_lengths unit unit unit nat unit Q sample_loss
            Samples.encoder_inputs Samples.encoder_inputs sample_targets
            sample_weights Samples.buckets Samples.seq2seq None false
            Samples.bucket_outputs).
  - apply sample_seq2seq_one_output_per_input.
  - intros b [Hb | [Hb | []]]; subst b; simpl; lia.
  - reflexivity.
Defined.

End BucketsRuns.

(** ** Attention *)

Module AttentionFacts.
Import Tensor Attention.
Open Scope R_scope.

Lemma sum_exp_pos (s : vec) : s <> [] -> 0 < sum_R (map exp s).
Proof.
  destruct s as [|x s]; [congruence|]; intros _; simpl.
  assert (H : 0 <= sum_R (map exp s)).
  { induction s as [|y s IH]; simpl; [lra|]. pose proof (exp_pos y); lra. }
  pose proof (exp_pos x); lra.
Qed.

Lemma sum_R_map_div (f : R -> R) (z : R) (s : vec) :
  sum_R (map (fun x => f x / z) s) = sum_R (map f s) / z.
Proof.
  induction s as [|x s IH]; simpl; [unfold Rdiv; ring|].
  rewrite IH; unfold Rdiv; ring.
Qed.

(** A softmax over a non-empty row sums to one. *)
Lemma softmax_row_sum (s : vec) : s <> [] -> sum_R (softmax_row s) = 1.
Proof.
  intros Hs; unfold softmax_row; rewrite sum_R_map_div.
  pose proof (sum_exp_pos Hs). field; lra.
Qed.

(** Every value of a softmax is positive. *)
Lemma softmax_row_pos (s : vec) : Forall (fun a => 0 < a) (softmax_row s).
Proof.
  unfold softmax_row; apply Forall_forall; intros a Ha.
  apply in_map_iff in Ha; destruct Ha as (x & <- & Hx).
  assert (Hs : s <> []) by (destruct s; [contradiction | discriminate]).
  apply Rdiv_lt_0_compat; [apply exp_pos | apply sum_exp_pos; assumption].
Qed.

Lemma softmax_row_nonempty (s : vec) : softmax_row s <> [] -> s <> [].
Proof. unfold softmax_row; destruct s; simpl; congruence. Qed.

(** Every row of the attention mask of a head (one row per batch element,
    one weight per source position) sums to one, and every weight in it is
    positive, whatever [src_mask] is: the mask multiplies the scores before
    the softmax, so a masked position has score 0 and weight [exp 0 / sum]. *)
Lemma attention_mask_normalized_positive (hidden_features : list (list (list vec)))
    (v : list vec) (linear : nat -> matrix -> matrix) (src_mask : option matrix)
    (i : nat) (q : query) :
  Forall (fun a_b => (a_b <> [] -> sum_R a_b = 1) /\ Forall (fun a => 0 < a) a_b)
         (attention_mask hidden_features v linear src_mask i q).
Proof.
  unfold attention_mask, softmax; apply Forall_forall; intros a_b Ha.
  apply in_map_iff in Ha; destruct Ha as (s & <- & _); split.
  - intros Hne; apply softmax_row_sum, softmax_row_nonempty, Hne.
  - apply softmax_row_pos.
Qed.

Lemma tanh_0 : tanh 0 = 0.
Proof. unfold tanh; rewrite sinh_0; unfold Rdiv; ring. Qed.

(** The sample: the second source position is masked and still gets half of
    the attention. *)
Example masked_position_gets_weight :
  attention_mask Samples.hidden_features Samples.attn_v Samples.attn_linear
    Samples.src_mask 0 Samples.attn_query = [[1 / 2; 1 / 2]].
Proof.
  unfold attention_mask, softmax, softmax_row; simpl.
  replace (0 + 0) with 0 by ring. rewrite tanh_0.
  replace ((1 * 0 + 0) * 1) with 0 by ring.
  replace ((1 * 0 + 0) * 0) with 0 by ring.
  rewrite exp_0. repeat f_equal; field.
Qed.

(** C2: the rows of the attention mask of every head sum to one along the
    source axis, for every batch element; but the weight of a position where
    [src_mask] is zero is positive, not zero: in the sample the masked second
    position gets the weight 1/2. *)
Theorem attention_mask_rows :
  (forall (hidden_features : list (list (list vec))) (v : list vec)
          (linear : nat -> matrix -> matrix) (src_mask : option matrix)
          (i : nat) (q : query),
      Forall (fun a_b => (a_b <> [] -> sum_R a_b = 1) /\ Forall (fun a => 0 < a) a_b)
             (attention_mask hidden_features v linear src_mask i q))
  /\ Samples.src_mask = Some [[1; 0]]
  /\ attention_mask Samples.hidden_features Samples.attn_v Samples.attn_linear
       Samples.src_mask 0 Samples.attn_query = [[1 / 2; 1 / 2]].
Proof.
  split; [intros; apply attention_mask_normalized_positive|].
  split; [reflexivity | exact masked_position_gets_weight].
Qed.

End AttentionFacts.

(** ** The latent variable *)

Module VaeFacts.
Import Tensor TensorFacts Vae.
Open Scope R_scope.

(** C8: every entry of [kl_loss] is non-negative, for all real [mean] and
    [log_var]. *)
Theorem kl_unit_nonneg :
  (forall mean log_var : R, 0 <= kl_unit mean log_var)
  /\ forall z_mean z_log_var : matrix,
       Forall (Forall (fun k => 0 <= k)) (kl_loss_of z_mean z_log_var).
Proof.
  assert (H : forall mean log_var : R, 0 <= kl_unit mean log_var).
  { intros mean log_var; unfold kl_unit.
    pose proof (exp_ineq1_le log_var); pose proof (Rle_0_sqr mean); lra. }
  split; [exact H|].
  unfold kl_loss_of, mmap2.
  induction z_mean as [|r rs IH]; intros [|r' rs']; simpl; constructor; auto.
  clear IH; revert r'; induction r as [|m r IH]; intros [|lv r']; simpl;
    constructor; auto.
Qed.

Lemma sum_rows (L : nat) (rows : list vec) :
  Forall (fun r => length r = L) rows ->
  forall acc, length acc = L ->
  length (fold_left (map2 Rplus) rows acc) = L
  /\ forall j, (j < L)%nat ->
       nth j (fold_left (map2 Rplus) rows acc) 0 = nth j acc 0 + sum_R (col j rows).
Proof.
  induction 1 as [|r rows Hr _ IH]; intros acc Hacc; simpl.
  - split; [assumption | intros; lra].
  - destruct (IH (map2 Rplus acc r)) as [Hlen Hnth].
    { rewrite map2_length; congruence. }
    split; [assumption|].
    intros j Hj; rewrite (Hnth j Hj), map2_nth by congruence; lra.
Qed.

(** The mean over the batch, column by column. *)
Lemma reduce_mean_0_columns (L : nat) (m : matrix) :
  m <> [] -> Forall (fun r => length r = L) m ->
  reduce_mean_0 m = map (fun j => sum_R (col j m) / INR (length m)) (seq 0 L).
Proof.
  destruct m as [|row rows]; [congruence|]; intros _ H.
  inversion H as [|? ? Hrow Hrows]; subst.
  destruct (sum_rows Hrows row eq_refl) as [Hlen Hnth].
  unfold reduce_mean_0.
  set (n := INR (length (row :: rows))).
  set (total := fold_left (map2 Rplus) rows row) in *.
  replace (length row) with (length (map (fun x => x / n) total))
    by (rewrite length_map; assumption).
  apply tabulate; intros j Hj. rewrite length_map in Hj.
  rewrite (nth_indep _ 0 (0 / n)) by (rewrite length_map; assumption).
  rewrite (map_nth (fun x => x / n)).
  rewrite Hnth by lia. reflexivity.
Qed.

(** C3, as amended: [kl_obj] is the mean of the per-unit KL values across the
    batch (axis 0), one value per latent unit, each floored at [kl_min] when
    [kl_min > 0], summed over the latent units and multiplied by the
    annealing coefficient when one is given. *)
Theorem kl_obj_of_batch_mean (L : nat) (kl_loss : matrix) (kl_min : R)
    (anneal_scale : option R) :
  kl_loss <> [] -> Forall (fun r => length r = L) kl_loss ->
  kl_obj_of kl_loss kl_min anneal_scale
  = let unit_mean := fun j => sum_R (col j kl_loss) / INR (length kl_loss) in
    let floored := fun j => if Rlt_dec 0 kl_min then Rmax (unit_mean j) kl_min
                            else unit_mean j in
    let total := sum_R (map floored (seq 0 L)) in
    match anneal_scale with
    | Some a => a * total
    | None => total
    end.
Proof.
  intros Hne Hrect; unfold kl_obj_of.
  rewrite (reduce_mean_0_columns Hne Hrect); cbv zeta.
  destruct (Rlt_dec 0 kl_min); unfold reduce_sum, maximum;
    rewrite ?map_map; reflexivity.
Qed.

Lemma kl_unit_2_0 : kl_unit 2 0 = 2.
Proof. unfold kl_unit, Rsqr; rewrite exp_0; lra. Qed.

Lemma kl_obj_of_batch_mean_witness :
  kl_obj_of [[2; 2]] 1 (Some (1 / 2)) = 2.
Proof.
  rewrite (@kl_obj_of_batch_mean 2 [[2; 2]] 1 (Some (1 / 2)));
    [| discriminate | repeat constructor].
  cbv zeta; simpl.
  destruct (Rlt_dec 0 1) as [_|H]; [|exfalso; apply H; lra].
  rewrite Rmax_left by lra. lra.
Defined.

(** C3, as stated, fails: for one batch element with two latent units of KL
    value 2 the code returns 4, the sum over the units of the batch means;
    the mean across the latent dimension summed over the batch is 2. *)
Lemma kl_obj_is_not_mean_over_latent :
  kl_obj_of (kl_loss_of Samples.z_mean Samples.z_log_var) 0 None = 4
  /\ kl_obj_as_specified (kl_loss_of Samples.z_mean Samples.z_log_var) 0 None = 2
  /\ kl_obj_of (kl_loss_of Samples.z_mean Samples.z_log_var) 0 None
     <> kl_obj_as_specified (kl_loss_of Samples.z_mean Samples.z_log_var) 0 None.
Proof.
  assert (H1 : kl_obj_of (kl_loss_of Samples.z_mean Samples.z_log_var) 0 None = 4).
  { unfold kl_obj_of; simpl; rewrite kl_unit_2_0.
    destruct (Rlt_dec 0 0) as [H|_]; [lra|]. simpl; lra. }
  assert (H2 : kl_obj_as_specified
                 (kl_loss_of Samples.z_mean Samples.z_log_var) 0 None = 2).
  { unfold kl_obj_as_specified; simpl; rewrite kl_unit_2_0.
    destruct (Rlt_dec 0 0) as [H|_]; [lra|]. simpl; lra. }
  repeat split; auto. rewrite H1, H2; lra.
Qed.

Section Seq2seqFacts.

Variables DecInputs Out Prob : Type.
Variable transfer_func : matrix -> matrix.
Variable decoder : DecInputs -> decoder_state -> bool -> bool -> option Prob
                   -> result (list Out).

(** What a call returns: the KL term is computed from [z_mean] and
    [z_log_var], whatever [eps], [latent_state] and [feed_prev_p] are. *)
Lemma returned_kl_term (encoder_out_state : matrix) (state_is_tuple : bool)
    (vars : variables) (eps : matrix) (decoder_inputs : DecInputs)
    (feed_previous : feed_previous_arg) (latent_state : option matrix)
    (feed_prev_p : option Prob) (kl_min : R) (anneal_scale : option R)
    (sample_mean concat_encoded : bool)
    (outs : list Out) (z : matrix) (kl : kl_term) :
  embedding_rnn_vae_seq2seq transfer_func decoder encoder_out_state state_is_tuple
    vars eps decoder_inputs feed_previous latent_state feed_prev_p kl_min
    anneal_scale sample_mean concat_encoded = Ok (outs, z, kl) ->
  kl = kl_term_of transfer_func vars encoder_out_state feed_previous kl_min
         anneal_scale.
Proof.
  unfold embedding_rnn_vae_seq2seq, kl_term_of; intros H.
  apply bind_ok_inv in H; destruct H as (use_mean & _ & H).
  destruct latent_state as [l|];
    (apply bind_ok_inv in H; destruct H as (st & _ & H);
     destruct feed_previous as [b|b];
     [ apply bind_ok_inv in H; destruct H as (o & _ & H); inversion H; reflexivity
     | apply bind_ok_inv in H; destruct H as (o & _ & H); inversion H; reflexivity ]).
Qed.

(** C9: a call with [latent_state] supplied returns that tensor as [z], runs
    the decoder from the initial state computed from it, and returns the KL
    term of [z_mean] and [z_log_var]: the same term as any other call on the
    same encoder state, whatever latent state, noise or sampling probability
    that call is given. *)
Theorem latent_state_supplied (encoder_out_state : matrix) (state_is_tuple : bool)
    (vars : variables) (eps : matrix) (decoder_inputs : DecInputs)
    (feed_previous : feed_previous_arg) (l : matrix)
    (feed_prev_p : option Prob) (kl_min : R) (anneal_scale : option R)
    (sample_mean concat_encoded : bool)
    (outs : list Out) (z : matrix) (kl : kl_term) :
  embedding_rnn_vae_seq2seq transfer_func decoder encoder_out_state state_is_tuple
    vars eps decoder_inputs feed_previous (Some l) feed_prev_p kl_min
    anneal_scale sample_mean concat_encoded = Ok (outs, z, kl) ->
  z = l
  /\ (exists st,
        initial_state_of transfer_func vars encoder_out_state state_is_tuple
          concat_encoded l = Ok st
        /\ decoder decoder_inputs st (fst (decoder_flags feed_previous))
             (snd (decoder_flags feed_previous)) None = Ok outs)
  /\ kl = kl_term_of transfer_func vars encoder_out_state feed_previous kl_min
            anneal_scale
  /\ forall eps' latent_state' feed_prev_p' outs' z' kl',
       embedding_rnn_vae_seq2seq transfer_func decoder encoder_out_state
         state_is_tuple vars eps' decoder_inputs feed_previous latent_state'
         feed_prev_p' kl_min anneal_scale sample_mean concat_encoded
       = Ok (outs', z', kl') ->
       kl' = kl.
Proof.
  intros H.
  pose proof (returned_kl_term _ _ _ _ _ _ _ _ _ _ _ _ H) as Hkl.
  assert (Hrun : z = l /\ exists st,
            initial_state_of transfer_func vars encoder_out_state state_is_tuple
              concat_encoded l = Ok st
            /\ decoder decoder_inputs st (fst (decoder_flags feed_previous))
                 (snd (decoder_flags feed_previous)) None = Ok outs).
  { unfold embedding_rnn_vae_seq2seq in H.
    apply bind_ok_inv in H; destruct H as (use_mean & _ & H).
    apply bind_ok_inv in H; destruct H as (st & Hst & H).
    destruct feed_previous as [b|b]; simpl.
    - apply bind_ok_inv in H; destruct H as (o & Ho & H).
      inversion H; subst; split; [reflexivity | exists st; auto].
    - apply bind_ok_inv in H; destruct H as (o & Ho & H).
      inversion H; subst; clear H.
      apply cond_ok_inv in Ho; destruct Ho as ([o1 z1] & [o2 z2] & H1 & H2 & Ho).
      apply bind_ok_inv in H1; destruct H1 as (r1 & H1 & E1).
      apply bind_ok_inv in H2; destruct H2 as (r2 & H2 & E2).
      inversion E1; inversion E2; subst.
      destruct b; simpl; (split; [reflexivity | exists st; auto]). }
  destruct Hrun as [Hz Hdec].
  repeat split; auto.
  intros eps' latent_state' feed_prev_p' outs' z' kl' H'.
  rewrite Hkl. eapply returned_kl_term; eauto.
Qed.

End Seq2seqFacts.

Lemma latent_state_supplied_witness :
  exists outs kl,
    embedding_rnn_vae_seq2seq (fun m => m) Samples.vae_decoder [[1]]%R false
      Samples.vae_variables [[0; 0]]%R tt (PyBool true)
      (Some Samples.latent_state) (Some (1 # 2)%Q) 0 None true false
    = Ok (outs, Samples.latent_state, kl)
    /\ kl = kl_term_of (fun m => m) Samples.vae_variables [[1]]%R (PyBool true)
              0 None.
Proof.
  eexists; eexists; split; [reflexivity|].
  destruct (@latent_state_supplied unit unit Q (fun m => m) Samples.vae_decoder
              [[1]]%R false Samples.vae_variables [[0; 0]]%R tt (PyBool true)
              Samples.latent_state (Some (1 # 2)%Q) 0 None true false
              _ _ _ eq_refl) as (_ & _ & Hkl & _).
  exact Hkl.
Defined.

End VaeFacts.

(** ** The errors of [attention_decoder] *)

Module AttentionDecoderFacts.
Import AttentionDecoder.

Section Facts.

Variables Inp X CellOut State Attn Out BowMask : Type.
Variable static_width : Inp -> option nat.
Variable linear_merge : Inp -> list Attn -> nat -> X.
Variable cell : X -> State -> CellOut * State.
Variable query_ndims : State -> option (list (option nat)).
Variable attention_reads : State -> list Attn.
Variable maxout_output : CellOut -> Inp -> list Attn -> Out.
Variable linear_output : CellOut -> list Attn -> Out.
Variable mask_output : Out -> BowMask -> Out.
Variable zero_attn : Attn.
Variable bow_state : cell_kind -> State.
Variable dec_init : State.

#[local] Abbreviation args := (arguments Inp State Out BowMask).
#[local] Abbreviation attend := (attention query_ndims attention_reads).
#[local] Abbreviation loop := (steps static_width linear_merge cell query_ndims
                    attention_reads maxout_output linear_output mask_output).
#[local] Abbreviation decoder := (attention_decoder static_width linear_merge cell
                       query_ndims attention_reads maxout_output linear_output
                       mask_output zero_attn bow_state dec_init).
#[local] Abbreviation rank_check_fails := (initial_attention_fails query_ndims).

Lemma ending_eta (A : Type) (e : ending A) :
  e = Ending (steps_entered e) (outcome e).
Proof. destruct e; reflexivity. Qed.

(** [attention] raises nothing but the [AssertionError] of its rank check. *)
Lemma attention_raise (st : State) (e : exn) :
  attend st = Raise e ->
  e = AssertionError
  /\ exists ndims, query_ndims st = Some ndims /\ forallb ndims_ok ndims = false.
Proof.
  unfold attention; destruct (query_ndims st) as [ndims|]; [|discriminate].
  destruct (forallb ndims_ok ndims) eqn:Hall; intros H; inversion H; eauto.
Qed.



Lemma steps_ok_entered (a : args) (inputs : list Inp) :
  forall (i : nat) (st : State) (attns : list Attn) (prev : option Out)
         (n : nat) (r : list Out * State),
  loop a i inputs st attns prev = Ending n (Ok r) ->
  n = i + length inputs /\ length (fst r) = length inputs.
Proof.
  induction inputs as [|inp rest IH]; simpl; intros i st attns prev n r H.
  - inversion H; subst; simpl; split; [lia | reflexivity].
  - match type of H with
    | context [static_width ?x] => destruct (static_width x) as [w|]
    end; [|inversion H].
    match type of H with
    | context [cell ?x ?s] => destruct (cell x s) as [cell_output st']
    end.
    destruct (attend st') as [attns'|e']; [|inversion H].
    match type of H with
    | context [loop a (S i) rest ?s ?at' ?p] =>
        specialize (IH (S i) s at' p); destruct (loop a (S i) rest s at' p)
          as [n' [r'|e'']]
    end; simpl in H; inversion H; subst.
    destruct (IH n r' eq_refl) as [Hn Hl]; simpl; split; [lia | f_equal; assumption].
Qed.


(** A call either raises before the loop, or enters the loop. *)
Lemma decoder_cases (a : args) :
  ((decoder_inputs a = [] \/ (num_heads a < 1)%Z \/ attn_size a = None
    \/ attn_length a = None \/ bow_init_fails a \/ rank_check_fails a)
   /\ exists e, decoder a = Ending 0 (Raise e))
  \/ (decoder_inputs a <> [] /\ (1 <= num_heads a)%Z /\ attn_size a <> None
      /\ attn_length a <> None /\ ~ bow_init_fails a /\ ~ rank_check_fails a
      /\ exists st attns, decoder a = loop a 0 (decoder_inputs a) st attns None).
Proof.
  unfold attention_decoder, bow_init_fails, initial_attention_fails, init_state.
  destruct (decoder_inputs a) as [|inp rest] eqn:Hin; [left; eauto 6|].
  destruct (Z.ltb_spec (num_heads a) 1); [left; eauto 6|].
  destruct (attn_size a) as [sz|]; [|left; eauto 7].
  destruct (attn_length a) as [len|]; [|left; eauto 8].
  assert (Hattn : forall st,
    ((initial_state_attention a = true
      /\ exists ndims, query_ndims (initial_state a) = Some ndims
                       /\ forallb ndims_ok ndims = false)
     /\ exists e,
          match (if initial_state_attention a then attend (initial_state a)
                 else Ok (repeat zero_attn (Z.to_nat (num_heads a)))) with
          | Raise e => Ending 0 (Raise e)
          | Ok attns => loop a 0 (inp :: rest) st attns None
          end = Ending 0 (Raise e))
    \/ (~ (initial_state_attention a = true
           /\ exists ndims, query_ndims (initial_state a) = Some ndims
                            /\ forallb ndims_ok ndims = false)
        /\ exists attns,
             match (if initial_state_attention a then attend (initial_state a)
                    else Ok (repeat zero_attn (Z.to_nat (num_heads a)))) with
             | Raise e => Ending 0 (Raise e)
             | Ok attns => loop a 0 (inp :: rest) st attns None
             end = loop a 0 (inp :: rest) st attns None)).
  { intros st; destruct (initial_state_attention a).
    - destruct (attend (initial_state a)) as [attns|e] eqn:Hatt.
      + right; split; [|eauto].
        intros (_ & ndims & Hq & Hall).
        unfold attention in Hatt; rewrite Hq, Hall in Hatt; discriminate.
      + left; apply attention_raise in Hatt; destruct Hatt as [_ Hq]; eauto.
    - right; split; [intros (Hc & _); discriminate | eauto]. }
  assert (Hright : forall st,
    ~ (encoder a = "bow" /\ init_const a = false
       /\ bow_init_supported (cell_class a) = false) ->
    ~ (initial_state_attention a = true
       /\ exists ndims, query_ndims (initial_state a) = Some ndims
                        /\ forallb ndims_ok ndims = false) ->
    forall attns (d : ending (list Out * State)),
    d = loop a 0 (inp :: rest) st attns None ->
    inp :: rest <> [] /\ (1 <= num_heads a)%Z /\ Some sz <> None
    /\ Some len <> None
    /\ ~ (encoder a = "bow" /\ init_const a = false
          /\ bow_init_supported (cell_class a) = false)
    /\ ~ (initial_state_attention a = true
          /\ exists ndims, query_ndims (initial_state a) = Some ndims
                           /\ forallb ndims_ok ndims = false)
    /\ exists st' attns', d = loop a 0 (inp :: rest) st' attns' None).
  { intros st Hb Hf attns d Hd.
    split; [discriminate|]. split; [lia|]. split; [discriminate|].
    split; [discriminate|]. split; [exact Hb|]. split; [exact Hf|]. eauto. }
  destruct (String.eqb_spec (encoder a) "bow") as [Hbow|Hbow].
  - destruct (init_const a) eqn:Hconst.
    + destruct (Hattn dec_init) as [[Hf He] | [Hf (attns & He)]].
      * left; split; [auto 8 | exact He].
      * right; apply (Hright dec_init) with (attns := attns);
          [intros (_ & Hc & _); discriminate | exact Hf | exact He].
    + destruct (bow_init_supported (cell_class a)) eqn:Hsup.
      * destruct (Hattn (bow_state (cell_class a))) as [[Hf He] | [Hf (attns & He)]].
        { left; split; [auto 8 | exact He]. }
        { right; apply (Hright (bow_state (cell_class a))) with (attns := attns);
            [intros (_ & _ & Hc); discriminate | exact Hf | exact He]. }
      * left; split; [auto 8 | eauto].
  - destruct (Hattn (initial_state a)) as [[Hf He] | [Hf (attns & He)]].
    + left; split; [auto 8 | exact He].
    + right; apply (Hright (initial_state a)) with (attns := attns);
        [intros (Hc & _); contradiction | exact Hf | exact He].
Qed.


End Facts.



End AttentionDecoderFacts.

(** ** Reading token files *)

Module ReaderFacts.
Import Reader.

Lemma slice_length (A : Type) (xs : list A) (a b : nat) :
  a <= b -> b <= length xs -> length (slice xs a b) = b - a.
Proof.
  intros Hab Hb; unfold slice; rewrite length_firstn, length_skipn; lia.
Qed.

Lemma slice_nth (A : Type) (xs : list A) (a b k : nat) (d : A) :
  k < b - a -> nth k (slice xs a b) d = nth (a + k) xs d.
Proof.
  intros Hk; unfold slice; rewrite nth_firstn.
  destruct (Nat.ltb_spec k (b - a)); [apply nth_skipn | lia].
Qed.

Lemma nth_error_map_seq (A : Type) (f : nat -> A) (s n j : nat) (x : A) :
  nth_error (map f (seq s n)) j = Some x -> j < n /\ x = f (s + j).
Proof.
  intros H.
  assert (Hj : j < n).
  { assert (Hs : nth_error (map f (seq s n)) j <> None) by congruence.
    apply nth_error_Some in Hs. rewrite length_map, length_seq in Hs; exact Hs. }
  split; [exact Hj|].
  rewrite nth_error_map in H.
  rewrite (nth_error_nth' _ 0) in H by (rewrite length_seq; exact Hj).
  rewrite seq_nth in H by exact Hj. simpl in H; congruence.
Qed.

Lemma nth_map_seq (A : Type) (f : nat -> A) (n b : nat) (d : A) :
  b < n -> nth b (map f (seq 0 n)) d = f b.
Proof.
  intros Hb.
  rewrite (nth_indep _ d (f 0)) by (rewrite length_map, length_seq; exact Hb).
  rewrite (map_nth f), seq_nth by exact Hb. reflexivity.
Qed.

Lemma nth_map_in_range (A B : Type) (g : A -> B) (l : list A) (b : nat)
    (d : B) (d' : A) :
  b < length l -> nth b (map g l) d = g (nth b l d').
Proof.
  intros Hb.
  rewrite (nth_indep _ d (g d')) by (rewrite length_map; exact Hb).
  apply map_nth.
Qed.

(** The number of full steps [(batch_len - 1) // num_steps]. *)
Lemma epoch_bound (batch_len num_steps i : nat) :
  num_steps <> 0 ->
  i < Z.to_nat ((Z.of_nat batch_len - 1) / Z.of_nat num_steps) ->
  (i + 1) * num_steps + 1 <= batch_len.
Proof.
  intros Hns Hi.
  set (e := ((Z.of_nat batch_len - 1) / Z.of_nat num_steps)%Z) in *.
  assert (Hmul : (Z.of_nat num_steps * e <= Z.of_nat batch_len - 1)%Z)
    by (apply Z.mul_div_le; lia).
  assert (He : (Z.of_nat i + 1 <= e)%Z) by lia.
  assert (Hle : (Z.of_nat num_steps * (Z.of_nat i + 1)
                 <= Z.of_nat num_steps * e)%Z) by (apply Z.mul_le_mono_nonneg_l; lia).
  nia.
Qed.

Lemma row_bound (data_len batch_size b : nat) :
  b < batch_size ->
  data_len / batch_size * (b + 1) <= data_len.
Proof.
  intros Hb.
  pose proof (Nat.Div0.mul_div_le data_len batch_size).
  nia.
Qed.

Lemma for_each_kept (A : Type) (f : A -> res A) (P : A -> Prop) (xs : list A) :
  (forall x, P x -> f x = inr x) -> Forall P xs -> for_each f xs = inr xs.
Proof.
  intros Hf; induction 1 as [|x xs Hx _ IH]; simpl; [reflexivity|].
  rewrite (Hf x Hx), IH; reflexivity.
Qed.

Lemma int32_checked_keeps (z : Z) : fits_int32 z -> int32_checked z = inr z.
Proof.
  unfold fits_int32, int32_checked; intros [Hlo Hhi].
  destruct (Z.leb_spec (- 2 ^ 31) z); [|lia].
  destruct (Z.ltb_spec z (2 ^ 31)); [reflexivity | lia].
Qed.

Section IteratorFacts.

Variable int32 : Z -> res Z.
Hypothesis int32_keeps : forall z, fits_int32 z -> int32 z = inr z.

(** What the batches hold, in terms of the raw data. *)
Lemma ptb_iterator_content (raw_data : list Z) (batch_size num_steps start_idx : nat)
    (batches : list (list (list Z) * list (list Z))) :
  Forall fits_int32 raw_data ->
  ptb_iterator int32 raw_data batch_size num_steps start_idx = inr batches ->
  let batch_len := length raw_data / batch_size in
  length batches
  = Z.to_nat ((Z.of_nat batch_len - 1) / Z.of_nat num_steps) - start_idx
  /\ forall j x y, nth_error batches j = Some (x, y) ->
       length x = batch_size /\ length y = batch_size
       /\ forall b, b < batch_size ->
            length (nth b x []) = num_steps /\ length (nth b y []) = num_steps
            /\ forall k, k < num_steps ->
                 nth k (nth b x []) 0%Z
                 = nth (batch_len * b + (start_idx + j) * num_steps + k) raw_data 0%Z
                 /\ nth k (nth b y []) 0%Z
                    = nth (batch_len * b + (start_idx + j) * num_steps + k + 1)
                          raw_data 0%Z.
Proof.
  intros Hfits H batch_len; unfold ptb_iterator in H.
  rewrite (@for_each_kept _ int32 fits_int32 raw_data int32_keeps Hfits) in H; cbn [and_then] in H.
  destruct (Nat.eqb_spec batch_size 0) as [|Hbs]; [discriminate|].
  destruct (Nat.eqb_spec num_steps 0) as [|Hns]; [discriminate|].
  fold batch_len in H |- *.
  set (epoch := ((Z.of_nat batch_len - 1) / Z.of_nat num_steps)%Z) in *.
  destruct (Z.eqb_spec epoch 0); [discriminate|].
  inversion H; subst batches; clear H.
  split; [rewrite length_map, length_seq; reflexivity|].
  intros j x y Hj.
  apply nth_error_map_seq in Hj; destruct Hj as [Hj Hxy].
  inversion Hxy; subst x y; clear Hxy.
  set (i := start_idx + j) in *.
  assert (Hi : (i + 1) * num_steps + 1 <= batch_len)
    by (apply epoch_bound; [assumption | unfold i; lia]).
  rewrite !length_map, length_seq.
  split; [reflexivity | split; [reflexivity|]].
  intros b Hb.
  pose proof (row_bound (length raw_data) Hb) as Hrow. fold batch_len in Hrow.
  assert (Hlen : length (slice raw_data (batch_len * b) (batch_len * (b + 1)))
                 = batch_len) by (rewrite slice_length; nia).
  rewrite !(@nth_map_in_range _ _ _ _ _ [] (@nil Z))
    by (rewrite length_map, length_seq; exact Hb).
  rewrite (@nth_map_seq _ _ _ _ (@nil Z) Hb).
  split; [rewrite slice_length; nia|].
  split; [rewrite slice_length; nia|].
  intros k Hk.
  rewrite !slice_nth by nia.
  split; f_equal; nia.
Qed.

(** X1: for ids that fit 32 bits, every pair [(x, y)] that [ptb_iterator]
    yields has [batch_size] rows of [num_steps] entries; batch [i] holds in
    row [b] of [x] the raw data from position [batch_len * b + i * num_steps]
    on; [y] is [x] shifted by one position: [y[b][k] = x[b][k+1]], and the
    last column of [y] is the first column of the [x] of the next batch; the
    batches are those from [start_idx] up to [(batch_len - 1) // num_steps]. *)
Theorem ptb_iterator_batches (raw_data : list Z) (batch_size num_steps start_idx : nat)
    (batches : list (list (list Z) * list (list Z))) :
  Forall fits_int32 raw_data ->
  ptb_iterator int32 raw_data batch_size num_steps start_idx = inr batches ->
  let batch_len := length raw_data / batch_size in
  length batches
  = Z.to_nat ((Z.of_nat batch_len - 1) / Z.of_nat num_steps) - start_idx
  /\ forall j x y, nth_error batches j = Some (x, y) ->
       length x = batch_size /\ length y = batch_size
       /\ forall b, b < batch_size ->
            length (nth b x []) = num_steps /\ length (nth b y []) = num_steps
            /\ (forall k, k < num_steps ->
                  nth k (nth b x []) 0%Z
                  = nth (batch_len * b + (start_idx + j) * num_steps + k) raw_data 0%Z)
            /\ (forall k, k + 1 < num_steps ->
                  nth k (nth b y []) 0%Z = nth (k + 1) (nth b x []) 0%Z)
            /\ (forall x' y', nth_error batches (j + 1) = Some (x', y') ->
                  nth (num_steps - 1) (nth b y []) 0%Z = nth 0 (nth b x' []) 0%Z).
Proof.
  intros Hfits H batch_len.
  destruct (ptb_iterator_content _ _ _ Hfits H) as [Hlen Hall].
  fold batch_len in Hall.
  assert (Hns : num_steps <> 0).
  { unfold ptb_iterator in H.
    rewrite (@for_each_kept _ int32 fits_int32 raw_data int32_keeps Hfits) in H; cbn [and_then] in H.
    destruct (batch_size =? 0); [discriminate|].
    destruct (Nat.eqb_spec num_steps 0); [discriminate | assumption]. }
  split; [exact Hlen|].
  intros j x y Hj.
  destruct (Hall j x y Hj) as (Hx & Hy & Hrows).
  split; [exact Hx | split; [exact Hy|]].
  intros b Hb.
  destruct (Hrows b Hb) as (Hlx & Hly & Hcontent).
  split; [exact Hlx | split; [exact Hly|]].
  split; [|split].
  - intros k Hk; apply (Hcontent k Hk).
  - intros k Hk.
    destruct (Hcontent k) as [_ Hyk]; [lia|].
    destruct (Hcontent (k + 1)) as [Hxk _]; [lia|].
    rewrite Hyk, Hxk; f_equal; lia.
  - intros x' y' Hj'.
    destruct (Hall (j + 1) x' y' Hj') as (_ & _ & Hrows').
    destruct (Hrows' b Hb) as (_ & _ & Hcontent').
    destruct (Hcontent (num_steps - 1)) as [_ Hyk]; [lia|].
    destruct (Hcontent' 0) as [Hxk _]; [lia|].
    rewrite Hyk, Hxk; f_equal; lia.
Qed.

(** X2: for ids that fit 32 bits, [ptb_iterator] raises [ZeroDivisionError]
    for [batch_size] or [num_steps] zero; otherwise it raises [ValueError]
    exactly when [1 <= len(raw_data) // batch_size <= num_steps], and nothing
    else; with fewer data items than [batch_size] the epoch size is [-1],
    nothing is raised and nothing is yielded. *)
Theorem ptb_iterator_errors (raw_data : list Z) (batch_size num_steps start_idx : nat) :
  Forall fits_int32 raw_data ->
  (batch_size = 0 \/ num_steps = 0 ->
   ptb_iterator int32 raw_data batch_size num_steps start_idx = inl ZeroDivisionError)
  /\ (batch_size <> 0 -> num_steps <> 0 ->
      (ptb_iterator int32 raw_data batch_size num_steps start_idx
       = inl (ValueError epoch_size_msg)
       <-> 1 <= length raw_data / batch_size <= num_steps)
      /\ (forall e, ptb_iterator int32 raw_data batch_size num_steps start_idx = inl e ->
                    e = ValueError epoch_size_msg)
      /\ (length raw_data < batch_size ->
          ptb_iterator int32 raw_data batch_size num_steps start_idx = inr [])).
Proof.
  intros Hfits; unfold ptb_iterator.
  rewrite (@for_each_kept _ int32 fits_int32 raw_data int32_keeps Hfits); cbn [and_then].
  split.
  - intros [-> | ->]; [reflexivity|].
    destruct (batch_size =? 0); reflexivity.
  - intros Hbs Hns.
    destruct (Nat.eqb_spec batch_size 0); [contradiction|].
    destruct (Nat.eqb_spec num_steps 0); [contradiction|].
    set (batch_len := length raw_data / batch_size).
    set (epoch := ((Z.of_nat batch_len - 1) / Z.of_nat num_steps)%Z).
    assert (Hepoch : epoch = 0%Z <-> 1 <= batch_len <= num_steps).
    { unfold epoch; rewrite Z.div_small_iff by lia; lia. }
    destruct (Z.eqb_spec epoch 0) as [He|He].
    + split; [|split].
      * split; [intros _; apply Hepoch, He | reflexivity].
      * intros e H; inversion H; reflexivity.
      * intros Hlt. assert (batch_len = 0) by (apply Nat.div_small; exact Hlt). lia.
    + split; [|split].
      * split; [discriminate | intros H; apply Hepoch in H; contradiction].
      * discriminate.
      * intros Hlt.
        assert (Hbl : batch_len = 0) by (apply Nat.div_small; exact Hlt).
        assert (Hneg : (epoch < 0)%Z).
        { unfold epoch; rewrite Hbl; apply Z.div_lt_upper_bound; lia. }
        replace (Z.to_nat epoch - start_idx) with 0 by lia. reflexivity.
Qed.

End IteratorFacts.

Lemma sample_ids_fit :
  Forall fits_int32 [0; 1; 2; 3; 4; 5; 6; 7; 8; 9]%Z.
Proof. repeat constructor; unfold fits_int32; lia. Qed.

Lemma ptb_iterator_batches_witness :
  ptb_iterator int32_checked [0; 1; 2; 3; 4; 5; 6; 7; 8; 9]%Z 2 2 0
  = inr [([[0; 1]; [5; 6]], [[1; 2]; [6; 7]]);
         ([[2; 3]; [7; 8]], [[3; 4]; [8; 9]])]%Z
  /\ forall b, b < 2 ->
       (forall k, k + 1 < 2 ->
          nth k (nth b [[1; 2]; [6; 7]]%Z []) 0%Z
          = nth (k + 1) (nth b [[0; 1]; [5; 6]]%Z []) 0%Z)
       /\ nth (2 - 1) (nth b [[1; 2]; [6; 7]]%Z []) 0%Z
          = nth 0 (nth b [[2; 3]; [7; 8]]%Z []) 0%Z.
Proof.
  split; [reflexivity|].
  intros b Hb.
  destruct (@ptb_iterator_batches int32_checked int32_checked_keeps
              [0; 1; 2; 3; 4; 5; 6; 7; 8; 9]%Z 2 2 0
              [([[0; 1]; [5; 6]], [[1; 2]; [6; 7]]);
               ([[2; 3]; [7; 8]], [[3; 4]; [8; 9]])]%Z
              sample_ids_fit eq_refl) as [_ Hall].
  destruct (Hall 0 [[0; 1]; [5; 6]]%Z [[1; 2]; [6; 7]]%Z eq_refl)
    as (_ & _ & Hrows).
  destruct (Hrows b Hb) as (_ & _ & _ & Hshift & Hnext).
  split; [exact Hshift|].
  apply (Hnext [[2; 3]; [7; 8]]%Z [[3; 4]; [8; 9]]%Z eq_refl).
Defined.

Lemma ptb_iterator_errors_witness :
  ptb_iterator int32_checked [1; 2; 3]%Z 5 2 0 = inr []
  /\ ptb_iterator int32_checked [1; 2; 3]%Z 1 3 0 = inl (ValueError epoch_size_msg).
Proof.
  assert (Hfits : Forall fits_int32 [1; 2; 3]%Z)
    by (repeat constructor; unfold fits_int32; lia).
  split.
  - apply (@ptb_iterator_errors int32_checked int32_checked_keeps [1; 2; 3]%Z
             5 2 0 Hfits); simpl; lia.
  - apply (@ptb_iterator_errors int32_checked int32_checked_keeps [1; 2; 3]%Z
             1 3 0 Hfits); simpl; lia.
Defined.

Lemma and_then_inr (A B : Type) (m : res A) (k : A -> res B) (b : B) :
  and_then m k = inr b -> exists a, m = inr a /\ k a = inr b.
Proof.
  destruct m as [e|a]; simpl; intros H; [discriminate | eauto].
Qed.

Lemma for_each_length (A B : Type) (f : A -> res B) (xs : list A) (ys : list B) :
  for_each f xs = inr ys -> length ys = length xs.
Proof.
  revert ys; induction xs as [|x xs IH]; simpl; intros ys H.
  - inversion H; reflexivity.
  - apply and_then_inr in H; destruct H as (y & _ & H).
    apply and_then_inr in H; destruct H as (ys' & Hys & H).
    inversion H; subst; simpl; f_equal; auto.
Qed.

Lemma clip_length (vocab_size : option Z) (tok_ids : list Z) :
  length (clip vocab_size tok_ids) = length tok_ids.
Proof.
  unfold clip; destruct vocab_size as [v|]; [|reflexivity].
  destruct (v =? 0)%Z; [reflexivity | apply length_map].
Qed.

Section IndexedDataFacts.

Variable int : string -> res Z.

(** The loop from line number [line_nr] on, before the limit is reached. *)
Lemma read_lines_closed (vocab_size : option Z) (max_train_data_size : Z)
    (lines : list (list string)) :
  forall (line_nr : Z) (data : list Z),
  (0 <= line_nr)%Z ->
  (0 < max_train_data_size -> line_nr < max_train_data_size)%Z ->
  read_lines int lines max_train_data_size vocab_size line_nr data
  = and_then (for_each (for_each int)
                (lines_read lines (max_train_data_size - line_nr)))
      (fun toks =>
         inr (data ++ flat_map (fun l => clip vocab_size l ++ [2%Z]) toks)).
Proof.
  unfold lines_read.
  induction lines as [|line rest IH]; intros line_nr data Hn Hmax; simpl.
  - destruct (0 <? max_train_data_size - line_nr)%Z;
      [rewrite firstn_nil|]; simpl; rewrite app_nil_r; reflexivity.
  - destruct (Z.ltb_spec 0 max_train_data_size) as [Hpos|Hnonpos].
    + specialize (Hmax Hpos).
      destruct (Z.ltb_spec 0 (max_train_data_size - line_nr)); [|lia].
      replace (Z.to_nat (max_train_data_size - line_nr))
        with (S (Z.to_nat (max_train_data_size - (line_nr + 1)))) by lia.
      simpl. destruct (for_each int line) as [e|toks]; simpl; [reflexivity|].
      destruct (Z.leb_spec max_train_data_size (line_nr + 1)) as [Hstop|Hgo].
      * replace (Z.to_nat (max_train_data_size - (line_nr + 1))) with 0 by lia.
        simpl. rewrite app_nil_r; reflexivity.
      * rewrite IH by lia.
        destruct (Z.ltb_spec 0 (max_train_data_size - (line_nr + 1))); [|lia].
        destruct (for_each (for_each int)
                    (firstn (Z.to_nat (max_train_data_size - (line_nr + 1))) rest))
          as [e|more]; simpl; [reflexivity|].
        rewrite <- app_assoc; reflexivity.
    + destruct (Z.ltb_spec 0 (max_train_data_size - line_nr)); [lia|].
      simpl. destruct (for_each int line) as [e|toks]; simpl; [reflexivity|].
      rewrite IH by lia.
      destruct (Z.ltb_spec 0 (max_train_data_size - (line_nr + 1))); [lia|].
      destruct (for_each (for_each int) rest) as [e|more]; simpl; [reflexivity|].
      rewrite <- app_assoc; reflexivity.
Qed.

(** X3: [read_indexed_data] converts the tokens of the first
    [max_train_data_size] lines (of all lines when that is not positive),
    replaces a token that is not below a non-zero [vocab_size] by 0, and puts
    a 2 after every line; lines beyond the limit are not converted, so a
    malformed token there raises nothing. *)
Theorem read_indexed_data_lines (lines : list (list string))
    (max_train_data_size : Z) (vocab_size : option Z) :
  read_indexed_data int lines max_train_data_size vocab_size
  = and_then (for_each (for_each int) (lines_read lines max_train_data_size))
      (fun toks => inr (flat_map (fun l => clip vocab_size l ++ [2%Z]) toks)).
Proof.
  unfold read_indexed_data.
  rewrite read_lines_closed by lia.
  rewrite Z.sub_0_r; reflexivity.
Qed.

Lemma clip_below (v : Z) (tok_ids : list Z) :
  (0 < v)%Z -> Forall (fun t => (t < v)%Z) (clip (Some v) tok_ids).
Proof.
  intros Hv; unfold clip.
  destruct (Z.eqb_spec v 0); [lia|].
  apply Forall_forall; intros t Ht.
  apply in_map_iff in Ht; destruct Ht as (tok & <- & _).
  destruct (Z.ltb_spec tok v); lia.
Qed.

(** X4: with a [vocab_size] above 2, every id [read_indexed_data] returns is
    below [vocab_size], and the result has one entry per token read plus one
    per line. *)
Theorem read_indexed_data_bound (lines : list (list string))
    (max_train_data_size v : Z) (data : list Z) :
  (2 < v)%Z ->
  read_indexed_data int lines max_train_data_size (Some v) = inr data ->
  Forall (fun t => (t < v)%Z) data
  /\ length data
     = fold_right (fun line n => length line + 1 + n) 0
                  (lines_read lines max_train_data_size).
Proof.
  intros Hv H; unfold read_indexed_data in H.
  rewrite read_lines_closed in H by lia.
  rewrite Z.sub_0_r in H.
  apply and_then_inr in H; destruct H as (toks & Htoks & H).
  inversion H; subst data; clear H.
  revert toks Htoks.
  induction (lines_read lines max_train_data_size) as [|line rest IH];
    intros toks Htoks; cbn [for_each] in Htoks.
  - inversion Htoks; subst; simpl; split; [constructor | reflexivity].
  - apply and_then_inr in Htoks; destruct Htoks as (t & Ht & Htoks).
    apply and_then_inr in Htoks; destruct Htoks as (ts & Hts & Htoks).
    inversion Htoks; subst toks; clear Htoks.
    destruct (IH ts Hts) as [IHb IHl]; cbn [flat_map fold_right]; split.
    + rewrite <- app_assoc. apply Forall_app; split; [apply clip_below; lia|].
      constructor; [lia | exact IHb].
    + pose proof (clip_length (Some v) t) as Hc; unfold clip in Hc.
      rewrite <- app_assoc, !length_app, IHl, Hc.
      rewrite (for_each_length _ _ Ht). simpl; lia.
Qed.

End IndexedDataFacts.

Lemma read_indexed_data_bound_witness :
  Forall (fun t => (t < 10)%Z) [7; 0; 2; 3; 2]%Z
  /\ length [7; 0; 2; 3; 2]%Z
     = fold_right (fun line n => length line + 1 + n) 0
                  (lines_read [["7"; "12"]; ["3"]; ["x"]] 2).
Proof.
  apply (@read_indexed_data_bound decimal [["7"; "12"]; ["3"]; ["x"]] 2 10);
    [lia | reflexivity].
Defined.

(** *** The vocabulary *)

Lemma lookup_count_word_same (w : string) (counts : list (string * nat)) :
  count_of w (count_word w counts) = S (count_of w counts).
Proof.
  unfold count_of; induction counts as [|[w' c] rest IH]; simpl.
  - rewrite String.eqb_refl; reflexivity.
  - destruct (String.eqb_spec w w') as [->|Hne]; simpl.
    + rewrite String.eqb_refl; reflexivity.
    + destruct (String.eqb_spec w w'); [contradiction | exact IH].
Qed.

Lemma lookup_count_word_other (w w' : string) (counts : list (string * nat)) :
  w <> w' -> lookup w' (count_word w counts) = lookup w' counts.
Proof.
  intros Hne; induction counts as [|[k c] rest IH]; simpl.
  - destruct (String.eqb_spec w' w); [congruence | reflexivity].
  - destruct (String.eqb_spec w k) as [->|Hk]; simpl.
    + destruct (String.eqb_spec w' k); [congruence | reflexivity].
    + destruct (String.eqb_spec w' k); [reflexivity | exact IH].
Qed.

Lemma keys_count_word (w : string) (counts : list (string * nat)) :
  (forall k, In k (map fst (count_word w counts))
             <-> k = w \/ In k (map fst counts))
  /\ (NoDup (map fst counts) -> NoDup (map fst (count_word w counts))).
Proof.
  induction counts as [|[w' c] rest [IHk IHn]]; simpl.
  - split; [intros k; intuition congruence
           | intros _; constructor; [auto | constructor]].
  - destruct (String.eqb_spec w w') as [->|Hne]; simpl.
    + split; [intros k; intuition congruence | auto].
    + split.
      * intros k; rewrite IHk; tauto.
      * intros Hnd; inversion Hnd as [|? ? Hnotin Hnd']; subst.
        constructor; [|auto].
        rewrite IHk; intros [H|H]; [congruence | contradiction].
Qed.

Lemma lookup_in_keys (w : string) (d : list (string * nat)) :
  (exists v, lookup w d = inr v) <-> In w (map fst d).
Proof.
  induction d as [|[k v] rest IH]; simpl.
  - split; [intros (v & H); discriminate | contradiction].
  - destruct (String.eqb_spec w k) as [->|Hne].
    + split; [auto | eauto].
    + rewrite IH; split; [auto | intros [H|H]; [congruence | exact H]].
Qed.

Lemma lookup_error (w : string) (d : list (string * nat)) (e : error) :
  lookup w d = inl e -> e = KeyError w /\ ~ In w (map fst d).
Proof.
  induction d as [|[k v] rest IH]; simpl.
  - intros H; inversion H; auto.
  - destruct (String.eqb_spec w k) as [->|Hne]; [discriminate|].
    intros H; destruct (IH H) as [He Hn]; split; [exact He|].
    intros [Hk|Hk]; [congruence | contradiction].
Qed.

Lemma lookup_in (w : string) (v : nat) (d : list (string * nat)) :
  NoDup (map fst d) -> (lookup w d = inr v <-> In (w, v) d).
Proof.
  induction d as [|[k c] rest IH]; simpl; intros Hnd.
  - split; [discriminate | contradiction].
  - inversion Hnd as [|? ? Hnotin Hnd']; subst.
    destruct (String.eqb_spec w k) as [->|Hne].
    + split.
      * intros H; inversion H; auto.
      * intros [H|H]; [inversion H; reflexivity|].
        exfalso; apply Hnotin; apply (in_map fst) in H; exact H.
    + rewrite (IH Hnd'); split; [auto | intros [H|H]; [congruence | exact H]].
Qed.

(** [Counter(data)]: one entry per distinct word, with the number of its
    occurrences. *)
Lemma counter_spec (data : list string) :
  NoDup (map fst (counter data))
  /\ (forall w, In w (map fst (counter data)) <-> In w data)
  /\ (forall w, count_of w (counter data) = count_occ string_dec data w).
Proof.
  unfold counter.
  assert (H : forall acc,
             NoDup (map fst acc) ->
             let final := fold_left (fun counts w => count_word w counts) data acc in
             NoDup (map fst final)
             /\ (forall w, In w (map fst final) <-> In w (map fst acc) \/ In w data)
             /\ (forall w, count_of w final
                           = count_of w acc + count_occ string_dec data w)).
  { induction data as [|x data IH]; intros acc Hnd; simpl.
    - repeat split; auto; try tauto.
    - destruct (keys_count_word x acc) as [Hk Hn].
      destruct (IH (count_word x acc) (Hn Hnd)) as (IH1 & IH2 & IH3).
      repeat split; [exact IH1 | | |].
      + rewrite IH2, Hk; intros [[H|H]|H]; auto.
      + rewrite IH2, Hk; intros [H|[H|H]]; auto.
      + intros w; rewrite IH3.
        destruct (string_dec x w) as [->|Hne].
        * rewrite lookup_count_word_same; lia.
        * unfold count_of; rewrite lookup_count_word_other by exact Hne; lia. }
  destruct (H [] (NoDup_nil _)) as (H1 & H2 & H3).
  repeat split; [exact H1 | | |].
  - rewrite H2; simpl; tauto.
  - rewrite H2; simpl; tauto.
  - intros w; rewrite H3; reflexivity.
Qed.

(** *** The sort by [(-count, word)] *)

Import OrderedTypeEx.

Lemma key_lt_iff (p q : string * nat) :
  key_lt p q = true
  <-> snd q < snd p \/ (snd p = snd q /\ String_as_OT.lt (fst p) (fst q)).
Proof.
  unfold key_lt.
  rewrite Bool.orb_true_iff, Bool.andb_true_iff, Nat.ltb_lt, Nat.eqb_eq.
  rewrite <- String_as_OT.cmp_lt.
  destruct (String_as_OT.cmp (fst p) (fst q)); intuition congruence.
Qed.

Lemma string_lt_irrefl (w : string) : ~ String_as_OT.lt w w.
Proof. intros H; apply String_as_OT.lt_not_eq in H; apply H; reflexivity. Qed.

Lemma string_trichotomy (a b : string) :
  String_as_OT.lt a b \/ a = b \/ String_as_OT.lt b a.
Proof.
  destruct (String_as_OT.cmp a b) eqn:E.
  - right; left; apply String_as_OT.cmp_eq; exact E.
  - left; apply String_as_OT.cmp_lt; exact E.
  - right; right; apply String_as_OT.cmp_lt.
    rewrite String_as_OT.cmp_antisym, E; reflexivity.
Qed.

Lemma key_lt_irrefl (p : string * nat) : key_lt p p = false.
Proof.
  destruct (key_lt p p) eqn:E; [|reflexivity].
  apply key_lt_iff in E; destruct E as [E | [_ E]];
    [lia | exfalso; exact (string_lt_irrefl E)].
Qed.

Lemma key_lt_asym (p q : string * nat) : key_lt p q = true -> key_le p q.
Proof.
  unfold key_le; intros H; destruct (key_lt q p) eqn:E; [|reflexivity].
  apply key_lt_iff in H; apply key_lt_iff in E.
  destruct H as [H | [H1 H2]], E as [E | [E1 E2]]; try lia.
  exfalso; exact (string_lt_irrefl (String_as_OT.lt_trans _ _ _ H2 E2)).
Qed.

Lemma key_le_trans (p q r : string * nat) : key_le p q -> key_le q r -> key_le p r.
Proof.
  unfold key_le; intros Hpq Hqr.
  destruct (key_lt r p) eqn:E; [|reflexivity]. exfalso.
  apply key_lt_iff in E.
  assert (Hpq' : ~ (snd p < snd q \/ (snd q = snd p /\ String_as_OT.lt (fst q) (fst p))))
    by (rewrite <- key_lt_iff; congruence).
  assert (Hqr' : ~ (snd q < snd r \/ (snd r = snd q /\ String_as_OT.lt (fst r) (fst q))))
    by (rewrite <- key_lt_iff; congruence).
  destruct E as [E | [E1 E2]]; [apply Hpq'; left; lia || (apply Hqr'; left; lia)|].
  destruct (Nat.lt_trichotomy (snd p) (snd q)) as [H | [H | H]];
    [apply Hpq'; auto | | apply Hqr'; left; lia].
  destruct (string_trichotomy (fst q) (fst p)) as [Hs | [Hs | Hs]].
  - apply Hpq'; right; split; [congruence | exact Hs].
  - apply Hqr'; right; split; [congruence | rewrite Hs; exact E2].
  - apply Hqr'; right; split; [congruence|].
    exact (String_as_OT.lt_trans _ _ _ E2 Hs).
Qed.

Lemma insert_pair_perm (x : string * nat) (l : list (string * nat)) :
  Permutation.Permutation (insert_pair x l) (x :: l).
Proof.
  induction l as [|y l IH]; simpl; [apply Permutation.Permutation_refl|].
  destruct (key_lt y x); [|apply Permutation.Permutation_refl].
  eapply Permutation.perm_trans; [apply Permutation.perm_skip, IH|].
  apply Permutation.perm_swap.
Qed.

Lemma insert_pair_sorted (x : string * nat) (l : list (string * nat)) :
  Sorted.StronglySorted key_le l -> Sorted.StronglySorted key_le (insert_pair x l).
Proof.
  induction 1 as [|y l Hs IH Hall]; simpl.
  - constructor; constructor.
  - destruct (key_lt y x) eqn:E.
    + constructor; [exact IH|].
      apply Forall_forall; intros z Hz.
      apply (Permutation.Permutation_in _ (insert_pair_perm x l)) in Hz.
      destruct Hz as [<- | Hz]; [apply key_lt_asym, E|].
      rewrite Forall_forall in Hall; apply Hall, Hz.
    + constructor; [constructor; assumption|].
      constructor; [exact E|].
      apply Forall_forall; intros z Hz.
      rewrite Forall_forall in Hall.
      apply key_le_trans with y; [exact E | apply Hall, Hz].
Qed.

Lemma sorted_pairs_spec (items : list (string * nat)) :
  Permutation.Permutation (sorted_pairs items) items
  /\ Sorted.StronglySorted key_le (sorted_pairs items).
Proof.
  unfold sorted_pairs; induction items as [|x items [IHp IHs]]; simpl.
  - split; constructor.
  - split; [|apply insert_pair_sorted, IHs].
    eapply Permutation.perm_trans; [apply insert_pair_perm|].
    apply Permutation.perm_skip, IHp.
Qed.

Lemma strongly_sorted_nth (A : Type) (R : A -> A -> Prop) (l : list A) :
  Sorted.StronglySorted R l ->
  forall i j a b, i < j -> nth_error l i = Some a -> nth_error l j = Some b -> R a b.
Proof.
  induction 1 as [|x l Hs IH Hall]; intros i j a b Hij Ha Hb.
  - destruct i; discriminate.
  - destruct j as [|j]; [lia|]. simpl in Hb.
    destruct i as [|i]; simpl in Ha.
    + inversion Ha; subst. rewrite Forall_forall in Hall.
      apply Hall; eapply nth_error_In; eauto.
    + apply (IH i j); auto; lia.
Qed.

(** *** Word ids *)

Lemma combine_seq (words : list string) :
  forall s,
  map fst (combine words (seq s (length words))) = words
  /\ map snd (combine words (seq s (length words))) = seq s (length words)
  /\ length (combine words (seq s (length words))) = length words.
Proof.
  induction words as [|w words IH]; intros s; simpl; [auto|].
  destruct (IH (S s)) as (H1 & H2 & H3); rewrite H1, H2, H3; auto.
Qed.

Lemma lookup_combine_seq (words : list string) :
  NoDup words ->
  forall s w i,
  lookup w (combine words (seq s (length words))) = inr i
  <-> s <= i /\ nth_error words (i - s) = Some w.
Proof.
  induction 1 as [|x words Hnotin Hnd IH]; intros s w i; simpl.
  - split; [discriminate | intros [_ H]; destruct (i - s); discriminate].
  - destruct (String.eqb_spec w x) as [->|Hne].
    + split.
      * intros H; inversion H; subst; rewrite Nat.sub_diag; auto.
      * intros [Hs H]; destruct (i - s) as [|k] eqn:E; simpl in H.
        { f_equal; lia. }
        { exfalso; apply Hnotin; eapply nth_error_In; eauto. }
    + rewrite IH; split.
      * intros [Hs H]; split; [lia|].
        replace (i - s) with (S (i - S s)) by lia; exact H.
      * intros [Hs H]; destruct (i - s) as [|k] eqn:E; simpl in H.
        { congruence. }
        { split; [lia|]. replace (i - S s) with k by lia; exact H. }
Qed.

(** What [_build_vocab] returns: the distinct words of the data in the order
    of the sort, numbered from 0. *)
Lemma build_vocab_spec (data : list string) (vocab : list (string * nat)) :
  _build_vocab data = inr vocab ->
  let pairs := sorted_pairs (counter data) in
  data <> []
  /\ map fst vocab = map fst pairs
  /\ map snd vocab = seq 0 (length vocab)
  /\ NoDup (map fst vocab)
  /\ (forall w, In w (map fst vocab) <-> In w data)
  /\ (forall w i, lookup w vocab = inr i <-> nth_error (map fst vocab) i = Some w)
  /\ (forall w c, In (w, c) pairs -> c = count_occ string_dec data w)
  /\ Sorted.StronglySorted key_le pairs.
Proof.
  intros H pairs.
  destruct (counter_spec data) as (Hnd & Hkeys & Hcount).
  destruct (sorted_pairs_spec (counter data)) as [Hperm Hsorted].
  fold pairs in Hperm, Hsorted.
  assert (Hpk : Permutation.Permutation (map fst pairs) (map fst (counter data)))
    by (apply Permutation.Permutation_map; exact Hperm).
  assert (Hnd' : NoDup (map fst pairs)).
  { eapply Permutation.Permutation_NoDup;
      [apply Permutation.Permutation_sym; exact Hpk | exact Hnd]. }
  unfold _build_vocab in H; fold pairs in H.
  destruct pairs as [|p ps] eqn:Epairs; [discriminate|].
  rewrite <- Epairs in *.
  inversion H as [Hv]; clear H.
  destruct (combine_seq (map fst pairs) 0) as (H1 & H2 & H3).
  assert (Hvocab : vocab = combine (map fst pairs) (seq 0 (length (map fst pairs))))
    by (symmetry; exact Hv).
  repeat split.
  - intros ->.
    assert (Hin : In (fst p) (map fst pairs)) by (rewrite Epairs; left; reflexivity).
    apply (Permutation.Permutation_in _ Hpk) in Hin.
    apply Hkeys in Hin; contradiction.
  - rewrite ?Hvocab; exact H1.
  - rewrite ?Hvocab, H2, H3; reflexivity.
  - rewrite ?Hvocab, H1; exact Hnd'.
  - rewrite ?Hvocab, H1; intros Hin; apply Hkeys.
    apply (Permutation.Permutation_in _ Hpk); exact Hin.
  - rewrite ?Hvocab, H1; intros Hin; apply Hkeys in Hin.
    apply (Permutation.Permutation_in _ (Permutation.Permutation_sym Hpk)); exact Hin.
  - rewrite ?Hvocab, H1; intros Hl.
    apply (lookup_combine_seq Hnd') in Hl; destruct Hl as [_ Hl].
    rewrite Nat.sub_0_r in Hl; exact Hl.
  - rewrite ?Hvocab, H1; intros Hn.
    apply (lookup_combine_seq Hnd'); rewrite Nat.sub_0_r; split; [lia | exact Hn].
  - intros w c Hin.
    apply (Permutation.Permutation_in _ Hperm) in Hin.
    apply (@lookup_in w c _ Hnd) in Hin.
    rewrite <- Hcount; unfold count_of; rewrite Hin; reflexivity.
  - exact Hsorted.
Qed.

Lemma build_vocab_returns (data : list string) :
  data <> [] -> exists vocab, _build_vocab data = inr vocab.
Proof.
  intros Hne; unfold _build_vocab.
  destruct (sorted_pairs (counter data)) as [|p ps] eqn:E; [|eauto].
  exfalso.
  destruct data as [|w data]; [congruence|].
  destruct (counter_spec (w :: data)) as (_ & Hkeys & _).
  destruct (sorted_pairs_spec (counter (w :: data))) as [Hperm _].
  rewrite E in Hperm.
  apply Permutation.Permutation_nil in Hperm.
  assert (Hin : In w (map fst (counter (w :: data)))) by (apply Hkeys; left; reflexivity).
  rewrite Hperm in Hin; contradiction.
Qed.

(** X5: [_build_vocab] fails on an empty word list (the unpacking of an
    empty [zip] raises [ValueError]); otherwise it returns a dictionary whose
    keys are exactly the distinct words of the data, each once, and whose ids
    are [0 .. n-1] for the [n] distinct words. *)
Theorem build_vocab_ids (data : list string) :
  (data = [] -> _build_vocab data = inl (ValueError "not enough values to unpack"))
  /\ (data <> [] -> exists vocab, _build_vocab data = inr vocab)
  /\ forall vocab, _build_vocab data = inr vocab ->
       NoDup (map fst vocab)
       /\ map snd vocab = seq 0 (length vocab)
       /\ (forall w, In w (map fst vocab) <-> In w data)
       /\ length vocab = length (nodup string_dec data).
Proof.
  split; [intros ->; reflexivity|].
  split; [apply build_vocab_returns|].
  intros vocab H.
  destruct (build_vocab_spec _ H) as (_ & _ & Hids & Hnd & Hkeys & _).
  repeat split; [exact Hnd | exact Hids | apply Hkeys | apply Hkeys |].
  rewrite <- (length_map fst vocab).
  apply Permutation.Permutation_length.
  apply Permutation.NoDup_Permutation; [exact Hnd | apply NoDup_nodup|].
  intros w; rewrite nodup_In; apply Hkeys.
Qed.

Lemma build_vocab_ids_witness :
  exists vocab, _build_vocab ["b"; "a"; "b"] = inr vocab.
Proof.
  apply (proj1 (proj2 (build_vocab_ids ["b"; "a"; "b"]))); discriminate.
Defined.

Lemma nth_error_map_fst (pairs : list (string * nat)) (i : nat) (w : string) :
  nth_error (map fst pairs) i = Some w ->
  exists c, nth_error pairs i = Some (w, c).
Proof.
  rewrite nth_error_map.
  destruct (nth_error pairs i) as [[w' c]|]; simpl; intros H;
    [inversion H; eauto | discriminate].
Qed.

(** X6: in the dictionary of [_build_vocab] a word that occurs more often
    has the smaller id, and of two words that occur equally often the
    smaller word has the smaller id. *)
Theorem build_vocab_order (data : list string) (vocab : list (string * nat))
    (w1 w2 : string) (i1 i2 : nat) :
  _build_vocab data = inr vocab ->
  lookup w1 vocab = inr i1 -> lookup w2 vocab = inr i2 ->
  count_occ string_dec data w2 < count_occ string_dec data w1
  \/ (count_occ string_dec data w1 = count_occ string_dec data w2
      /\ String_as_OT.lt w1 w2) ->
  i1 < i2.
Proof.
  intros H H1 H2 Hord.
  destruct (build_vocab_spec _ H) as (_ & Hwords & _ & _ & _ & Hlook & Hcount & Hsorted).
  apply Hlook in H1; apply Hlook in H2.
  rewrite Hwords in H1, H2.
  apply nth_error_map_fst in H1; destruct H1 as (c1 & H1).
  apply nth_error_map_fst in H2; destruct H2 as (c2 & H2).
  pose proof (Hcount _ _ (nth_error_In _ _ H1)) as Hc1.
  pose proof (Hcount _ _ (nth_error_In _ _ H2)) as Hc2.
  assert (Hlt : key_lt (w1, c1) (w2, c2) = true).
  { apply key_lt_iff; simpl; subst c1 c2; exact Hord. }
  destruct (Nat.lt_trichotomy i1 i2) as [Hi | [Hi | Hi]]; [exact Hi | |].
  - subst i2; rewrite H1 in H2; inversion H2; subst.
    rewrite key_lt_irrefl in Hlt; discriminate.
  - pose proof (strongly_sorted_nth Hsorted Hi H2 H1) as Hle.
    unfold key_le in Hle; congruence.
Qed.

Lemma build_vocab_order_witness : 0 < 1.
Proof.
  apply (@build_vocab_order ["b"; "a"; "b"] [("b", 0); ("a", 1)] "b" "a" 0 1);
    [reflexivity | reflexivity | reflexivity | left; simpl; lia].
Defined.

Lemma file_to_word_ids_ok (vocab : list (string * nat)) (data : list string) :
  (forall w i, lookup w vocab = inr i <-> nth_error (map fst vocab) i = Some w) ->
  (forall w, In w data -> In w (map fst vocab)) ->
  exists ids,
    _file_to_word_ids data vocab = inr ids
    /\ length ids = length data
    /\ Forall (fun i => i < length vocab) ids
    /\ map (fun i => nth i (map fst vocab) "") ids = data.
Proof.
  intros Hlook; unfold _file_to_word_ids.
  induction data as [|w data IH]; intros Hin; simpl.
  - exists []; repeat split; constructor.
  - destruct (proj2 (lookup_in_keys w vocab) (Hin w (or_introl eq_refl))) as (i & Hi).
    destruct IH as (ids & Hids & Hlen & Hall & Hback);
      [intros w' Hw'; apply Hin; right; exact Hw'|].
    rewrite Hi, Hids; simpl.
    exists (i :: ids); repeat split; simpl; [congruence | |].
    + constructor; [|exact Hall].
      apply Hlook in Hi.
      assert (Hs : nth_error (map fst vocab) i <> None) by congruence.
      apply nth_error_Some in Hs; rewrite length_map in Hs; exact Hs.
    + f_equal; [|exact Hback].
      apply Hlook in Hi; apply nth_error_nth; exact Hi.
Qed.

Lemma file_to_word_ids_error (vocab : list (string * nat)) (data : list string)
    (e : error) :
  _file_to_word_ids data vocab = inl e ->
  exists w, e = KeyError w /\ In w data /\ ~ In w (map fst vocab).
Proof.
  unfold _file_to_word_ids; induction data as [|w data IH]; simpl; [discriminate|].
  destruct (lookup w vocab) as [e'|i] eqn:Hw; simpl.
  - intros H; inversion H; subst e'.
    destruct (lookup_error _ _ Hw) as [-> Hn]; exists w; auto.
  - destruct (for_each (fun word => lookup word vocab) data) as [e'|ids]; simpl;
      [|discriminate].
    intros H; destruct (IH H) as (w' & He & Hin & Hn); exists w'; auto.
Qed.

(** A conversion that returns found every word among the keys. *)
Lemma file_to_word_ids_keys (vocab : list (string * nat)) (data : list string)
    (ids : list nat) :
  _file_to_word_ids data vocab = inr ids ->
  forall w, In w data -> In w (map fst vocab).
Proof.
  unfold _file_to_word_ids; revert ids.
  induction data as [|u data IH]; intros ids H w Hw; [contradiction|].
  simpl in H.
  destruct (lookup u vocab) as [e|i] eqn:Hl; [discriminate|]; simpl in H.
  destruct (for_each (fun word => lookup word vocab) data) as [e|ids'] eqn:Hrest;
    [discriminate|].
  destruct Hw as [<- | Hw].
  - apply lookup_in_keys; eauto.
  - apply (IH ids' eq_refl w Hw).
Qed.

(** The first word that is not a key stops the conversion. *)
Lemma file_to_word_ids_first_unknown (vocab : list (string * nat))
    (pre : list string) (w : string) (post : list string) :
  (forall u, In u pre -> In u (map fst vocab)) ->
  ~ In w (map fst vocab) ->
  _file_to_word_ids (pre ++ w :: post) vocab = inl (KeyError w).
Proof.
  unfold _file_to_word_ids; intros Hpre Hw.
  induction pre as [|u pre IH]; simpl.
  - destruct (lookup w vocab) as [e|i] eqn:Hl; simpl.
    + destruct (lookup_error _ _ Hl) as [-> _]; reflexivity.
    + exfalso; apply Hw, lookup_in_keys; eauto.
  - destruct (proj2 (lookup_in_keys u vocab) (Hpre u (or_introl eq_refl)))
      as (i & Hi).
    rewrite Hi; simpl.
    rewrite IH by (intros u' Hu'; apply Hpre; right; exact Hu').
    reflexivity.
Qed.

(** X7: with the dictionary built from [train], [_file_to_word_ids] returns
    for a word list whose words all occur in [train] one id per word, each
    below the vocabulary size, and the words of the dictionary at these ids
    are the word list again; a word list with a word that does not occur in
    [train] raises [KeyError] for the first such word; so the call returns
    exactly when every word occurs in [train]. *)
Theorem file_to_word_ids_round_trip (train : list string)
    (vocab : list (string * nat)) (data : list string) :
  _build_vocab train = inr vocab ->
  ((forall w, In w data -> In w train) ->
   exists ids,
     _file_to_word_ids data vocab = inr ids
     /\ length ids = length data
     /\ Forall (fun i => i < length vocab) ids
     /\ map (fun i => nth i (map fst vocab) "") ids = data)
  /\ (forall pre w post,
        data = pre ++ w :: post ->
        (forall u, In u pre -> In u train) -> ~ In w train ->
        _file_to_word_ids data vocab = inl (KeyError w))
  /\ ((exists ids, _file_to_word_ids data vocab = inr ids)
      <-> forall w, In w data -> In w train).
Proof.
  intros H.
  destruct (build_vocab_spec _ H) as (_ & _ & _ & _ & Hkeys & Hlook & _).
  assert (Hok : (forall w, In w data -> In w train) ->
                exists ids,
                  _file_to_word_ids data vocab = inr ids
                  /\ length ids = length data
                  /\ Forall (fun i => i < length vocab) ids
                  /\ map (fun i => nth i (map fst vocab) "") ids = data).
  { intros Hin; apply file_to_word_ids_ok; [exact Hlook|].
    intros w Hw; apply Hkeys, Hin, Hw. }
  split; [exact Hok|]. split.
  - intros pre w post -> Hpre Hw.
    apply file_to_word_ids_first_unknown.
    + intros u Hu; apply Hkeys, Hpre, Hu.
    + rewrite Hkeys; exact Hw.
  - split.
    + intros (ids & Hids) w Hw.
      apply Hkeys. exact (file_to_word_ids_keys _ _ Hids w Hw).
    + intros Hin; destruct (Hok Hin) as (ids & Hids & _); eauto.
Qed.

Lemma file_to_word_ids_round_trip_witness :
  (exists ids,
     _file_to_word_ids ["a"; "b"; "a"] [("b", 0); ("a", 1)] = inr ids
     /\ length ids = 3
     /\ Forall (fun i => i < 2) ids
     /\ map (fun i => nth i ["b"; "a"] "") ids = ["a"; "b"; "a"])
  /\ _file_to_word_ids ["a"; "c"; "b"] [("b", 0); ("a", 1)] = inl (KeyError "c").
Proof.
  split.
  - apply (proj1 (@file_to_word_ids_round_trip ["b"; "a"; "b"] [("b", 0); ("a", 1)]
                    ["a"; "b"; "a"] eq_refl)).
    simpl; intuition.
  - apply (proj1 (proj2 (@file_to_word_ids_round_trip ["b"; "a"; "b"]
                           [("b", 0); ("a", 1)] ["a"; "c"; "b"] eq_refl))
             ["a"] "c" ["b"]).
    + reflexivity.
    + simpl; intuition.
    + simpl; intros [H | [H | [H | []]]]; discriminate H.
Defined.

(** X8: [ptb_raw_data] returns exactly when the training file has a word and
    every word of the validation and test files occurs in the training file;
    it then returns one id per word of each file and the number of distinct
    training words as the vocabulary size. *)
Theorem ptb_raw_data_returns (train valid test : list string) :
  ((exists r, ptb_raw_data train valid test = inr r)
   <-> train <> [] /\ (forall w, In w valid -> In w train)
       /\ (forall w, In w test -> In w train))
  /\ forall train_data valid_data test_data vocabulary,
       ptb_raw_data train valid test
       = inr (train_data, valid_data, test_data, vocabulary) ->
       length train_data = length train /\ length valid_data = length valid
       /\ length test_data = length test
       /\ vocabulary = length (nodup string_dec train).
Proof.
  unfold ptb_raw_data; split; [split|].
  - intros (r & H).
    apply and_then_inr in H; destruct H as (vocab & Hv & H).
    apply and_then_inr in H; destruct H as (tr & Htr & H).
    apply and_then_inr in H; destruct H as (va & Hva & H).
    apply and_then_inr in H; destruct H as (te & Hte & H).
    destruct (build_vocab_spec _ Hv) as (Hne & _ & _ & _ & Hkeys & _).
    split; [exact Hne|].
    split; intros w Hw; apply Hkeys.
    + destruct (lookup_in_keys w vocab) as [Hk _]; apply Hk.
      clear - Hva Hw. unfold _file_to_word_ids in Hva.
      revert va Hva; induction valid as [|x valid IH]; simpl; intros va Hva;
        [contradiction|].
      apply and_then_inr in Hva; destruct Hva as (i & Hi & Hva).
      apply and_then_inr in Hva; destruct Hva as (ids & Hids & _).
      destruct Hw as [->|Hw]; [eauto | eapply IH; eauto].
    + destruct (lookup_in_keys w vocab) as [Hk _]; apply Hk.
      clear - Hte Hw. unfold _file_to_word_ids in Hte.
      revert te Hte; induction test as [|x test IH]; simpl; intros te Hte;
        [contradiction|].
      apply and_then_inr in Hte; destruct Hte as (i & Hi & Hte).
      apply and_then_inr in Hte; destruct Hte as (ids & Hids & _).
      destruct Hw as [->|Hw]; [eauto | eapply IH; eauto].
  - intros (Hne & Hva & Hte).
    destruct (build_vocab_returns Hne) as (vocab & Hv).
    destruct (build_vocab_spec _ Hv) as (_ & _ & _ & _ & Hkeys & Hlook & _).
    rewrite Hv; simpl.
    destruct (@file_to_word_ids_ok vocab train Hlook) as (tr & Htr & _);
      [intros w Hw; apply Hkeys, Hw|].
    destruct (@file_to_word_ids_ok vocab valid Hlook) as (va & Hva' & _);
      [intros w Hw; apply Hkeys, Hva, Hw|].
    destruct (@file_to_word_ids_ok vocab test Hlook) as (te & Hte' & _);
      [intros w Hw; apply Hkeys, Hte, Hw|].
    rewrite Htr; simpl; rewrite Hva'; simpl; rewrite Hte'; simpl; eauto.
  - intros tr va te n H.
    apply and_then_inr in H; destruct H as (vocab & Hv & H).
    apply and_then_inr in H; destruct H as (tr' & Htr & H).
    apply and_then_inr in H; destruct H as (va' & Hva & H).
    apply and_then_inr in H; destruct H as (te' & Hte & H).
    inversion H; subst; clear H.
    destruct (build_vocab_spec _ Hv) as (_ & _ & _ & Hnd & Hkeys & _).
    repeat split; try (eapply for_each_length; eassumption).
    rewrite <- (length_map fst vocab).
    apply Permutation.Permutation_length.
    apply Permutation.NoDup_Permutation; [exact Hnd | apply NoDup_nodup|].
    intros w; rewrite nodup_In; apply Hkeys.
Qed.

End ReaderFacts.

(** ** The decoders: outputs and inputs *)

Module DecoderFacts.
Import RnnDecoder RnnDecoderFacts AttentionDecoder AttentionDecoderFacts.
Open Scope nat_scope.

Section Rnn.

Variables Inp Out State : Type.
Variable cell : Inp -> State -> Out * State.

(** The loop over a list of inputs followed by more inputs: the first part
    runs as it does alone, the second part continues from its state and last
    output. *)
Lemma decode_app (loop_function : option (loop_fn Inp Out))
    (feed_prev_p : option Q) (rvs : nat -> Q) (xs ys : list Inp) :
  forall (i : nat) (st : State) (prev : option Out),
  decode cell loop_function feed_prev_p rvs i (xs ++ ys) st prev
  = (r1 <- decode cell loop_function feed_prev_p rvs i xs st prev ;;
     r2 <- decode cell loop_function feed_prev_p rvs (i + length xs) ys (state r1)
             (match rev (outputs r1) with o :: _ => Some o | [] => prev end) ;;
     Ok (Run (fed r1 ++ fed r2) (outputs r1 ++ outputs r2) (state r2))).
Proof.
  induction xs as [|x xs IH]; intros i st prev; cbn -[step_input].
  - rewrite Nat.add_0_r.
    destruct (decode cell loop_function feed_prev_p rvs i ys st prev) as [[f o s]|e];
      reflexivity.
  - destruct (step_input loop_function feed_prev_p (rvs i) prev x i) as [inp|e];
      simpl; [|reflexivity].
    destruct (cell inp st) as [output st'].
    rewrite IH.
    destruct (decode cell loop_function feed_prev_p rvs (S i) xs st' (Some output))
      as [[f1 o1 s1]|e]; simpl; [|reflexivity].
    rewrite <- ?plus_n_Sm; simpl.
    replace (match rev o1 ++ [output] with o :: _ => Some o | [] => prev end)
      with (match rev o1 with o :: _ => Some o | [] => Some output end)
      by (destruct (rev o1); reflexivity).
    match goal with
    | |- context [decode cell loop_function feed_prev_p rvs ?n ys ?s ?p] =>
        destruct (decode cell loop_function feed_prev_p rvs n ys s p)
          as [[f2 o2 s2]|e]
    end; reflexivity.
Qed.

(** X9: the outputs and the inputs fed at the steps of a prefix of the
    decoder inputs do not depend on the inputs after it: a run of
    [rnn_decoder] on [xs ++ ys] that returns begins with the run on [xs],
    for every loop function and sampling probability. *)
Theorem rnn_decoder_prefix (xs ys : list Inp) (initial_state : State)
    (loop_function : option (loop_fn Inp Out)) (feed_prev_p : option Q)
    (rvs : nat -> Q) (r : run Inp Out State) :
  rnn_decoder_run cell (xs ++ ys) initial_state loop_function feed_prev_p rvs = Ok r ->
  exists r1,
    rnn_decoder_run cell xs initial_state loop_function feed_prev_p rvs = Ok r1
    /\ outputs r1 = firstn (length xs) (outputs r)
    /\ fed r1 = firstn (length xs) (fed r).
Proof.
  unfold rnn_decoder_run; rewrite decode_app; intros H.
  apply bind_ok_inv in H; destruct H as (r1 & H1 & H).
  apply bind_ok_inv in H; destruct H as (r2 & H2 & H).
  inversion H; subst r; clear H; simpl.
  destruct (decode_lengths _ _ _ _ _ _ _ _ H1) as [Ho Hf].
  exists r1; repeat split; [exact H1 | |].
  - rewrite <- Ho, firstn_app, Nat.sub_diag, firstn_all; simpl.
    rewrite app_nil_r; reflexivity.
  - rewrite <- Hf, firstn_app, Nat.sub_diag, firstn_all; simpl.
    rewrite app_nil_r; reflexivity.
Qed.

(** With a loop function and no sampling, the loop after its first step
    does not look at the inputs. *)
Lemma decode_ignores_inputs (f : loop_fn Inp Out) (rvs : nat -> Q)
    (xs : list Inp) :
  forall (ys : list Inp) (i : nat) (st : State) (prev : Out),
  length xs = length ys ->
  match decode cell (Some f) None rvs i xs st (Some prev),
        decode cell (Some f) None rvs i ys st (Some prev) with
  | Ok r, Ok r' => fed r = fed r' /\ outputs r = outputs r' /\ state r = state r'
  | _, _ => False
  end.
Proof.
  induction xs as [|x xs IH]; intros [|y ys] i st prev Hlen; try discriminate;
    cbn -[step_input].
  - auto.
  - rewrite !step_input_feed_previous; simpl.
    destruct (cell (f prev i) st) as [output st'].
    specialize (IH ys (S i) st' output (f_equal pred Hlen)).
    destruct (decode cell (Some f) None rvs (S i) xs st' (Some output)) as [r|];
      destruct (decode cell (Some f) None rvs (S i) ys st' (Some output)) as [r'|];
      try contradiction.
    destruct IH as (Hf & Ho & Hs); simpl; rewrite Hf, Ho, Hs; auto.
Qed.

(** X10: with a loop function and without scheduled sampling [rnn_decoder]
    uses only the first decoder input and the number of inputs: two input
    lists of the same length with the same first element give the same
    outputs and final state, and the call never raises. *)
Theorem rnn_decoder_feed_previous_ignores_inputs (f : loop_fn Inp Out)
    (rvs : nat -> Q) (go : Inp) (xs ys : list Inp) (initial_state : State) :
  length xs = length ys ->
  rnn_decoder cell (go :: xs) initial_state (Some f) None rvs
  = rnn_decoder cell (go :: ys) initial_state (Some f) None rvs
  /\ exists outs st,
       rnn_decoder cell (go :: xs) initial_state (Some f) None rvs = Ok (outs, st).
Proof.
  intros Hlen; unfold rnn_decoder, rnn_decoder_run; cbn -[step_input].
  rewrite step_input_first; simpl.
  destruct (cell go initial_state) as [output st'].
  pose proof (@decode_ignores_inputs f rvs xs ys 1 st' output Hlen) as H.
  destruct (decode cell (Some f) None rvs 1 xs st' (Some output)) as [r|];
    destruct (decode cell (Some f) None rvs 1 ys st' (Some output)) as [r'|];
    try contradiction.
  destruct H as (Hf & Ho & Hs); simpl; rewrite Ho, Hs; eauto.
Qed.

End Rnn.

Lemma rnn_decoder_prefix_witness :
  exists r1,
    rnn_decoder_run Samples.counting_cell [tt] 0 None None Samples.half = Ok r1
    /\ outputs r1 = firstn 1 [tt; tt]
    /\ fed r1 = firstn 1 [tt; tt].
Proof.
  apply (@rnn_decoder_prefix unit unit nat Samples.counting_cell [tt] [tt] 0 None
           None Samples.half (Run [tt; tt] [tt; tt] 2)).
  reflexivity.
Defined.

Lemma rnn_decoder_feed_previous_ignores_inputs_witness :
  rnn_decoder Samples.scoring_cell ([[1%Q]] :: [[[2%Q]]; [[2%Q]]]) 0
    (Some (_extract_argmax_and_embed Samples.embedding None true)) None Samples.half
  = rnn_decoder Samples.scoring_cell ([[1%Q]] :: [[[1%Q]]; [[3%Q]]]) 0
      (Some (_extract_argmax_and_embed Samples.embedding None true)) None Samples.half
  /\ exists outs st,
       rnn_decoder Samples.scoring_cell ([[1%Q]] :: [[[2%Q]]; [[2%Q]]]) 0
         (Some (_extract_argmax_and_embed Samples.embedding None true)) None
         Samples.half = Ok (outs, st).
Proof.
  apply (@rnn_decoder_feed_previous_ignores_inputs _ _ _ Samples.scoring_cell
           (_extract_argmax_and_embed Samples.embedding None true) Samples.half
           [[1%Q]] [[[2%Q]]; [[2%Q]]] [[[1%Q]]; [[3%Q]]] 0).
  reflexivity.
Defined.

Section Attention.

Variables Inp X CellOut State Attn Out BowMask : Type.
Variable static_width : Inp -> option nat.
Variable linear_merge : Inp -> list Attn -> nat -> X.
Variable cell : X -> State -> CellOut * State.
Variable query_ndims : State -> option (list (option nat)).
Variable attention_reads : State -> list Attn.
Variable maxout_output : CellOut -> Inp -> list Attn -> Out.
Variable linear_output : CellOut -> list Attn -> Out.
Variable mask_output : Out -> BowMask -> Out.
Variable zero_attn : Attn.
Variable bow_state : cell_kind -> State.
Variable dec_init : State.

#[local] Abbreviation args := (arguments Inp State Out BowMask).
#[local] Abbreviation loop := (steps static_width linear_merge cell query_ndims
                                 attention_reads maxout_output linear_output
                                 mask_output).
#[local] Abbreviation decoder := (attention_decoder static_width linear_merge cell
                                    query_ndims attention_reads maxout_output
                                    linear_output mask_output zero_attn bow_state
                                    dec_init).

(** X11: when [attention_decoder] returns, it returns one output per decoder
    input, after as many iterations; there was at least one input and one
    head. *)
Theorem attention_decoder_outputs_length (a : args) (n : nat) (outs : list Out)
    (st : State) :
  decoder a = Ending n (Ok (outs, st)) ->
  length outs = length (decoder_inputs a) /\ n = length (decoder_inputs a)
  /\ decoder_inputs a <> [] /\ (1 <= num_heads a)%Z.
Proof.
  intros H.
  destruct (decoder_cases static_width linear_merge cell query_ndims
              attention_reads maxout_output linear_output mask_output zero_attn
              bow_state dec_init a)
    as [[_ (e & He)] | (Hin & Hh & _ & _ & _ & _ & st0 & attns & Hd)].
  - rewrite He in H; discriminate.
  - rewrite Hd in H; apply steps_ok_entered in H; simpl in H.
    destruct H as [Hn Hl]; repeat split; auto.
Qed.

Lemma steps_with_inputs (a : args) (l inputs : list Inp) :
  forall i st attns prev,
  loop (with_inputs a l) i inputs st attns prev = loop a i inputs st attns prev.
Proof.
  induction inputs as [|inp rest IH]; intros i st attns prev; simpl;
    [reflexivity|].
  match goal with
  | |- context [static_width ?x] => destruct (static_width x) as [w|]
  end; [|reflexivity].
  match goal with
  | |- context [cell ?x ?s] => destruct (cell x s) as [cell_output st']
  end.
  destruct (attention query_ndims attention_reads st'); [|reflexivity].
  rewrite IH; reflexivity.
Qed.

Lemma steps_ignore_inputs (a : args) (f : Out -> nat -> Inp) (xs : list Inp) :
  loop_function a = Some f ->
  forall (ys : list Inp) i st attns (prev : Out),
  length xs = length ys ->
  loop a i xs st attns (Some prev) = loop a i ys st attns (Some prev).
Proof.
  intros Hf; induction xs as [|x xs IH]; intros [|y ys] i st attns prev Hlen;
    try discriminate; simpl; [reflexivity|].
  rewrite Hf.
  destruct (static_width (f prev i)) as [w|]; [|reflexivity].
  destruct (cell (linear_merge (f prev i) attns w) st) as [cell_output st'].
  destruct (attention query_ndims attention_reads st'); [|reflexivity].
  rewrite (IH ys) by (simpl in Hlen; lia). reflexivity.
Qed.

(** X12: with a loop function [attention_decoder] uses only the first decoder
    input and the number of inputs: calls that differ in the inputs after the
    first, of which there are equally many, end the same way. *)
Theorem attention_decoder_feed_previous_ignores_inputs (a : args)
    (f : Out -> nat -> Inp) (go : Inp) (xs ys : list Inp) :
  loop_function a = Some f -> length xs = length ys ->
  decoder (with_inputs a (go :: xs)) = decoder (with_inputs a (go :: ys)).
Proof.
  intros Hf Hlen; unfold attention_decoder, init_state; simpl.
  destruct (num_heads a <? 1)%Z; [reflexivity|].
  destruct (attn_size a); [|reflexivity].
  destruct (attn_length a); [|reflexivity].
  assert (Hloop : forall st attns,
            loop (with_inputs a (go :: xs)) 0 (go :: xs) st attns None
            = loop (with_inputs a (go :: ys)) 0 (go :: ys) st attns None).
  { intros st attns; rewrite !steps_with_inputs; simpl.
    rewrite Hf.
    destruct (static_width go) as [w|]; [|reflexivity].
    destruct (cell (linear_merge go attns w) st) as [cell_output st'].
    destruct (attention query_ndims attention_reads st'); [|reflexivity].
    rewrite (@steps_ignore_inputs a f xs Hf ys) by exact Hlen.
    reflexivity. }
  assert (Hfrom : forall st,
            match (if initial_state_attention a
                   then attention query_ndims attention_reads (initial_state a)
                   else Ok (repeat zero_attn (Z.to_nat (num_heads a)))) with
            | Raise e => Ending 0 (Raise e)
            | Ok attns => loop (with_inputs a (go :: xs)) 0 (go :: xs) st attns None
            end
            = match (if initial_state_attention a
                     then attention query_ndims attention_reads (initial_state a)
                     else Ok (repeat zero_attn (Z.to_nat (num_heads a)))) with
              | Raise e => Ending 0 (Raise e)
              | Ok attns => loop (with_inputs a (go :: ys)) 0 (go :: ys) st attns None
              end).
  { intros st.
    destruct (if initial_state_attention a
              then attention query_ndims attention_reads (initial_state a)
              else Ok (repeat zero_attn (Z.to_nat (num_heads a))));
      [apply Hloop | reflexivity]. }
  destruct (String.eqb (encoder a) "bow"); [|apply Hfrom].
  destruct (init_const a); [apply Hfrom|].
  destruct (bow_init_supported (cell_class a)); [apply Hfrom | reflexivity].
Qed.

End Attention.

Lemma attention_decoder_outputs_length_witness :
  length [tt; tt] = length [Some 3; Some 5] /\ 2 = length [Some 3; Some 5]
  /\ [Some 3; Some 5] <> [] /\ (1 <= 1)%Z.
Proof.
  apply (@attention_decoder_outputs_length _ _ _ _ _ _ _ Samples.width_of
           (fun _ _ _ => tt) Samples.unit_cell Samples.state_ndims
           (fun _ => [tt]) (fun _ _ _ => tt)
           (fun _ _ => tt) (fun o _ => o) tt (fun _ => 0) 0
           (Samples.attention_arguments [Some 3; Some 5] OtherCell "reverse")
           2 [tt; tt] 2).
  reflexivity.
Defined.

Lemma attention_decoder_feed_previous_ignores_inputs_witness :
  Samples.run_attention_decoder
    (with_inputs Samples.feeding_arguments (Some 3 :: [Some 5; None]))
  = Samples.run_attention_decoder
      (with_inputs Samples.feeding_arguments (Some 3 :: [None; Some 7])).
Proof.
  apply (@attention_decoder_feed_previous_ignores_inputs _ _ _ _ _ _ _
           Samples.width_of (fun _ _ _ => tt) Samples.unit_cell
           Samples.state_ndims (fun _ => [tt])
           (fun _ _ _ => tt) (fun _ _ => tt) (fun o _ => o) tt (fun _ => 0) 0
           Samples.feeding_arguments (fun _ _ => Some 3) (Some 3)
           [Some 5; None] [None; Some 7]);
    reflexivity.
Defined.

End DecoderFacts.

(** ** Padding in the sequence loss *)

Module PaddingFacts.
Import Tensor TensorFacts SequenceLoss SequenceLossFacts.
Open Scope R_scope.

(** Steps at which batch element [b] has weight 0 or the same cross-entropy
    add the same to its weighted sum. *)
Lemma weighted_sum_at_ext (b : nat) (weights : list vec) :
  forall crossents crossents' : list vec,
  length crossents = length weights -> length crossents' = length weights ->
  Forall2 (fun cc w => nth b w 0 = 0 \/ nth b (fst cc) 0 = nth b (snd cc) 0)
          (combine crossents crossents') weights ->
  weighted_sum_at b crossents weights = weighted_sum_at b crossents' weights.
Proof.
  unfold weighted_sum_at, column.
  induction weights as [|w ws IH]; intros [|c cs] [|c' cs'] Hl Hl' HF;
    simpl in *; try discriminate; [reflexivity|].
  inversion HF as [|? ? ? ? Hhd Htl]; subst; simpl in Hhd.
  rewrite (IH cs cs') by (auto; lia).
  destruct Hhd as [Hw | Hc]; [rewrite Hw; ring | rewrite Hc; reflexivity].
Qed.

Section Facts.

Variable Logit : Type.
Variable xent : Logit -> target -> result vec.
Variable slf : option (loss_function Logit).

(** X13: the loss [sequence_loss_by_example] returns for batch element [b]
    does not depend on the logits and targets of the steps at which the
    weight of [b] is 0: two calls with the same weights whose cross-entropies
    agree at [b] in every step of non-zero weight return the same loss for
    [b]. *)
Theorem zero_weight_steps_do_not_count (B b : nat) (logits logits' : list Logit)
    (targets targets' : list target) (weights crossents crossents' : list vec)
    (avg : bool) :
  logits <> [] ->
  length targets = length logits -> length weights = length logits ->
  length targets' = length logits' -> length weights = length logits' ->
  Forall (fun w => length w = B) weights ->
  crossents_are xent slf B logits targets crossents ->
  crossents_are xent slf B logits' targets' crossents' ->
  (b < B)%nat ->
  Forall2 (fun cc w => nth b w 0 = 0 \/ nth b (fst cc) 0 = nth b (snd cc) 0)
          (combine crossents crossents') weights ->
  exists r r',
    sequence_loss_by_example xent logits targets weights avg slf = Ok r
    /\ sequence_loss_by_example xent logits' targets' weights avg slf = Ok r'
    /\ nth b r 0 = nth b r' 0.
Proof.
  intros Hne Ht Hw Ht' Hw' HW HC HC' Hb HF.
  assert (Hne' : logits' <> []).
  { destruct logits', logits; simpl in *; congruence. }
  rewrite (@sequence_loss_by_example_ok Logit xent slf B logits targets weights
             crossents avg Hne Ht Hw HW HC).
  rewrite (@sequence_loss_by_example_ok Logit xent slf B logits' targets' weights
             crossents' avg Hne' Ht' Hw' HW HC').
  do 2 eexists; split; [reflexivity | split; [reflexivity|]].
  rewrite !(@ReaderFacts.nth_map_seq _ _ _ _ 0 Hb).
  destruct (crossents_length Ht HC) as [Hlc _].
  destruct (crossents_length Ht' HC') as [Hlc' _].
  unfold example_loss_at.
  rewrite (@weighted_sum_at_ext b weights crossents crossents') by (auto; congruence).
  reflexivity.
Qed.

(** X14: a batch element whose weights are all 0 (a fully padded example)
    gets the loss 0, with and without averaging over the steps. *)
Theorem fully_padded_example_has_loss_zero (B b : nat) (logits : list Logit)
    (targets : list target) (weights crossents : list vec) (avg : bool) :
  logits <> [] ->
  length targets = length logits -> length weights = length logits ->
  Forall (fun w => length w = B) weights ->
  crossents_are xent slf B logits targets crossents ->
  (b < B)%nat ->
  Forall (fun w => nth b w 0 = 0) weights ->
  exists r,
    sequence_loss_by_example xent logits targets weights avg slf = Ok r
    /\ nth b r 0 = 0.
Proof.
  intros Hne Ht Hw HW HC Hb Hzero.
  rewrite (@sequence_loss_by_example_ok Logit xent slf B logits targets weights
             crossents avg Hne Ht Hw HW HC).
  eexists; split; [reflexivity|].
  rewrite (@ReaderFacts.nth_map_seq _ _ _ _ 0 Hb).
  destruct (crossents_length Ht HC) as [Hlc _].
  assert (Hsum : weighted_sum_at b crossents weights = 0).
  { unfold weighted_sum_at, column.
    assert (Hl : length crossents = length weights) by congruence.
    clear - Hl Hzero. revert crossents Hl.
    induction Hzero as [|w ws Hw0 _ IH]; intros [|c cs] Hl; simpl in *;
      try discriminate; [reflexivity|].
    rewrite IH by lia. rewrite Hw0; ring. }
  unfold example_loss_at; rewrite Hsum.
  destruct avg; [unfold Rdiv; ring | reflexivity].
Qed.

End Facts.

Lemma zero_weight_steps_do_not_count_witness :
  exists r r',
    sequence_loss_by_example sample_loss sample_logits sample_targets
      sample_weights true None = Ok r
    /\ sequence_loss_by_example sample_loss sample_logits [[0; 5]; [1; 7]]%Z
         sample_weights true None = Ok r'
    /\ nth 1 r 0 = nth 1 r' 0.
Proof.
  apply (@zero_weight_steps_do_not_count unit sample_loss None 2 1 sample_logits
           sample_logits sample_targets [[0; 5]; [1; 7]]%Z sample_weights
           sample_crossents [[0; 5]; [1; 7]] true);
    try reflexivity; try discriminate; try lia;
    repeat constructor.
Defined.

Lemma fully_padded_example_has_loss_zero_witness :
  exists r,
    sequence_loss_by_example sample_loss sample_logits sample_targets
      sample_weights true None = Ok r
    /\ nth 1 r 0 = 0.
Proof.
  apply (@fully_padded_example_has_loss_zero unit sample_loss None 2 1
           sample_logits sample_targets sample_weights sample_crossents true);
    try reflexivity; try discriminate; try lia;
    repeat constructor.
Defined.

End PaddingFacts.

(** ** Bounds of the KL objective *)

Module KlFacts.
Import Tensor TensorFacts Vae VaeFacts.
Open Scope R_scope.

Lemma kl_loss_entries_nonneg (z_mean z_log_var : matrix) :
  Forall (Forall (fun k => 0 <= k)) (kl_loss_of z_mean z_log_var).
Proof.
  assert (H : forall mean log_var : R, 0 <= kl_unit mean log_var).
  { intros mean log_var; unfold kl_unit.
    pose proof (exp_ineq1_le log_var); pose proof (Rle_0_sqr mean); lra. }
  unfold kl_loss_of, mmap2.
  revert z_log_var; induction z_mean as [|r rs IH]; intros [|r' rs']; simpl;
    constructor; auto.
  clear IH; revert r'; induction r as [|m r IH]; intros [|lv r']; simpl;
    constructor; auto.
Qed.

Lemma sum_R_lower (c : R) (xs : list R) :
  Forall (fun x => c <= x) xs -> INR (length xs) * c <= sum_R xs.
Proof.
  induction 1 as [|x xs Hx _ IH]; [simpl; lra|].
  change (length (x :: xs)) with (S (length xs)); rewrite S_INR; simpl; lra.
Qed.

Lemma col_nonneg (j : nat) (m : matrix) :
  Forall (Forall (fun k => 0 <= k)) m -> Forall (fun x => 0 <= x) (col j m).
Proof.
  unfold col; induction 1 as [|row rows Hrow _ IH]; simpl; constructor; auto.
  destruct (Nat.lt_ge_cases j (length row)) as [Hj|Hj].
  - rewrite Forall_forall in Hrow; apply Hrow, nth_In, Hj.
  - rewrite nth_overflow by exact Hj; lra.
Qed.

(** X15: for a non-empty batch with [L] latent units, [kl_obj] without
    annealing is at least [L * kl_min] when [kl_min > 0], however small the
    KL values are, and it is never negative for the [kl_loss] of any
    [z_mean] and [z_log_var]; with an annealing coefficient [a >= 0] the
    two bounds are multiplied by [a]. *)
Theorem kl_obj_lower_bounds (L : nat) (z_mean z_log_var : matrix) (kl_min : R)
    (anneal_scale : option R) :
  let kl_loss := kl_loss_of z_mean z_log_var in
  let a := match anneal_scale with Some a => a | None => 1 end in
  kl_loss <> [] -> Forall (fun r => length r = L) kl_loss -> 0 <= a ->
  0 <= kl_obj_of kl_loss kl_min anneal_scale
  /\ (0 < kl_min -> a * (INR L * kl_min) <= kl_obj_of kl_loss kl_min anneal_scale).
Proof.
  intros kl_loss a Hne Hrect Ha.
  pose proof (kl_loss_entries_nonneg z_mean z_log_var) as Hpos. fold kl_loss in Hpos.
  unfold kl_obj_of; rewrite (reduce_mean_0_columns Hne Hrect).
  set (means := map (fun j => sum_R (col j kl_loss) / INR (length kl_loss)) (seq 0 L)).
  assert (Hn : 0 < INR (length kl_loss)).
  { apply lt_0_INR; destruct kl_loss; simpl; [congruence | lia]. }
  assert (Hmeans : Forall (fun x => 0 <= x) means).
  { unfold means; apply Forall_forall; intros x Hx.
    apply in_map_iff in Hx; destruct Hx as (j & <- & _).
    pose proof (sum_R_lower (col_nonneg j Hpos)) as Hs.
    apply Rmult_le_pos; [lra | left; apply Rinv_0_lt_compat; exact Hn]. }
  assert (Hlen : length means = L) by (unfold means; rewrite length_map, length_seq; reflexivity).
  assert (Hsum : 0 <= reduce_sum means).
  { pose proof (sum_R_lower Hmeans) as Hs; unfold reduce_sum; lra. }
  assert (Hfloor : 0 < kl_min -> INR L * kl_min <= reduce_sum (maximum means kl_min)).
  { intros Hk; unfold reduce_sum, maximum.
    rewrite <- Hlen, <- (length_map (fun x => Rmax x kl_min) means).
    apply sum_R_lower, Forall_forall; intros x Hx.
    apply in_map_iff in Hx; destruct Hx as (y & <- & _); apply Rmax_r. }
  assert (HL : 0 <= INR L) by apply pos_INR.
  destruct (Rlt_dec 0 kl_min) as [Hk|Hk].
  - specialize (Hfloor Hk).
    assert (0 <= INR L * kl_min) by (apply Rmult_le_pos; lra).
    destruct anneal_scale as [s|]; unfold a in *; split; try intros _; nra.
  - destruct anneal_scale as [s|]; unfold a in *; split; try (intros; lra); nra.
Qed.

Lemma kl_obj_lower_bounds_witness :
  0 <= kl_obj_of (kl_loss_of Samples.z_mean Samples.z_log_var) 1 (Some (1 / 2))
  /\ (0 < 1 ->
      1 / 2 * (INR 2 * 1)
      <= kl_obj_of (kl_loss_of Samples.z_mean Samples.z_log_var) 1 (Some (1 / 2))).
Proof.
  apply (@kl_obj_lower_bounds 2 Samples.z_mean Samples.z_log_var 1 (Some (1 / 2)));
    [discriminate | repeat constructor | lra].
Defined.

End KlFacts.

(** ** Inputs beyond the buckets *)

Module TruncationFacts.
Import Tensor SequenceLoss Buckets.
Open Scope nat_scope.

Lemma firstn_app_le (A : Type) (n : nat) (xs ys : list A) :
  n <= length xs -> firstn n (xs ++ ys) = firstn n xs.
Proof.
  intros Hn; rewrite firstn_app.
  replace (n - length xs) with 0 by lia; simpl; apply app_nil_r.
Qed.

Lemma mapM_ext_in (A B : Type) (f g : A -> result B) (xs : list A) :
  (forall x, In x xs -> f x = g x) -> mapM f xs = mapM g xs.
Proof.
  induction xs as [|x xs IH]; simpl; intros H; [reflexivity|].
  rewrite (H x (or_introl eq_refl)), IH; [reflexivity|].
  intros y Hy; apply H; right; exact Hy.
Qed.

Section Facts.

Variables EncInp DecInp Logit State EncStates Prob : Type.
Variable xent : Logit -> target -> result vec.

(** X16: [model_with_buckets_states] reads of every input list only what the
    buckets ask for: when the four lists are as long as every bucket needs,
    elements appended to them change nothing in what the call returns or
    raises. *)
Theorem inputs_beyond_the_buckets_are_ignored (encoder_inputs more_enc : list EncInp)
    (decoder_inputs more_dec : list DecInp) (targets more_targets : list target)
    (weights more_weights : list vec) (buckets : list bucket)
    (seq2seq : seq2seq_fn EncInp DecInp Logit State EncStates Prob)
    (slf : option (loss_function Logit)) (per_example_loss : bool)
    (encoder_states : option EncStates) (feed_prev_p : option Prob) :
  (forall b, In b buckets ->
     fst b <= length encoder_inputs /\ snd b <= length decoder_inputs
     /\ snd b <= length targets /\ snd b <= length weights) ->
  model_with_buckets_states xent (encoder_inputs ++ more_enc)
    (decoder_inputs ++ more_dec) (targets ++ more_targets)
    (weights ++ more_weights) buckets seq2seq slf per_example_loss
    encoder_states feed_prev_p
  = model_with_buckets_states xent encoder_inputs decoder_inputs targets weights
      buckets seq2seq slf per_example_loss encoder_states feed_prev_p.
Proof.
  intros Hfit; unfold model_with_buckets_states.
  destruct (last_item buckets) as [last_bucket|e] eqn:Hlast; simpl; [|reflexivity].
  destruct (last_item_ok_inv _ Hlast) as (front & Hfront).
  destruct (Hfit last_bucket) as (He & Hd & Ht & Hw).
  { rewrite Hfront; apply in_or_app; right; left; reflexivity. }
  rewrite !length_app.
  destruct (Nat.ltb_spec (length encoder_inputs + length more_enc) (fst last_bucket));
    [lia|].
  destruct (Nat.ltb_spec (length encoder_inputs) (fst last_bucket)); [lia|].
  destruct (Nat.ltb_spec (length targets + length more_targets) (snd last_bucket));
    [lia|].
  destruct (Nat.ltb_spec (length targets) (snd last_bucket)); [lia|].
  destruct (Nat.ltb_spec (length weights + length more_weights) (snd last_bucket));
    [lia|].
  destruct (Nat.ltb_spec (length weights) (snd last_bucket)); [lia|].
  rewrite (@mapM_ext_in _ _
             (run_bucket xent (encoder_inputs ++ more_enc) (decoder_inputs ++ more_dec)
                (targets ++ more_targets) (weights ++ more_weights) seq2seq slf
                per_example_loss encoder_states feed_prev_p)
             (run_bucket xent encoder_inputs decoder_inputs targets weights seq2seq
                slf per_example_loss encoder_states feed_prev_p));
    [reflexivity|].
  intros b Hb; destruct (Hfit b Hb) as (Hbe & Hbd & Hbt & Hbw).
  unfold run_bucket.
  rewrite !firstn_app_le by assumption. reflexivity.
Qed.

End Facts.

Lemma inputs_beyond_the_buckets_are_ignored_witness :
  model_with_buckets_states sample_loss (Samples.encoder_inputs ++ [tt])
    (Samples.encoder_inputs ++ [tt; tt]) (sample_targets ++ [[7; 7]]%Z)
    (sample_weights ++ [[1; 1]]%R) Samples.buckets Samples.seq2seq None false
    None None
  = model_with_buckets_states sample_loss Samples.encoder_inputs
      Samples.encoder_inputs sample_targets sample_weights Samples.buckets
      Samples.seq2seq None false None None.
Proof.
  apply (@inputs_beyond_the_buckets_are_ignored unit unit unit nat unit Q
           sample_loss Samples.encoder_inputs [tt] Samples.encoder_inputs [tt; tt]
           sample_targets [[7; 7]]%Z sample_weights [[1; 1]]%R Samples.buckets
           Samples.seq2seq None false None None).
  intros b [Hb | [Hb | []]]; subst b; simpl; lia.
Defined.

End TruncationFacts.

(** ** The attention context *)

Module ContextFacts.
Import Tensor TensorFacts Attention AttentionFacts.
Open Scope R_scope.

Lemma context_row_entries (attn_size : nat) (pairs : list (R * vec)) :
  Forall (fun ah => length (snd ah) = attn_size) pairs ->
  let d := fold_right (fun ah acc => map2 Rplus (map (Rmult (fst ah)) (snd ah)) acc)
                      (repeat 0 attn_size) pairs in
  length d = attn_size
  /\ forall k, (k < attn_size)%nat ->
       nth k d 0 = sum_R (map (fun ah => fst ah * nth k (snd ah) 0) pairs).
Proof.
  induction 1 as [|[a h] pairs Hh _ [IHl IHn]]; simpl.
  - split; [apply repeat_length|].
    intros k Hk; apply nth_repeat.
  - simpl in Hh. split.
    + rewrite map2_length; rewrite length_map; congruence.
    + intros k Hk.
      rewrite map2_nth by (rewrite length_map; congruence).
      rewrite IHn by exact Hk. f_equal.
      rewrite (nth_indep _ 0 (a * 0)) by (rewrite length_map; lia).
      apply (map_nth (Rmult a)).
Qed.

Lemma weighted_average_bounds (lo hi : R) (k : nat) (pairs : list (R * vec)) :
  Forall (fun ah => 0 <= fst ah /\ lo <= nth k (snd ah) 0 <= hi) pairs ->
  lo * sum_R (map fst pairs)
  <= sum_R (map (fun ah => fst ah * nth k (snd ah) 0) pairs)
  <= hi * sum_R (map fst pairs).
Proof.
  induction 1 as [|[a h] pairs [Ha Hx] _ IH]; simpl in *; [lra|nra].
Qed.

Lemma map_fst_combine (a_b : vec) (hidden_b : list vec) :
  length a_b = length hidden_b -> map fst (combine a_b hidden_b) = a_b.
Proof.
  revert hidden_b; induction a_b as [|a a_b IH]; intros [|h hs] Hl; simpl in *;
    try discriminate; [reflexivity|].
  f_equal; apply IH; lia.
Qed.

(** A context vector of weights that are not negative and sum to one lies,
    component by component, between the bounds of the attention states. *)
Lemma context_row_bounds (attn_size : nat) (lo hi : R) (a_b : vec)
    (hidden_b : list vec) :
  length a_b = length hidden_b -> sum_R a_b = 1 ->
  Forall (fun a => 0 < a) a_b ->
  Forall (fun h => length h = attn_size /\ Forall (fun x => lo <= x <= hi) h) hidden_b ->
  length (context_row attn_size a_b hidden_b) = attn_size
  /\ Forall (fun x => lo <= x <= hi) (context_row attn_size a_b hidden_b).
Proof.
  intros Hlen Hsum Hpos Hhid; unfold context_row.
  assert (Hshape : Forall (fun ah : R * vec => length (snd ah) = attn_size)
                          (combine a_b hidden_b)).
  { apply Forall_forall; intros [a h] Hin; simpl.
    apply in_combine_r in Hin. rewrite Forall_forall in Hhid.
    apply (Hhid h Hin). }
  destruct (context_row_entries Hshape) as [Hl Hn].
  split; [exact Hl|].
  apply Forall_forall; intros x Hx.
  destruct (In_nth _ _ 0 Hx) as (k & Hk & <-).
  rewrite Hl in Hk. rewrite (Hn k Hk).
  assert (Hb : Forall (fun ah : R * vec =>
                         0 <= fst ah /\ lo <= nth k (snd ah) 0 <= hi)
                      (combine a_b hidden_b)).
  { apply Forall_forall; intros [a h] Hin; simpl.
    pose proof (in_combine_l _ _ _ _ Hin) as Ha.
    pose proof (in_combine_r _ _ _ _ Hin) as Hh.
    rewrite Forall_forall in Hpos, Hhid.
    destruct (Hhid h Hh) as [Hhl Hhb].
    split; [left; apply Hpos, Ha|].
    rewrite Forall_forall in Hhb; apply Hhb, nth_In; lia. }
  pose proof (@weighted_average_bounds lo hi k _ Hb) as Hw.
  rewrite (map_fst_combine _ _ Hlen), Hsum in Hw. lra.
Qed.

(** X17: every context vector that [attention] returns is a weighted average
    of the attention states of its batch element: it has [attn_size]
    components and each lies between any bounds [lo] and [hi] that hold for
    the attention states, given as many weights as source positions, at
    least one. *)
Theorem attention_context_is_an_average (hidden : list (list vec))
    (hidden_features : list (list (list vec))) (v : list vec)
    (linear : nat -> matrix -> matrix) (src_mask : option matrix)
    (num_heads attn_size : nat) (q : query) (lo hi : R) :
  (forall i, (i < num_heads)%nat ->
     Forall2 (fun a_b hidden_b => length a_b = length hidden_b /\ a_b <> [])
             (attention_mask hidden_features v linear src_mask i q) hidden) ->
  Forall (Forall (fun h => length h = attn_size
                           /\ Forall (fun x => lo <= x <= hi) h)) hidden ->
  Forall (Forall (fun d => length d = attn_size
                           /\ Forall (fun x => lo <= x <= hi) d))
         (attention hidden hidden_features v linear src_mask num_heads attn_size q).
Proof.
  intros Hshape Hhid; unfold attention.
  apply Forall_forall; intros ds Hds.
  apply in_map_iff in Hds; destruct Hds as (i & <- & Hi).
  apply in_seq in Hi.
  specialize (Hshape i (proj2 Hi)).
  pose proof (attention_mask_normalized_positive hidden_features v linear src_mask i q)
    as Hnorm.
  unfold weighted.
  revert Hnorm Hhid.
  induction Hshape as [|a_b hidden_b a hid [Hlen Hne] _ IH]; intros Hnorm Hhid;
    simpl; constructor.
  - inversion Hnorm as [|? ? [Hsum Hpos] _]; inversion Hhid as [|? ? Hh _]; subst.
    apply (@context_row_bounds attn_size lo hi a_b hidden_b Hlen (Hsum Hne) Hpos Hh).
  - inversion Hnorm; inversion Hhid; subst; apply IH; assumption.
Qed.

Lemma attention_context_is_an_average_witness :
  Forall (Forall (fun d => length d = 1%nat /\ Forall (fun x => 3 <= x <= 5) d))
         (attention Samples.hidden Samples.hidden_features Samples.attn_v
            Samples.attn_linear Samples.src_mask 1 1 Samples.attn_query).
Proof.
  apply (@attention_context_is_an_average Samples.hidden Samples.hidden_features
           Samples.attn_v Samples.attn_linear Samples.src_mask 1 1
           Samples.attn_query 3 5).
  - intros i Hi; assert (i = 0%nat) by lia; subst i.
    rewrite masked_position_gets_weight.
    repeat constructor; discriminate.
  - repeat constructor; lra.
Defined.

End ContextFacts.

(** ** The decoder state for the bag-of-words encoder *)

Module BowInitFacts.
Import Tensor TensorFacts Attention AttentionFacts AttentionDecoder BowInit ContextFacts.
Open Scope R_scope.

Lemma sum_exp_repeat (x : R) (n : nat) :
  sum_R (map exp (repeat x n)) = INR n * exp x.
Proof.
  induction n as [|n IH]; [simpl; ring|].
  change (repeat x (S n)) with (x :: repeat x n).
  rewrite S_INR; simpl; rewrite IH; ring.
Qed.

Lemma softmax_row_repeat (x : R) (n : nat) :
  softmax_row (repeat x n) = repeat (1 / INR n) n.
Proof.
  unfold softmax_row; rewrite sum_exp_repeat, map_repeat.
  destruct n as [|n]; [reflexivity|].
  f_equal. pose proof (exp_pos x).
  assert (0 < INR (S n)) by (apply lt_0_INR; lia).
  field; split; lra.
Qed.

Lemma sum_R_scaled (c : R) (k : nat) (pairs : list (R * vec)) :
  Forall (fun ah => fst ah = c) pairs ->
  sum_R (map (fun ah => fst ah * nth k (snd ah) 0) pairs)
  = c * sum_R (map (fun ah => nth k (snd ah) 0) pairs).
Proof.
  induction 1 as [|[a h] pairs Ha _ IH]; simpl in *; [ring|].
  rewrite IH, Ha; ring.
Qed.

(** X18: without a source mask [init_state] gives every source position the
    weight [1 / attn_length], and its memory cell [C] is the mean of the
    attention states over the source positions. *)
Theorem init_state_is_the_mean (hidden : list (list vec))
    (attn_size batch_size attn_length : nat) :
  (1 <= attn_length)%nat -> length hidden = batch_size ->
  Forall (fun hidden_b => length hidden_b = attn_length
                          /\ Forall (fun h => length h = attn_size) hidden_b) hidden ->
  init_weights batch_size attn_length None
  = repeat (repeat (1 / INR attn_length) attn_length) batch_size
  /\ fst (init_memory hidden attn_size batch_size attn_length None)
     = map (fun hidden_b =>
              map (fun k => sum_R (map (fun h => nth k h 0) hidden_b) / INR attn_length)
                  (seq 0 attn_size))
           hidden.
Proof.
  intros Hn Hbatch Hshape.
  assert (Hw : init_weights batch_size attn_length None
               = repeat (repeat (1 / INR attn_length) attn_length) batch_size).
  { unfold init_weights, softmax, masked.
    rewrite map_repeat, softmax_row_repeat; reflexivity. }
  split; [exact Hw|].
  unfold init_memory; rewrite Hw; simpl. unfold weighted.
  subst batch_size; clear Hw.
  induction Hshape as [|hidden_b rest [Hlen Hvecs] _ IH]; simpl; [reflexivity|].
  f_equal; [|exact IH].
  assert (Hpairs : Forall (fun ah : R * vec => length (snd ah) = attn_size)
                          (combine (repeat (1 / INR attn_length) attn_length) hidden_b)).
  { apply Forall_forall; intros [a h] Hin; simpl.
    apply in_combine_r in Hin. rewrite Forall_forall in Hvecs; apply Hvecs, Hin. }
  destruct (context_row_entries Hpairs) as [Hl Hk].
  match goal with
  | |- ?d = _ => replace attn_size with (length d) at 2 by exact Hl
  end.
  apply tabulate; intros k Hlt. rewrite Hl in Hlt.
  rewrite (Hk k Hlt).
  rewrite (@sum_R_scaled (1 / INR attn_length) k).
  - assert (Hsnd : map (fun ah : R * list R => nth k (snd ah) 0)
                       (combine (repeat (1 / INR attn_length) attn_length) hidden_b)
                   = map (fun h => nth k h 0) hidden_b).
    { clear - Hlen. generalize (1 / INR attn_length); intros c.
      revert hidden_b Hlen.
      induction attn_length as [|n IHn]; intros [|h hs] Hl; simpl in *;
        try discriminate; [reflexivity|].
      f_equal; apply IHn; lia. }
    rewrite Hsnd; unfold Rdiv; ring.
  - apply Forall_forall; intros [a h] Hin; simpl.
    apply in_combine_l in Hin. apply repeat_spec in Hin; exact Hin.
Qed.

Lemma init_state_is_the_mean_witness :
  init_weights 1 2 None = repeat (repeat (1 / INR 2) 2) 1
  /\ fst (init_memory Samples.hidden 1 1 2 None)
     = map (fun hidden_b =>
              map (fun k => sum_R (map (fun h => nth k h 0) hidden_b) / INR 2)
                  (seq 0 1))
           Samples.hidden.
Proof.
  apply (@init_state_is_the_mean Samples.hidden 1 1 2);
    [lia | reflexivity | repeat constructor].
Defined.

Lemma ones_times_mask (batch_size attn_length : nat) (mask : matrix) :
  length mask = batch_size ->
  Forall (fun m_b => length m_b = attn_length) mask ->
  map2 (map2 Rmult) (repeat (repeat 1 attn_length) batch_size) mask = mask.
Proof.
  intros Hl Hrows; subst batch_size.
  induction Hrows as [|m_b mask Hm _ IH]; simpl; [reflexivity|].
  f_equal; [|exact IH].
  clear - Hm; subst attn_length.
  induction m_b as [|x m_b IH]; simpl; [reflexivity|].
  f_equal; [ring | exact IH].
Qed.

Lemma softmax_row_nth (s : vec) (t : nat) :
  (t < length s)%nat ->
  nth t (softmax_row s) 0 = exp (nth t s 0) / sum_R (map exp s).
Proof.
  intros Ht; unfold softmax_row.
  rewrite (nth_indep _ 0 (exp 0 / sum_R (map exp s))) by (rewrite length_map; exact Ht).
  apply (map_nth (fun x => exp x / sum_R (map exp s))).
Qed.

Lemma init_weights_with_mask (batch_size attn_length : nat) (mask : matrix) (b : nat) :
  length mask = batch_size ->
  Forall (fun m_b => length m_b = attn_length) mask ->
  nth b (init_weights batch_size attn_length (Some mask)) []
  = softmax_row (nth b mask []).
Proof.
  intros Hl Hrows; unfold init_weights, softmax, masked.
  rewrite ones_times_mask by assumption.
  apply (map_nth softmax_row mask []).
Qed.

(** X19: with a source mask the weights of [init_state] are the softmax of
    the mask itself: position [t] of example [b] gets
    [exp(mask[b][t]) / sum_t' exp(mask[b][t'])], which is positive also where
    the mask is zero, and a position with mask one gets [e] times the weight
    of a position with mask zero. *)
Theorem init_state_weights_with_mask (batch_size attn_length : nat) (mask : matrix)
    (b t t' : nat) :
  length mask = batch_size ->
  Forall (fun m_b => length m_b = attn_length) mask ->
  (b < batch_size)%nat -> (t < attn_length)%nat -> (t' < attn_length)%nat ->
  let a_b := nth b (init_weights batch_size attn_length (Some mask)) [] in
  let m_b := nth b mask [] in
  nth t a_b 0 = exp (nth t m_b 0) / sum_R (map exp m_b)
  /\ 0 < nth t a_b 0
  /\ (nth t m_b 0 = 1 -> nth t' m_b 0 = 0 -> nth t a_b 0 = exp 1 * nth t' a_b 0).
Proof.
  intros Hl Hrows Hb Ht Ht' a_b m_b; subst a_b m_b.
  rewrite init_weights_with_mask by assumption.
  assert (Hlen : length (nth b mask []) = attn_length).
  { rewrite Forall_forall in Hrows; apply Hrows, nth_In; lia. }
  rewrite !softmax_row_nth by lia.
  assert (Hz : 0 < sum_R (map exp (nth b mask []))).
  { apply sum_exp_pos; intros E; rewrite E in Hlen; simpl in Hlen; lia. }
  split; [reflexivity|]. split.
  - apply Rdiv_lt_0_compat; [apply exp_pos | exact Hz].
  - intros H1 H0; rewrite H1, H0, exp_0; field; lra.
Qed.

Lemma init_state_weights_with_mask_witness :
  let a_b := nth 0 (init_weights 1 2 (Some [[1; 0]])) [] in
  let m_b := nth 0 [[1; 0]] [] in
  nth 0 a_b 0 = exp (nth 0 m_b 0) / sum_R (map exp m_b)
  /\ 0 < nth 0 a_b 0
  /\ (nth 0 m_b 0 = 1 -> nth 1 m_b 0 = 0 -> nth 0 a_b 0 = exp 1 * nth 1 a_b 0).
Proof.
  apply (@init_state_weights_with_mask 1 2 [[1; 0]] 0 0 1);
    [reflexivity | repeat constructor | lia | lia | lia].
Defined.

(** The number of copies of [[C, h]] in the state. *)
Lemma iter_concat_shape (batch_size width : nat) (unit : matrix) (k : nat) :
  length unit = batch_size ->
  Forall (fun row => length row = width) unit ->
  let state := Nat.iter k (fun state => concat1 [state; unit]) unit in
  length state = batch_size
  /\ Forall (fun row => length row = (S k * width)%nat) state.
Proof.
  intros Hl Hrows; induction k as [|k [IHl IHrows]].
  - simpl; split; [exact Hl|].
    eapply Forall_impl; [|exact Hrows]; simpl; intros row Hr; lia.
  - cbv zeta in IHl, IHrows |- *. rewrite Nat.iter_succ.
    set (state := Nat.iter k (fun state => concat1 [state; unit]) unit) in *.
    change (concat1 [state; unit]) with (map2 (@app R) state unit). split.
    + rewrite map2_length; congruence.
    + clearbody state. clear - Hl Hrows IHl IHrows. subst batch_size.
      revert unit IHl Hrows.
      induction IHrows as [|row state Hrow _ IH]; intros [|u unit] Hlen Hrows;
        simpl in *; try discriminate; constructor.
      * inversion Hrows; subst. rewrite length_app; lia.
      * inversion Hrows; subst. apply IH; [lia | assumption].
Qed.

Lemma weighted_shape (hidden : list (list vec)) (attn_size : nat) (a : matrix) :
  length a = length hidden ->
  Forall (Forall (fun h => length h = attn_size)) hidden ->
  length (weighted hidden attn_size a) = length hidden
  /\ Forall (fun row => length row = attn_size) (weighted hidden attn_size a).
Proof.
  unfold weighted; intros Hl Hshape; split.
  - rewrite map2_length by exact Hl; exact Hl.
  - revert a Hl; induction Hshape as [|hidden_b rest Hvecs _ IH]; intros [|a_b a] Hl;
      simpl in *; try discriminate; constructor.
    + apply context_row_entries.
      apply Forall_forall; intros [x h] Hin; simpl.
      apply in_combine_r in Hin. rewrite Forall_forall in Hvecs; apply Hvecs, Hin.
    + apply IH; lia.
Qed.

Lemma init_weights_length (batch_size attn_length : nat) (src_mask : option matrix) :
  match src_mask with Some m => length m = batch_size | None => True end ->
  length (init_weights batch_size attn_length src_mask) = batch_size.
Proof.
  unfold init_weights, softmax, masked; intros Hm; rewrite length_map.
  destruct src_mask as [m|]; [|apply repeat_length].
  rewrite map2_length; rewrite repeat_length; congruence.
Qed.

(** X20: for a cell it supports, [init_state] returns a state with one row
    per example whose width is [2 * attn_size] for a single LSTM cell ([C]
    and [h] side by side) and [2 * attn_size * num_layers] for a
    [MultiRNNCell] of at least one layer; a [MultiRNNCell] of no layer still
    gets one copy. *)
Theorem init_state_shape (cell : cell_kind) (hidden : list (list vec))
    (attn_size batch_size attn_length : nat) (src_mask : option matrix) :
  bow_init_supported cell = true ->
  length hidden = batch_size ->
  Forall (Forall (fun h => length h = attn_size)) hidden ->
  match src_mask with Some m => length m = batch_size | None => True end ->
  let copies := match cell with
                | BOWCell (MultiRNNCell _ num_layers) => Nat.max 1 num_layers
                | _ => 1%nat
                end in
  exists state,
    init_state_value cell hidden attn_size batch_size attn_length src_mask = Ok state
    /\ length state = batch_size
    /\ Forall (fun row => length row = (copies * (2 * attn_size))%nat) state.
Proof.
  intros Hcell Hl Hshape Hmask copies.
  unfold init_state_value; rewrite Hcell; unfold init_memory.
  set (C := weighted hidden attn_size (init_weights batch_size attn_length src_mask)).
  assert (HC : length C = batch_size
               /\ Forall (fun row => length row = attn_size) C).
  { rewrite <- Hl at 1. apply weighted_shape; [|exact Hshape].
    rewrite init_weights_length; [congruence | exact Hmask]. }
  destruct HC as [HCl HCrows].
  set (unit := concat1 [C; map (map tanh) C]).
  assert (Hunit : length unit = batch_size
                  /\ Forall (fun row => length row = (2 * attn_size)%nat) unit).
  { subst unit; change (concat1 [C; map (map tanh) C])
      with (map2 (@app R) C (map (map tanh) C)); split.
    - rewrite map2_length; [exact HCl | rewrite length_map; reflexivity].
    - clear - HCrows. induction HCrows as [|row C Hrow _ IH]; simpl; constructor.
      + rewrite length_app, length_map; lia.
      + exact IH. }
  destruct Hunit as [Hul Hurows].
  assert (Hone : exists state, Ok unit = Ok state /\ length state = batch_size
                   /\ Forall (fun row => length row = (1 * (2 * attn_size))%nat) state).
  { exists unit; split; [reflexivity|]; split; [exact Hul|].
    eapply Forall_impl; [|exact Hurows]; simpl; intros row Hr; lia. }
  destruct cell as [| | | |c0 n|w]; try discriminate Hcell.
  destruct w as [| | |w'|c0 n|w']; subst copies; try exact Hone.
  destruct (@iter_concat_shape batch_size (2 * attn_size) unit (n - 1) Hul Hurows)
    as [Hsl Hsrows].
  eexists; split; [reflexivity|]; split; [exact Hsl|].
  eapply Forall_impl; [|exact Hsrows]; simpl; intros row Hr.
  rewrite Hr. destruct n as [|n]; simpl; [lia|].
  rewrite Nat.sub_0_r. destruct n; simpl; lia.
Qed.

Lemma init_state_shape_witness :
  exists state,
    init_state_value (BOWCell (MultiRNNCell LSTMCell 2)) Samples.hidden 1 1 2 None
    = Ok state
    /\ length state = 1%nat
    /\ Forall (fun row => length row = (Nat.max 1 2 * (2 * 1))%nat) state.
Proof.
  apply (@init_state_shape (BOWCell (MultiRNNCell LSTMCell 2)) Samples.hidden
           1 1 2 None);
    [reflexivity | reflexivity | repeat constructor | exact I].
Defined.

End BowInitFacts.

(** ** Teacher forcing and scheduled sampling without a loop function *)

Module ForcingFacts.
Import RnnDecoder RnnDecoderFacts.
Open Scope nat_scope.

Section Rnn.

Variables Inp Out State : Type.
Variable cell : Inp -> State -> Out * State.

(** Without a loop function and without a sampling probability every step
    hands the supplied input to the cell. *)
Lemma decode_teacher_forcing (rvs : nat -> Q) (inputs : list Inp) :
  forall (i : nat) (st : State) (prev : option Out),
  exists r, decode cell None None rvs i inputs st prev = Ok r
            /\ fed r = inputs /\ length (outputs r) = length inputs.
Proof.
  induction inputs as [|inp rest IH]; intros i st prev; cbn -[step_input].
  - eexists; repeat split.
  - assert (Hin : step_input (@None (loop_fn Inp Out)) None (rvs i) prev inp i
                  = Ok inp)
      by (destruct prev; reflexivity).
    rewrite Hin; simpl.
    destruct (cell inp st) as [output st'].
    destruct (IH (S i) st' (Some output)) as (r & Hr & Hfed & Hlen).
    rewrite Hr; simpl. eexists; split; [reflexivity|]; simpl.
    split; f_equal; assumption.
Qed.

(** X22: [rnn_decoder] called with a sampling probability but without a loop
    function raises [TypeError] as soon as there are two decoder inputs: at
    the second step [cond] builds the branch that applies the loop function
    to the previous output, and the loop function is [None]. *)
Theorem scheduled_sampling_needs_a_loop_function (decoder_inputs : list Inp)
    (initial_state : State) (p : Q) (rvs : nat -> Q) :
  2 <= length decoder_inputs ->
  rnn_decoder cell decoder_inputs initial_state None (Some p) rvs = Raise TypeError.
Proof.
  destruct decoder_inputs as [|x0 [|x1 rest]]; simpl; try lia; intros _.
  unfold rnn_decoder, rnn_decoder_run; simpl.
  unfold cond; simpl.
  destruct (cell x0 initial_state) as [output st']; reflexivity.
Qed.

End Rnn.

Section Embedding.

Variable State : Type.
Variable cell : qmatrix -> State -> qmatrix * State.

(** X21: [embedding_rnn_decoder] called without an output projection, with
    [feed_previous=False] and no sampling probability, on ids of the
    vocabulary, returns and hands the cell, step by step, the embeddings of
    the decoder inputs: no output is fed back. *)
Theorem embedding_rnn_decoder_teacher_forcing (embedding : qmatrix)
    (decoder_inputs : list (list nat)) (initial_state : State)
    (update_embedding_for_previous : bool) (rvs : nat -> Q) :
  Forall (Forall (fun id => id < length embedding)) decoder_inputs ->
  exists r,
    embedding_rnn_decoder_run cell embedding decoder_inputs initial_state
      None false update_embedding_for_previous None rvs = Ok r
    /\ fed r = map (embedding_lookup embedding) decoder_inputs
    /\ length (outputs r) = length decoder_inputs.
Proof.
  intros _; unfold embedding_rnn_decoder_run, rnn_decoder_run; simpl.
  destruct (decode_teacher_forcing cell rvs
              (map (embedding_lookup embedding) decoder_inputs) 0 initial_state None)
    as (r & Hr & Hfed & Hlen).
  exists r; rewrite length_map in Hlen; auto.
Qed.

End Embedding.

Lemma embedding_rnn_decoder_teacher_forcing_witness :
  exists r,
    embedding_rnn_decoder_run Samples.scoring_cell Samples.embedding
      Samples.decoder_inputs 0 None false true None Samples.half = Ok r
    /\ fed r = [[[1]]; [[2]]; [[2]]]%Q
    /\ length (outputs r) = 3.
Proof.
  apply (@embedding_rnn_decoder_teacher_forcing nat Samples.scoring_cell
           Samples.embedding Samples.decoder_inputs 0 true Samples.half).
  unfold Samples.decoder_inputs, Samples.embedding; repeat constructor.
Defined.

Lemma scheduled_sampling_needs_a_loop_function_witness :
  rnn_decoder Samples.counting_cell [tt; tt] 0 None (Some (1 # 2)%Q) Samples.half
  = Raise TypeError.
Proof.
  apply (@scheduled_sampling_needs_a_loop_function unit unit nat
           Samples.counting_cell [tt; tt] 0 (1 # 2)%Q Samples.half).
  simpl; lia.
Defined.

End ForcingFacts.

(** ** The variational model: what raises, and where [z] comes from *)

Module VaeRunFacts.
Import Tensor Vae VaeCall.
Open Scope R_scope.

Section Seq2seqRuns.

Variables DecInputs Out Prob : Type.
Variable transfer_func : matrix -> matrix.
Variable decoder : DecInputs -> decoder_state -> bool -> bool -> option Prob
                   -> result (list Out).


(** X24: where the returned [z] comes from when [feed_previous] is a Python
    bool and no latent state is handed in: with [sample_mean] and
    [feed_previous] both true it is [z_mean], and the whole result does not
    depend on the noise [eps]; otherwise it is
    [z_mean + sqrt(exp(z_log_var)) * eps]. *)
Theorem vae_seq2seq_latent (encoder_out_state : matrix) (state_is_tuple : bool)
    (vars : variables) (eps eps' : matrix) (decoder_inputs : DecInputs)
    (feed_previous : bool) (feed_prev_p : option Prob) (kl_min : R)
    (anneal_scale : option R) (sample_mean concat_encoded : bool) :
  let call := fun noise =>
    embedding_rnn_vae_seq2seq transfer_func decoder encoder_out_state
      state_is_tuple vars noise decoder_inputs (PyBool feed_previous) None
      feed_prev_p kl_min anneal_scale sample_mean concat_encoded in
  let z_mean := z_mean_of transfer_func vars encoder_out_state in
  let z_log_var := z_log_var_of transfer_func vars encoder_out_state in
  (sample_mean && feed_previous = true -> call eps = call eps')
  /\ forall outs z kl, call eps = Ok (outs, z, kl) ->
       z = if sample_mean && feed_previous then z_mean
           else mmap2 Rplus z_mean
                  (mmap2 Rmult (mmap (fun x => sqrt (exp x)) z_log_var) eps).
Proof.
  intros call z_mean z_log_var; subst call z_mean z_log_var.
  unfold embedding_rnn_vae_seq2seq; split.
  - intros Hmean; apply andb_prop in Hmean; destruct Hmean; subst; reflexivity.
  - intros outs z kl H.
    apply bind_ok_inv in H; destruct H as (use_mean & Huse & H).
    assert (Hu : use_mean = sample_mean && feed_previous).
    { destruct sample_mean; simpl in *; inversion Huse; reflexivity. }
    rewrite <- Hu.
    apply bind_ok_inv in H; destruct H as (st & _ & H).
    apply bind_ok_inv in H; destruct H as (o & _ & H).
    inversion H; reflexivity.
Qed.

End Seq2seqRuns.


Lemma vae_seq2seq_latent_witness :
  exists outs kl,
    embedding_rnn_vae_seq2seq (fun m => m) Samples.vae_decoder [[1]] false
      Samples.vae_variables [[3; 4]] tt (PyBool true) None (Some (1 # 2)%Q) 0 None
      true false
    = Ok (outs, z_mean_of (fun m => m) Samples.vae_variables [[1]], kl).
Proof.
  destruct (@vae_seq2seq_latent unit unit Q (fun m => m) Samples.vae_decoder [[1]]
              false Samples.vae_variables [[3; 4]] [[0; 0]] tt true
              (Some (1 # 2)%Q) 0 None true false) as [_ Hz].
  eexists; eexists.
  match goal with
  | |- ?call = _ =>
      destruct call as [[[outs z] kl]|e] eqn:Hcall; [|discriminate Hcall]
  end.
  rewrite (Hz outs z kl eq_refl); simpl. inversion Hcall; subst; reflexivity.
Defined.

End VaeRunFacts.

(** ** What the loop over the buckets collects *)

Module BucketResultFacts.
Import Tensor SequenceLoss Buckets BucketEntries.
Open Scope R_scope.

Section Model.

Variables EncInp DecInp Logit State EncStates Prob : Type.
Variable xent : Logit -> target -> result vec.



End Model.


End BucketResultFacts.

(** ** The segments of the maxout layer *)

Module MaxoutFacts.
Import Maxout.
Open Scope nat_scope.

Lemma pairs_length (a m : nat) :
  length (concat (map (fun i => [i; i]) (seq a m))) = 2 * m.
Proof.
  revert a; induction m as [|m IH]; intros a; simpl; [reflexivity|].
  rewrite IH; lia.
Qed.

Lemma pairs_nth (m : nat) :
  forall a k, k < 2 * m ->
  nth k (concat (map (fun i => [i; i]) (seq a m))) 0 = a + k / 2.
Proof.
  induction m as [|m IH]; intros a k Hk; [lia|].
  destruct k as [|[|k]]; [simpl; lia | simpl; lia |].
  change (nth (S (S k)) (concat (map (fun i => [i; i]) (seq a (S m)))) 0)
    with (nth k (concat (map (fun i => [i; i]) (seq (S a) m))) 0).
  rewrite IH by lia.
  replace (S (S k)) with (1 * 2 + k) by lia.
  rewrite Nat.div_add_l by lia; lia.
Qed.

(** X26: the maxout layer takes the maximum over neighbouring pairs of
    units: unit [k] of the merged output is given segment [k // 2]; the list
    of segment ids has [2 * (output_size // 2)] entries, as many as the
    merged output has units exactly when [cell.output_size] is even. *)
Theorem maxout_segments (output_size : nat) :
  length (segment_id_list output_size) = 2 * maxout_size output_size
  /\ (length (segment_id_list output_size) = output_size
      <-> Nat.even output_size = true)
  /\ forall k, k < length (segment_id_list output_size) ->
       nth k (segment_id_list output_size) 0 = k / 2.
Proof.
  unfold segment_id_list, maxout_size.
  rewrite pairs_length. split; [reflexivity|]. split.
  - pose proof (Nat.div_mod_eq output_size 2) as Hd.
    assert (Hm : output_size mod 2 < 2) by (apply Nat.mod_upper_bound; lia).
    split; intros H.
    + apply Nat.even_spec. exists (output_size / 2); lia.
    + apply Nat.even_spec in H; destruct H as [c Hc]. lia.
  - intros k Hk; rewrite pairs_nth by exact Hk; reflexivity.
Qed.

Lemma maxout_segments_witness :
  length (segment_id_list 5) = 2 * maxout_size 5
  /\ (length (segment_id_list 5) = 5 <-> Nat.even 5 = true)
  /\ forall k, k < length (segment_id_list 5) -> nth k (segment_id_list 5) 0 = k / 2.
Proof. apply (maxout_segments 5). Defined.

End MaxoutFacts.
